(** * HealthCost AI Copilot: browser client (static/js/api.js, static/js/app.js)

    A shallow embedding of the API client and of the chat part of the
    application script, with the properties the specification states about
    them.  JavaScript values are an inductive type, strings are byte strings,
    the application state and the part of the DOM the chat handlers touch are
    records, and asynchronous functions are split at their [await] points
    into the part that runs before and the part that runs after. *)

From Stdlib Require Import ZArith QArith Ascii.
From stdpp Require Import base option list strings pretty gmap sorting.

Set Warnings "-register-all".
Open Scope Z_scope.

(** ** JavaScript values *)

Module Js.

(** The values that travel through the client: JSON data plus [undefined].
    Numbers are the integers, which is what the client turns into text (an
    HTTP status, a page number); objects keep their properties in insertion
    order, and the first binding of a key is the property. *)
Inductive JValue : Type :=
| JUndefined
| JNull
| JBool (b : bool)
| JNum (n : Z)
| JStr (s : string)
| JArr (items : list JValue)
| JObj (props : list (string * JValue)).

(** [ToBoolean]: what [if (v)], [!v] and [v || w] test. *)
Definition truthy (v : JValue) : bool :=
  match v with
  | JUndefined | JNull => false
  | JBool b => b
  | JNum n => negb (n =? 0)
  | JStr s => negb (String.eqb s EmptyString)
  | JArr _ | JObj _ => true
  end.

(** [a || b] *)
Definition or_else (a b : JValue) : JValue := if truthy a then a else b.

(** [String.prototype.concat] over a list of pieces with a separator. *)
Fixpoint join (sep : string) (l : list string) : string :=
  match l with
  | [] => EmptyString
  | [s] => s
  | s :: r => s +:+ sep +:+ join sep r
  end.

(** [ToString], as a template literal and [new Error(v)] apply it. *)
Fixpoint to_string (v : JValue) : string :=
  match v with
  | JUndefined => "undefined"
  | JNull => "null"
  | JBool true => "true"
  | JBool false => "false"
  | JNum n => pretty n
  | JStr s => s
  | JArr items =>
      join "," (map (fun x => match x with
                              | JUndefined | JNull => EmptyString
                              | _ => to_string x
                              end) items)
  | JObj _ => "[object Object]"
  end.

(** Own property of an object literal or of parsed JSON. *)
Fixpoint assoc (k : string) (props : list (string * JValue)) : JValue :=
  match props with
  | [] => JUndefined
  | (k', v) :: r => if String.eqb k k' then v else assoc k r
  end.

(** [v.k] for a name [k] that is no built-in property of strings, arrays or
    wrappers (all names read by the client are such): [None] is the
    [TypeError] of reading a property of [undefined] or [null]. *)
Definition get (v : JValue) (k : string) : option JValue :=
  match v with
  | JUndefined | JNull => None
  | JObj props => Some (assoc k props)
  | _ => Some JUndefined
  end.

(** [v === 'lit'] *)
Definition is_string (lit : string) (v : JValue) : bool :=
  match v with
  | JStr s => String.eqb s lit
  | _ => false
  end.

(** [v !== false] *)
Definition not_false (v : JValue) : bool :=
  match v with
  | JBool false => false
  | _ => true
  end.

(** An exception value: [name] and [message] of an [Error] object. *)
Record Exn : Type := MkExn { exn_name : string; exn_message : string }.

(** [new Error(message)] *)
Definition new_Error (message : JValue) : Exn :=
  MkExn "Error" (to_string message).

End Js.

(** ** JSON text *)

Module Json.
Import Js.

Definition dquote : ascii := Ascii.ascii_of_nat 34.
Definition backslash : ascii := Ascii.ascii_of_nat 92.
Definition newline : ascii := Ascii.ascii_of_nat 10.

Definition hex_digit (n : nat) : ascii :=
  Ascii.ascii_of_nat (if Nat.ltb n 10 then 48 + n else 87 + n).

(** One character of a quoted JSON string ([QuoteJSONString]). *)
Definition escape_char (c : ascii) : string :=
  let n := Ascii.nat_of_ascii c in
  if Nat.eqb n 34 then String backslash (String dquote EmptyString)
  else if Nat.eqb n 92 then String backslash (String backslash EmptyString)
  else if Nat.eqb n 8 then String backslash "b"
  else if Nat.eqb n 12 then String backslash "f"
  else if Nat.eqb n 10 then String backslash "n"
  else if Nat.eqb n 13 then String backslash "r"
  else if Nat.eqb n 9 then String backslash "t"
  else if Nat.ltb n 32 then
    String backslash ("u00" +:+ String (hex_digit (n / 16)) (String (hex_digit (n mod 16)) EmptyString))
  else String c EmptyString.

Fixpoint escape (s : string) : string :=
  match s with
  | EmptyString => EmptyString
  | String c r => escape_char c +:+ escape r
  end.

Definition quote (s : string) : string :=
  String dquote (escape s +:+ String dquote EmptyString).

(** [JSON.stringify(v)] for the values the client serialises.  A property
    whose value is [undefined] is left out, an [undefined] array item is
    written [null]. *)
Fixpoint JSON_stringify (v : JValue) : string :=
  match v with
  | JUndefined | JNull => "null"
  | JBool true => "true"
  | JBool false => "false"
  | JNum n => pretty n
  | JStr s => quote s
  | JArr items => "[" +:+ join "," (map JSON_stringify items) +:+ "]"
  | JObj props =>
      "{" +:+ join ","
        ((fix members (ps : list (string * JValue)) : list string :=
            match ps with
            | [] => []
            | (_, JUndefined) :: r => members r
            | (k, x) :: r => (quote k +:+ ":" +:+ JSON_stringify x) :: members r
            end) props) +:+ "}"
  end.

(** One property of a serialised object: ["key":value]. *)
Definition member (k : string) (v : JValue) : string :=
  quote k +:+ ":" +:+ JSON_stringify v.

(** A reference [JSON.parse] for the integer fragment of JSON: literals,
    integers, strings with their escapes (a [\u] escape of a code point
    below 128), arrays and objects.  It evaluates concrete streams and
    bodies; the general statements below quantify over the parser. *)

Definition is_ws (c : ascii) : bool :=
  let n := Ascii.nat_of_ascii c in
  Nat.eqb n 32 || Nat.eqb n 9 || Nat.eqb n 10 || Nat.eqb n 13.

Fixpoint skip_ws (l : list ascii) : list ascii :=
  match l with
  | c :: r => if is_ws c then skip_ws r else l
  | [] => []
  end.

Definition digit_of (c : ascii) : option Z :=
  let n := Ascii.nat_of_ascii c in
  if Nat.leb 48 n && Nat.leb n 57 then Some (Z.of_nat (n - 48)) else None.

Definition hex_of (c : ascii) : option nat :=
  let n := Ascii.nat_of_ascii c in
  if Nat.leb 48 n && Nat.leb n 57 then Some (n - 48)%nat
  else if Nat.leb 97 n && Nat.leb n 102 then Some (n - 87)%nat
  else if Nat.leb 65 n && Nat.leb n 70 then Some (n - 55)%nat
  else None.

Fixpoint parse_digits (acc : Z) (l : list ascii) : Z * list ascii :=
  match l with
  | c :: r => match digit_of c with
              | Some d => parse_digits (10 * acc + d) r
              | None => (acc, l)
              end
  | [] => (acc, [])
  end.

Definition number_ends (l : list ascii) : bool :=
  match l with
  | c :: _ => let n := Ascii.nat_of_ascii c in
              negb (Nat.eqb n 46 || Nat.eqb n 101 || Nat.eqb n 69)
  | [] => true
  end.

Definition parse_nat (l : list ascii) : option (Z * list ascii) :=
  match l with
  | c :: r =>
      match digit_of c with
      | Some 0 => match r with
                  | c' :: _ => match digit_of c' with
                               | Some _ => None
                               | None => if number_ends r then Some (0, r) else None
                               end
                  | [] => Some (0, [])
                  end
      | Some d => let '(n, r') := parse_digits d r in
                  if number_ends r' then Some (n, r') else None
      | None => None
      end
  | [] => None
  end.

Fixpoint parse_chars (l : list ascii) : option (string * list ascii) :=
  match l with
  | [] => None
  | c :: r =>
      let n := Ascii.nat_of_ascii c in
      if Nat.eqb n 34 then Some (EmptyString, r)
      else if Nat.ltb n 32 then None
      else if Nat.eqb n 92 then
        match r with
        | e :: r' =>
            let m := Ascii.nat_of_ascii e in
            let one (x : nat) (rest : list ascii) :=
              match parse_chars rest with
              | Some (s, r'') => Some (String (Ascii.ascii_of_nat x) s, r'')
              | None => None
              end in
            if Nat.eqb m 34 then one 34%nat r'
            else if Nat.eqb m 92 then one 92%nat r'
            else if Nat.eqb m 47 then one 47%nat r'
            else if Nat.eqb m 98 then one 8%nat r'
            else if Nat.eqb m 102 then one 12%nat r'
            else if Nat.eqb m 110 then one 10%nat r'
            else if Nat.eqb m 114 then one 13%nat r'
            else if Nat.eqb m 116 then one 9%nat r'
            else if Nat.eqb m 117 then
              match r' with
              | h1 :: h2 :: h3 :: h4 :: r'' =>
                  match hex_of h1, hex_of h2, hex_of h3, hex_of h4 with
                  | Some 0%nat, Some 0%nat, Some a, Some b =>
                      if Nat.ltb a 8 then one (16 * a + b)%nat r'' else None
                  | _, _, _, _ => None
                  end
              | _ => None
              end
            else None
        | [] => None
        end
      else match parse_chars r with
           | Some (s, r') => Some (String c s, r')
           | None => None
           end
  end.

(** Objects keep one binding per key, the last one written. *)
Fixpoint obj_set (k : string) (v : JValue) (props : list (string * JValue)) :
    list (string * JValue) :=
  match props with
  | [] => [(k, v)]
  | (k', v') :: r => if String.eqb k k' then (k, v) :: r else (k', v') :: obj_set k v r
  end.

Definition obj_of (raw : list (string * JValue)) : JValue :=
  JObj (fold_left (fun acc kv => obj_set (fst kv) (snd kv) acc) raw []).

Fixpoint parse_value (fuel : nat) (l : list ascii) : option (JValue * list ascii) :=
  match fuel with
  | O => None
  | S fuel' =>
      match skip_ws l with
      | "n" :: "u" :: "l" :: "l" :: r => Some (JNull, r)
      | "t" :: "r" :: "u" :: "e" :: r => Some (JBool true, r)
      | "f" :: "a" :: "l" :: "s" :: "e" :: r => Some (JBool false, r)
      | "[" :: r =>
          match skip_ws r with
          | "]" :: r' => Some (JArr [], r')
          | _ => match parse_elements fuel' r with
                 | Some (vs, r') => Some (JArr vs, r')
                 | None => None
                 end
          end
      | "{" :: r =>
          match skip_ws r with
          | "}" :: r' => Some (JObj [], r')
          | _ => match parse_members fuel' r with
                 | Some (kvs, r') => Some (obj_of kvs, r')
                 | None => None
                 end
          end
      | "-" :: r =>
          match parse_nat r with
          | Some (n, r') => Some (JNum (- n), r')
          | None => None
          end
      | c :: r =>
          if Nat.eqb (Ascii.nat_of_ascii c) 34 then
            match parse_chars r with
            | Some (s, r') => Some (JStr s, r')
            | None => None
            end
          else
            match parse_nat (c :: r) with
            | Some (n, r') => Some (JNum n, r')
            | None => None
            end
      | [] => None
      end%char
  end
with parse_elements (fuel : nat) (l : list ascii) : option (list JValue * list ascii) :=
  match fuel with
  | O => None
  | S fuel' =>
      match parse_value fuel' l with
      | Some (v, r) =>
          match skip_ws r with
          | "," :: r' => match parse_elements fuel' r' with
                         | Some (vs, r'') => Some (v :: vs, r'')
                         | None => None
                         end
          | "]" :: r' => Some ([v], r')
          | _ => None
          end%char
      | None => None
      end
  end
with parse_members (fuel : nat) (l : list ascii) :
    option (list (string * JValue) * list ascii) :=
  match fuel with
  | O => None
  | S fuel' =>
      match skip_ws l with
      | c :: r =>
          if Nat.eqb (Ascii.nat_of_ascii c) 34 then
            match parse_chars r with
            | Some (k, r1) =>
                match skip_ws r1 with
                | ":" :: r2 =>
                    match parse_value fuel' r2 with
                    | Some (v, r3) =>
                        match skip_ws r3 with
                        | "," :: r4 => match parse_members fuel' r4 with
                                       | Some (kvs, r5) => Some ((k, v) :: kvs, r5)
                                       | None => None
                                       end
                        | "}" :: r4 => Some ([(k, v)], r4)
                        | _ => None
                        end
                    | None => None
                    end
                | _ => None
                end%char
            | None => None
            end
          else None
      | [] => None
      end
  end.

(** [None] is the [SyntaxError]. *)
Definition json_parse (s : string) : option JValue :=
  let l := String.list_ascii_of_string s in
  match parse_value (2 * length l + 2) l with
  | Some (v, r) => match skip_ws r with
                   | [] => Some v
                   | _ => None
                   end
  | None => None
  end.

End Json.

(** ** The engine: what the browser provides *)

(** [JSON.parse] ([None] is its [SyntaxError]), [String.prototype.trim] and
    the wording of the exceptions the engine raises by itself. *)
Class Engine : Type := {
  JSON_parse : string -> option Js.JValue;
  String_trim : string -> string;
  syntax_error_message : string -> string;
  type_error_message : string -> string;
}.

(** [new TextDecoder()] used with [{ stream: true }]: decoding a chunk
    returns the text that is complete so far and keeps an unfinished
    multi-byte sequence in the decoder, so that cutting a chunk in two does
    not change the text that comes out. *)
Class TextDecoder : Type := {
  decoder : Type;
  decoder_new : decoder;
  decode : decoder -> list Byte.byte -> decoder * string;
  decode_nil : forall d, decode d [] = (d, EmptyString);
  decode_app : forall d a b,
    decode d (a ++ b) =
    (fst (decode (fst (decode d a)) b),
     snd (decode d a) +:+ snd (decode (fst (decode d a)) b));
}.

(** ** api.js *)

Module Api.
Import Js.

Definition API_BASE : string := "/api/v1".

Inductive Settled (A : Type) : Type :=
| Resolved (a : A)
| Rejected (e : Exn).
Arguments Resolved {A} a.
Arguments Rejected {A} e.

(** The body of a request: none, a string, or a [FormData] object. *)
Inductive Body : Type :=
| NoBody
| TextBody (text : string)
| FormDataBody (fields : list (string * string)).

Record RequestOptions : Type := {
  opt_method : option string;
  opt_headers : option (list (string * string));
  opt_body : Body;
}.

Record Request : Type := {
  req_url : string;
  req_method : option string;
  req_headers : list (string * string);
  req_body : Body;
}.

Record Response : Type := {
  ok : bool;
  status : Z;
  body_text : string;
}.

Inductive FetchResult : Type :=
| FetchFailed (e : Exn)
| FetchResponse (r : Response).

Definition is_FormData (b : Body) : bool :=
  match b with
  | FormDataBody _ => true
  | _ => false
  end.

(** The [fetch(url, config)] that [apiRequest(endpoint, options)] issues.
    In [config] the spread of [options] comes after the [headers] property,
    so headers given in [options] replace the default ones. *)
Definition apiRequest_fetch (endpoint : string) (options : RequestOptions) : Request :=
  let url := API_BASE +:+ endpoint in
  let headers :=
    match opt_headers options with
    | Some h => h
    | None => [("Content-Type", "application/json")]
    end in
  let headers :=
    if is_FormData (opt_body options)
    then filter (fun kv => fst kv <> "Content-Type") headers
    else headers in
  {| req_url := url;
     req_method := opt_method options;
     req_headers := headers;
     req_body := opt_body options |}.

(** What the promise of [apiRequest] settles to, from the outcome of the
    [fetch]: the [try] block, whose [catch] logs and rethrows. *)
Definition apiRequest `{Engine} (f : FetchResult) : Settled JValue :=
  match f with
  | FetchFailed e => Rejected e
  | FetchResponse response =>
      if negb (ok response) then
        let error :=
          match JSON_parse (body_text response) with
          | Some v => v
          | None => JObj [("detail", JStr ("HTTP error " +:+ to_string (JNum (status response))))]
          end in
        match get error "detail" with
        | Some detail => Rejected (new_Error (or_else detail (JStr "Erro na requisicao")))
        | None => Rejected (MkExn "TypeError" (type_error_message "detail"))
        end
      else
        match JSON_parse (body_text response) with
        | Some v => Resolved v
        | None => Rejected (MkExn "SyntaxError" (syntax_error_message (body_text response)))
        end
  end.

(** The [options] argument of the chat calls.  A property that the caller
    leaves out is [JUndefined]; a callback is present or not. *)
Record ChatOptions : Type := {
  contractId : JValue;
  conversationId : JValue;
  includeSources : JValue;
  includeDebug : JValue;
  onStatus : bool;
  onComplete : bool;
  onError : bool;
}.

(** The object [data] that [ChatAPI.sendMessage] and
    [ChatAPI.sendMessageStream] both build. *)
Definition chat_data (message clientId : string) (options : ChatOptions) : JValue :=
  JObj [("message", JStr message);
        ("client_id", JStr clientId);
        ("contract_id", or_else (contractId options) JNull);
        ("conversation_id", or_else (conversationId options) JNull);
        ("include_sources", JBool (not_false (includeSources options)));
        ("include_debug", or_else (includeDebug options) (JBool false))].

(** [ChatAPI.sendMessage]: the request it hands to [apiRequest]. *)
Definition ChatAPI_sendMessage (message clientId : string) (options : ChatOptions) : Request :=
  apiRequest_fetch "/chat/"
    {| opt_method := Some "POST";
       opt_headers := None;
       opt_body := TextBody (Json.JSON_stringify (chat_data message clientId options)) |}.

(** [ChatAPI.sendMessageStream]: the request of its [fetch]. *)
Definition ChatAPI_sendMessageStream_fetch (message clientId : string)
    (options : ChatOptions) : Request :=
  {| req_url := API_BASE +:+ "/chat/stream";
     req_method := Some "POST";
     req_headers := [("Content-Type", "application/json"); ("Accept", "text/event-stream")];
     req_body := TextBody (Json.JSON_stringify (chat_data message clientId options)) |}.

(** *** The event stream *)

(** One invocation of a callback of [options]. *)
Inductive Callback : Type :=
| OnStatus (step message agent : JValue)
| OnComplete (data : JValue)
| OnError (data : JValue).

(** What a call of [reader.read()] settles to. *)
Inductive ReadResult : Type :=
| ReadValue (value : list Byte.byte)
| ReadDone
| ReadFailed (e : Exn).

(** What the [fetch] of the stream settles to; [reads] are the results of
    the successive [reader.read()] calls, and a call beyond them stays
    pending. *)
Inductive StreamFetch : Type :=
| StreamFailed (e : Exn)
| StreamResponse (ok : bool) (status : Z) (reads : list ReadResult).

(** [s.split('\n')] *)
Fixpoint split_newline (s : string) : list string :=
  match s with
  | EmptyString => [EmptyString]
  | String c r =>
      if Ascii.eqb c Json.newline then EmptyString :: split_newline r
      else match split_newline r with
           | x :: xs => String c x :: xs
           | [] => [String c EmptyString]
           end
  end.

(** [line.startsWith(p)] *)
Definition startsWith (p line : string) : bool := String.prefix p line.

(** [line.slice(n)] *)
Fixpoint slice (n : nat) (line : string) : string :=
  match n, line with
  | O, _ => line
  | S n', String _ r => slice n' r
  | S _, EmptyString => EmptyString
  end.

(** The body of [for (const line of lines)]: the callbacks one line causes.
    An exception inside the [try] (a [SyntaxError] of [JSON.parse], a
    [TypeError] of a property read) is caught and logged. *)
Definition dispatch_line `{Engine} (options : ChatOptions) (line : string) : list Callback :=
  if startsWith "data: " line then
    match JSON_parse (slice 6 line) with
    | None => []
    | Some eventData =>
        match get eventData "event" with
        | None => []
        | Some event =>
            if is_string "status" event then
              if onStatus options then
                match get eventData "data" with
                | Some data =>
                    match get data "step", get data "message", get data "agent" with
                    | Some step, Some message, Some agent => [OnStatus step message agent]
                    | _, _, _ => []
                    end
                | None => []
                end
              else []
            else if is_string "complete" event then
              if onComplete options then
                match get eventData "data" with
                | Some data => [OnComplete data]
                | None => []
                end
              else []
            else if is_string "error" event then
              if onError options then
                match get eventData "data" with
                | Some data => [OnError data]
                | None => []
                end
              else []
            else []
        end
    end
  else [].

(** [lines.pop() || ''] *)
Definition pop_or_empty (lines : list string) : string :=
  match last lines with
  | Some s => s
  | None => EmptyString
  end.

(** The handler of [.catch((error) => ...)]. *)
Definition catch_handler (options : ChatOptions) (error : Exn) : list Callback :=
  if negb (String.eqb (exn_name error) "AbortError") then
    if onError options then
      [OnError (JObj [("error", JStr "stream_error"); ("message", JStr (exn_message error))])]
    else []
  else [].

(** The [while (true)] loop of the reader, with the decoder and [buffer]. *)
Fixpoint read_loop `{Engine} `{TextDecoder} (options : ChatOptions)
    (d : decoder) (buffer : string) (reads : list ReadResult) : list Callback :=
  match reads with
  | [] => []
  | ReadDone :: _ => []
  | ReadFailed e :: _ => catch_handler options e
  | ReadValue value :: rest =>
      let buffer := buffer +:+ snd (decode d value) in
      let lines := split_newline buffer in
      flat_map (dispatch_line options) (removelast lines)
      ++ read_loop options (fst (decode d value)) (pop_or_empty lines) rest
  end.

(** [ChatAPI.sendMessageStream]: the callbacks it invokes, in order. *)
Definition sendMessageStream `{Engine} `{TextDecoder} (options : ChatOptions)
    (f : StreamFetch) : list Callback :=
  match f with
  | StreamFailed e => catch_handler options e
  | StreamResponse ok status reads =>
      if negb ok then
        catch_handler options
          (new_Error (JStr ("HTTP error! status: " +:+ to_string (JNum status))))
      else read_loop options decoder_new EmptyString reads
  end.

(** *** Observations on a stream *)

(** The callbacks that the lines completed in a text cause, in the order of
    the lines: the events of a stream seen as one text. *)
Definition stream_events `{Engine} (options : ChatOptions) (text : string) : list Callback :=
  flat_map (dispatch_line options) (removelast (split_newline text)).

(** The text a sequence of bytes decodes to. *)
Definition decoded `{TextDecoder} (l : list Byte.byte) : string :=
  snd (decode decoder_new l).

Definition is_terminal (c : Callback) : bool :=
  match c with
  | OnStatus _ _ _ => false
  | OnComplete _ | OnError _ => true
  end.

(** A sequence of callbacks that is some [onStatus] invocations followed by
    one invocation of [onComplete] or [onError]. *)
Definition status_then_terminal (tr : list Callback) : Prop :=
  exists statuses t,
    tr = statuses ++ [t] /\ Forall (fun c => is_terminal c = false) statuses
    /\ is_terminal t = true.

(** The discipline of the terminal callback: [onComplete] and [onError] are
    invoked once between them, that invocation is the last one, and every
    [onStatus] invocation comes before it. *)
Definition terminal_discipline (tr : list Callback) : Prop :=
  length (filter (fun c => is_terminal c = true) tr) = 1%nat
  /\ (exists t, last tr = Some t /\ is_terminal t = true)
  /\ (forall i j s t, tr !! i = Some s -> tr !! j = Some t ->
        is_terminal s = false -> is_terminal t = true -> (i < j)%nat).

End Api.

(** ** app.js *)

Module App.
Import Js Api.

Record Client : Type := { client_id : string; client_name : string }.
Record Contract : Type := { contract_id : string; contract_filename : option string }.
Record Conversation : Type := { conversation_id : string; conversation_title : option string }.

(** A cited source as the server sends it.  The script reads the first four
    properties; the relevance score travels with the source unread. *)
Record Source : Type := {
  document_id : JValue;
  document_name : JValue;
  section_title : JValue;
  page_number : JValue;
  relevance_score : Q;
}.

Record Metadata : Type := {
  sources : option (list Source);
  executionId : JValue;
}.

(** A message of [AppState.currentMessages]; [id] is absent on the messages
    the script adds itself. *)
Record Message : Type := {
  id : option string;
  role : string;
  content : string;
  metadata : option Metadata;
}.

Record AppState : Type := {
  clients : list Client;
  selectedClient : option Client;
  contracts : list Contract;
  selectedContract : option Contract;
  conversations : list Conversation;
  selectedConversation : option Conversation;
  currentMessages : list Message;
  isLoading : bool;
  isSending : bool;
}.

Record Toast : Type := { toast_type : string; toast_title : string; toast_message : string }.

(** One [div.message] of the chat area: the message, the sources listed
    under it (if it has a sources block) and the text of the [onclick]
    attribute of its delete button (if it has the button). *)
Record Rendered : Type := {
  r_message : Message;
  r_sources : option (list Source);
  r_delete : option string;
}.

(** The part of the page the chat handlers read and write. *)
Record Dom : Type := {
  chatInput_value : string;
  chatWelcome_display : string;
  chatMessages_display : string;
  chatMessages_html : list Rendered;
  typing_indicator : option string;
  btnSend_disabled : bool;
  toasts : list Toast;
}.

(** A call of the API client made by a handler. *)
Inductive NetCall : Type :=
| ChatStream (request : Request)
| DeleteMessage (conversationId messageId clientId : string)
| ListConversations (clientId : string).

Record World : Type := {
  app : AppState;
  dom : Dom;
  net : list NetCall;
}.

Definition set_app (f : AppState -> AppState) (w : World) : World :=
  {| app := f (app w); dom := dom w; net := net w |}.
Definition set_dom (f : Dom -> Dom) (w : World) : World :=
  {| app := app w; dom := f (dom w); net := net w |}.
Definition call (c : NetCall) (w : World) : World :=
  {| app := app w; dom := dom w; net := net w ++ [c] |}.

Definition set_isSending (b : bool) (a : AppState) : AppState :=
  {| clients := clients a; selectedClient := selectedClient a;
     contracts := contracts a; selectedContract := selectedContract a;
     conversations := conversations a; selectedConversation := selectedConversation a;
     currentMessages := currentMessages a; isLoading := isLoading a;
     isSending := b |}.
Definition set_currentMessages (ms : list Message) (a : AppState) : AppState :=
  {| clients := clients a; selectedClient := selectedClient a;
     contracts := contracts a; selectedContract := selectedContract a;
     conversations := conversations a; selectedConversation := selectedConversation a;
     currentMessages := ms; isLoading := isLoading a;
     isSending := isSending a |}.
Definition set_selectedConversation (c : option Conversation) (a : AppState) : AppState :=
  {| clients := clients a; selectedClient := selectedClient a;
     contracts := contracts a; selectedContract := selectedContract a;
     conversations := conversations a; selectedConversation := c;
     currentMessages := currentMessages a; isLoading := isLoading a;
     isSending := isSending a |}.
Definition set_conversations (cs : list Conversation) (a : AppState) : AppState :=
  {| clients := clients a; selectedClient := selectedClient a;
     contracts := contracts a; selectedContract := selectedContract a;
     conversations := cs; selectedConversation := selectedConversation a;
     currentMessages := currentMessages a; isLoading := isLoading a;
     isSending := isSending a |}.

Definition set_chatInput_value (v : string) (d : Dom) : Dom :=
  {| chatInput_value := v; chatWelcome_display := chatWelcome_display d;
     chatMessages_display := chatMessages_display d;
     chatMessages_html := chatMessages_html d;
     typing_indicator := typing_indicator d;
     btnSend_disabled := btnSend_disabled d; toasts := toasts d |}.
Definition set_displays (welcome messages : string) (d : Dom) : Dom :=
  {| chatInput_value := chatInput_value d; chatWelcome_display := welcome;
     chatMessages_display := messages;
     chatMessages_html := chatMessages_html d;
     typing_indicator := typing_indicator d;
     btnSend_disabled := btnSend_disabled d; toasts := toasts d |}.
Definition set_chat (html : list Rendered) (typing : option string) (d : Dom) : Dom :=
  {| chatInput_value := chatInput_value d; chatWelcome_display := chatWelcome_display d;
     chatMessages_display := chatMessages_display d;
     chatMessages_html := html;
     typing_indicator := typing;
     btnSend_disabled := btnSend_disabled d; toasts := toasts d |}.
Definition set_btnSend_disabled (b : bool) (d : Dom) : Dom :=
  {| chatInput_value := chatInput_value d; chatWelcome_display := chatWelcome_display d;
     chatMessages_display := chatMessages_display d;
     chatMessages_html := chatMessages_html d;
     typing_indicator := typing_indicator d;
     btnSend_disabled := b; toasts := toasts d |}.
Definition add_toast (t : Toast) (d : Dom) : Dom :=
  {| chatInput_value := chatInput_value d; chatWelcome_display := chatWelcome_display d;
     chatMessages_display := chatMessages_display d;
     chatMessages_html := chatMessages_html d;
     typing_indicator := typing_indicator d;
     btnSend_disabled := btnSend_disabled d; toasts := toasts d ++ [t] |}.

Definition showToast (type title message : string) (w : World) : World :=
  set_dom (add_toast {| toast_type := type; toast_title := title; toast_message := message |}) w.

(** *** Sources of a message *)

(** The deduplication key of [renderMessages]:
    [`${s.document_name || s.document_id}|${s.section_title || ''}|${s.page_number || ''}`] *)
Definition sourceKey (s : Source) : string :=
  to_string (or_else (document_name s) (document_id s)) +:+ "|" +:+
  to_string (or_else (section_title s) (JStr EmptyString)) +:+ "|" +:+
  to_string (or_else (page_number s) (JStr EmptyString)).

(** The (document, section, page) of a source: the three values the key is
    made of. *)
Definition source_tuple (s : Source) : JValue * JValue * JValue :=
  (or_else (document_name s) (document_id s),
   or_else (section_title s) (JStr EmptyString),
   or_else (page_number s) (JStr EmptyString)).

(** The [for (const s of msg.metadata.sources)] loop with its [seen] set and
    its [uniqueSources] array. *)
Fixpoint unique_loop (seen : gset string) (uniqueSources : list Source)
    (l : list Source) : list Source :=
  match l with
  | [] => uniqueSources
  | s :: r =>
      let key := sourceKey s in
      if decide (key ∈ seen) then unique_loop seen uniqueSources r
      else unique_loop ({[key]} ∪ seen) (uniqueSources ++ [s]) r
  end.

Definition uniqueSources (l : list Source) : list Source := unique_loop ∅ [] l.

(** [uniqueSources.slice(0, 5)] *)
Definition displaySources (l : list Source) : list Source := take 5 (uniqueSources l).

(** The deduplication in words: of the sources of one key the first of the
    list stays, and the sources that stay keep the order of the list. *)
Fixpoint first_occurrences (l : list Source) : list Source :=
  match l with
  | [] => []
  | s :: r => s :: filter (fun x => sourceKey x <> sourceKey s) (first_occurrences r)
  end.

Definition isUser (msg : Message) : bool := String.eqb (role msg) "user".

(** The sources block of a message: present for a message that is not the
    user's and has a non-empty source list. *)
Definition message_sources (msg : Message) : option (list Source) :=
  if isUser msg then None
  else match metadata msg with
       | Some md => match sources md with
                    | Some (s :: l) => Some (displaySources (s :: l))
                    | _ => None
                    end
       | None => None
       end.

(** The text of the [onclick] attribute of a delete button,
    [deleteMessage('${messageId}', ${index})]: the id is pasted as it is. *)
Definition delete_onclick (messageId : string) (index : nat) : string :=
  "deleteMessage('" +:+ messageId +:+ "', " +:+ pretty index +:+ ")".

Definition render (index : nat) (msg : Message) : Rendered :=
  {| r_message := msg;
     r_sources := message_sources msg;
     r_delete := match id msg with
                 | Some messageId =>
                     if String.eqb messageId EmptyString then None
                     else Some (delete_onclick messageId index)
                 | None => None
                 end |}.

(** A character that stands for itself both in a double-quoted attribute of
    HTML and in a single-quoted string of JavaScript.  Quotes, the backslash,
    the ampersand and line ends do not; the letters, the digits, [-] and [_]
    taken here do. *)
Definition plain_char (c : ascii) : bool :=
  let n := Ascii.nat_of_ascii c in
  (Nat.leb 48 n && Nat.leb n 57) || (Nat.leb 65 n && Nat.leb n 90)
  || (Nat.leb 97 n && Nat.leb n 122) || Nat.eqb n 45 || Nat.eqb n 95.

Fixpoint plain (s : string) : bool :=
  match s with
  | EmptyString => true
  | String c r => plain_char c && plain r
  end.

(** [s] without the prefix [p], if it starts with it. *)
Fixpoint strip_prefix (p s : string) : option string :=
  match p, s with
  | EmptyString, _ => Some s
  | String a p', String b s' => if Ascii.eqb a b then strip_prefix p' s' else None
  | String _ _, EmptyString => None
  end.

(** The longest prefix of characters that satisfy [f], and what follows. *)
Fixpoint span (f : ascii -> bool) (s : string) : string * string :=
  match s with
  | EmptyString => (EmptyString, EmptyString)
  | String c r =>
      if f c then let '(a, b) := span f r in (String c a, b) else (EmptyString, s)
  end.

(** The number that the leading digits of a text write. *)
Fixpoint leading_number (acc : N) (s : string) : N :=
  match s with
  | EmptyString => acc
  | String c r =>
      match Json.digit_of c with
      | Some d => leading_number (10 * acc + Z.to_N d)%N r
      | None => acc
      end
  end.

(** What a press of a button with the [onclick] text [text] calls: for the
    text [deleteMessage('<id>', <n>)] with an id of plain characters and a
    decimal numeral, the arguments of the call of [deleteMessage].  [None]
    stands for every other text; what a press then does (a [SyntaxError],
    or other code) is not described. *)
Definition onclick_call (text : string) : option (string * nat) :=
  match strip_prefix "deleteMessage('" text with
  | Some rest =>
      let '(messageId, rest) := span plain_char rest in
      match strip_prefix "', " rest with
      | Some rest =>
          let index := N.to_nat (leading_number 0 rest) in
          if String.eqb rest (pretty index +:+ ")") then Some (messageId, index) else None
      | None => None
      end
  | None => None
  end.

(** [renderMessages]: the chat area is rebuilt from [currentMessages]; a
    typing indicator, being a child of the chat area, goes with the old
    content. *)
Definition renderMessages (w : World) : World :=
  set_dom (set_chat (imap render (currentMessages (app w))) None) w.

(** *** Deleting a message *)

(** [array.splice(start, deleteCount)]: the array afterwards and the items
    removed. *)
Definition splice {A : Type} (start deleteCount : nat) (l : list A) : list A * list A :=
  (take start l ++ drop (start + deleteCount) l, take deleteCount (drop start l)).

(** [deleteMessage(messageId, index)] up to its [await]; [confirmed] is the
    answer to [confirm(...)].  The second component tells whether the
    function is waiting for the API call. *)
Definition deleteMessage (messageId : string) (index : nat) (confirmed : bool)
    (w : World) : World * bool :=
  match selectedConversation (app w), selectedClient (app w) with
  | Some conversation, Some client =>
      if negb confirmed then (w, false)
      else (call (DeleteMessage (conversation_id conversation) messageId (client_id client)) w,
            true)
  | _, _ => (showToast "error" "Erro" "Nenhuma conversa selecionada" w, false)
  end.

(** [deleteMessage] after its [await], on the state as it is by then. *)
Definition deleteMessage_resume (index : nat) (result : Settled JValue) (w : World) : World :=
  match result with
  | Resolved _ =>
      let w := set_app (fun a => set_currentMessages
                                   (fst (splice index 1 (currentMessages a))) a) w in
      let w := renderMessages w in
      showToast "success" "Mensagem excluída" "A mensagem foi removida com sucesso" w
  | Rejected error => showToast "error" "Erro ao excluir" (exn_message error) w
  end.

(** *** Sending a message *)

Definition showChatMessages (w : World) : World :=
  set_dom (set_displays "none" "flex") w.

Definition updateSendButton `{Engine} (w : World) : World :=
  set_dom (set_btnSend_disabled
             (String.eqb (String_trim (chatInput_value (dom w))) EmptyString
              || isSending (app w))) w.

Definition addMessage (role content : string) (metadata : Metadata) (w : World) : World :=
  renderMessages
    (set_app (fun a => set_currentMessages
                         (currentMessages a ++
                          [{| id := None; role := role; content := content;
                              metadata := Some metadata |}]) a) w).

Definition addTypingIndicator (initialStatus : string) (w : World) : World :=
  set_dom (fun d => set_chat (chatMessages_html d) (Some initialStatus) d) w.

(** Assigning [v] to [textContent]: [null] and [undefined] clear the text. *)
Definition text_content (v : JValue) : string :=
  match v with
  | JUndefined | JNull => EmptyString
  | _ => to_string v
  end.

Definition updateTypingStatus (statusMessage : JValue) (w : World) : World :=
  match typing_indicator (dom w) with
  | Some _ =>
      set_dom (fun d => set_chat (chatMessages_html d) (Some (text_content statusMessage)) d) w
  | None => w
  end.

Definition removeTypingIndicator (w : World) : World :=
  set_dom (fun d => set_chat (chatMessages_html d) None d) w.

Definition is_Some_b {A : Type} (o : option A) : bool :=
  match o with
  | Some _ => true
  | None => false
  end.

Definition optional_id {A : Type} (get_id : A -> string) (o : option A) : JValue :=
  match o with
  | Some x => JStr (get_id x)
  | None => JUndefined
  end.

(** The guard of [sendMessage]: the conditions under which it returns at
    once. *)
Definition blocked `{Engine} (w : World) : bool :=
  String.eqb (String_trim (chatInput_value (dom w))) EmptyString
  || negb (is_Some_b (selectedClient (app w)))
  || isSending (app w).

(** [sendMessage()].  The client's id is read when the request is made; past
    the guard a client is selected. *)
Definition sendMessage `{Engine} (w : World) : World :=
  let message := String_trim (chatInput_value (dom w)) in
  if blocked w then w
  else
    let w := set_app (set_isSending true) w in
    let w := set_dom (set_chatInput_value EmptyString) w in
    let w := updateSendButton w in
    let w := if negb (String.eqb (chatWelcome_display (dom w)) "none")
             then showChatMessages w else w in
    let w := addMessage "user" message {| sources := None; executionId := JUndefined |} w in
    let w := addTypingIndicator "Processando..." w in
    match selectedClient (app w) with
    | Some client =>
        call (ChatStream
                (ChatAPI_sendMessageStream_fetch message (client_id client)
                   {| contractId := optional_id contract_id (selectedContract (app w));
                      conversationId := optional_id conversation_id (selectedConversation (app w));
                      includeSources := JBool true;
                      includeDebug := JUndefined;
                      onStatus := true; onComplete := true; onError := true |})) w
    | None => w
    end.

(** The [complete] payload as [onComplete] reads it. *)
Record Completion : Type := {
  response : string;
  response_sources : option (list Source);
  response_conversation_id : option string;
  response_execution_id : JValue;
}.

(** [onStatus(step, statusMessage, agent)] *)
Definition onStatus_handler (statusMessage : JValue) (w : World) : World :=
  updateTypingStatus statusMessage w.

(** [onComplete(response)] up to its [await], or to its end when it does not
    wait; the second component tells whether it waits for
    [loadConversations].  Reading [AppState.selectedClient.id] with no client
    selected throws, and the function ends there. *)
Definition onComplete_handler `{Engine} (r : Completion) (w : World) : World * bool :=
  let w := removeTypingIndicator w in
  let w := addMessage "assistant" (response r)
             {| sources := response_sources r; executionId := response_execution_id r |} w in
  let new_id :=
    match selectedConversation (app w), response_conversation_id r with
    | None, Some cid => if String.eqb cid EmptyString then None else Some cid
    | _, _ => None
    end in
  match new_id with
  | Some cid =>
      let w := set_app (set_selectedConversation
                          (Some {| conversation_id := cid; conversation_title := None |})) w in
      match selectedClient (app w) with
      | Some client => (call (ListConversations (client_id client)) w, true)
      | None => (w, false)
      end
  | None => (updateSendButton (set_app (set_isSending false) w), false)
  end.

(** [onComplete] after [await loadConversations(...)]: the list loaded (the
    empty list when loading failed) is stored, then the send is over. *)
Definition onComplete_resume `{Engine} (loaded : list Conversation) (w : World) : World :=
  let w := set_app (set_conversations loaded) w in
  updateSendButton (set_app (set_isSending false) w).

(** [onError(error)]; reading [error.message] of [null] throws, and the
    handler ends there. *)
Definition onError_handler `{Engine} (error : JValue) (w : World) : World :=
  let w := removeTypingIndicator w in
  match get error "message" with
  | Some m =>
      let w := showToast "error" "Erro ao enviar mensagem"
                 (to_string (or_else m (JStr "Erro desconhecido"))) w in
      updateSendButton (set_app (set_isSending false) w)
  | None => w
  end.

(** *** The chat as a transition system *)

Definition is_chat (c : NetCall) : bool :=
  match c with
  | ChatStream _ => true
  | _ => false
  end.

(** The chat requests issued so far. *)
Definition chat_calls (w : World) : nat := length (filter (fun c => is_chat c = true) (net w)).

(** The page with its bookkeeping: [terminals] holds, for each chat request
    issued, in the order of issue, the number of terminal callbacks
    ([onComplete] or [onError]) it has had so far; [completing] invocations
    of [onComplete] wait for [loadConversations]. *)
Record State : Type := {
  world : World;
  terminals : list nat;
  completing : nat;
}.

(** The chat requests in flight: those issued that have had no terminal
    callback. *)
Definition in_flight (s : State) : nat :=
  length (filter (fun n => n = 0%nat) (terminals s)).

Definition initial : State :=
  {| world :=
       {| app := {| clients := []; selectedClient := None; contracts := [];
                    selectedContract := None; conversations := [];
                    selectedConversation := None; currentMessages := [];
                    isLoading := false; isSending := false |};
          dom := {| chatInput_value := EmptyString; chatWelcome_display := EmptyString;
                    chatMessages_display := EmptyString; chatMessages_html := [];
                    typing_indicator := None; btnSend_disabled := true; toasts := [] |};
          net := [] |};
     terminals := []; completing := 0 |}.

(** What happens to the page: the form is submitted; the user types; the
    stream of a request issued invokes one of the callbacks that
    [sendMessage] gave it; a suspended [onComplete] goes on; or another
    handler of the script runs, none of which writes [isSending] or calls the
    chat stream. *)
Inductive Action : Type :=
| Submit
| Input (text : string)
| Status (request : nat) (statusMessage : JValue)
| Complete (request : nat) (r : Completion)
| Failure (request : nat) (error : JValue)
| Resume (loaded : list Conversation)
| Other (w' : World).

Definition exec `{Engine} (a : Action) (s : State) : State :=
  match a with
  | Submit =>
      let w' := sendMessage (world s) in
      {| world := w';
         terminals := terminals s ++ replicate (chat_calls w' - chat_calls (world s)) 0%nat;
         completing := completing s |}
  | Input text =>
      {| world := updateSendButton (set_dom (set_chatInput_value text) (world s));
         terminals := terminals s; completing := completing s |}
  | Status i statusMessage =>
      match terminals s !! i with
      | Some _ =>
          {| world := onStatus_handler statusMessage (world s);
             terminals := terminals s; completing := completing s |}
      | None => s
      end
  | Complete i r =>
      match terminals s !! i with
      | Some n =>
          {| world := fst (onComplete_handler r (world s));
             terminals := <[i := S n]> (terminals s);
             completing :=
               completing s + (if snd (onComplete_handler r (world s)) then 1 else 0) |}
      | None => s
      end
  | Failure i error =>
      match terminals s !! i with
      | Some n =>
          {| world := onError_handler error (world s);
             terminals := <[i := S n]> (terminals s);
             completing := completing s |}
      | None => s
      end
  | Resume loaded =>
      match completing s with
      | S c =>
          {| world := onComplete_resume loaded (world s);
             terminals := terminals s; completing := c |}
      | O => s
      end
  | Other w' =>
      if Bool.eqb (isSending (app w')) (isSending (app (world s)))
         && Nat.eqb (chat_calls w') (chat_calls (world s))
      then {| world := w'; terminals := terminals s; completing := completing s |}
      else s
  end.

Definition run `{Engine} (l : list Action) (s : State) : State :=
  fold_left (fun s a => exec a s) l s.

(** A terminal callback that is the first one of its request. *)
Definition first_terminal (s : State) (a : Action) : Prop :=
  match a with
  | Complete i _ | Failure i _ => forall n, terminals s !! i = Some n -> n = 0%nat
  | _ => True
  end.

(** A run in which no request has a second terminal callback.  A stream can
    have two: a [complete] event and then a read that fails. *)
Fixpoint one_terminal_each `{Engine} (s : State) (l : list Action) : Prop :=
  match l with
  | [] => True
  | a :: l' => first_terminal s a /\ one_terminal_each (exec a s) l'
  end.

(** What holds of the page along such a run: at most one request or
    suspended [onComplete] is under way, [isSending] is set while one is, and
    every chat request issued is accounted for. *)
Definition invariant (s : State) : Prop :=
  (in_flight s + completing s <= 1)%nat
  /\ ((0 < in_flight s + completing s)%nat -> isSending (app (world s)) = true)
  /\ length (terminals s) = chat_calls (world s).

End App.

(** ** A reference engine and decoder *)

Module Reference.
Import Js.

Fixpoint trim_start (l : list ascii) : list ascii :=
  match l with
  | c :: r => if Ascii.is_space c then trim_start r else l
  | [] => []
  end.

(** [trim] for the single-byte white space. *)
Definition trim (s : string) : string :=
  String.string_of_list_ascii
    (rev (trim_start (rev (trim_start (String.list_ascii_of_string s))))).

Definition engine : Engine :=
  {| JSON_parse := Json.json_parse;
     String_trim := trim;
     syntax_error_message :=
       fun text => if String.eqb text EmptyString then "Unexpected end of JSON input"
                   else "Unexpected token in JSON";
     type_error_message := fun k => "Cannot read properties of null (reading '" +:+ k +:+ "')" |}.

Fixpoint text_of_bytes (l : list Byte.byte) : string :=
  match l with
  | [] => EmptyString
  | b :: r => String (Ascii.ascii_of_byte b) (text_of_bytes r)
  end.

(** The decoder on 7-bit text, where UTF-8 is one byte per character and no
    sequence is ever unfinished. *)
Definition text_decoder : TextDecoder.
Proof.
  refine {| decoder := unit; decoder_new := tt;
            decode := fun d l => (d, text_of_bytes l) |}.
  - reflexivity.
  - intros d a b. simpl. f_equal.
    induction a as [|x a IH]; [reflexivity|].
    simpl. by rewrite IH.
Defined.

(** The bytes of an event as the server frames it: [data: <json>] and an
    empty line. *)
Definition sse (v : JValue) : string :=
  "data: " +:+ Json.JSON_stringify v +:+ String Json.newline (String Json.newline EmptyString).

Definition bytes (s : string) : list Byte.byte := String.list_byte_of_string s.

Definition all_callbacks : Api.ChatOptions :=
  {| Api.contractId := JUndefined; Api.conversationId := JUndefined;
     Api.includeSources := JBool true; Api.includeDebug := JUndefined;
     Api.onStatus := true; Api.onComplete := true; Api.onError := true |}.

Definition status_event (text : string) : JValue :=
  JObj [("event", JStr "status");
        ("data", JObj [("step", JStr "retrieval"); ("message", JStr text);
                       ("agent", JStr "retrieval")])].

Definition complete_event (text : string) : JValue :=
  JObj [("event", JStr "complete");
        ("data", JObj [("response", JStr text); ("sources", JArr []);
                       ("conversation_id", JStr "c1"); ("execution_id", JStr "e1")])].

(** A stream of a status event and a complete event, cut inside the second
    event line. *)
Definition two_chunks : list (list Byte.byte) :=
  [bytes (sse (status_event "Buscando") +:+ "data: ");
   bytes (Json.JSON_stringify (complete_event "Pronto") +:+ String Json.newline EmptyString)].

Definition abort_error : Exn := MkExn "AbortError" "The user aborted a request.".

Definition src (name : string) (page : Z) (score : Q) : App.Source :=
  {| App.document_id := JStr ("doc-" +:+ name); App.document_name := JStr name;
     App.section_title := JNull; App.page_number := JNum page;
     App.relevance_score := score |}.

(** Six sources of six documents, in the order of arrival; the last one has
    the highest relevance score. *)
Definition six_sources : list App.Source :=
  [src "a.pdf" 1 (1 # 10); src "b.pdf" 2 (2 # 10); src "c.pdf" 3 (3 # 10);
   src "d.pdf" 4 (4 # 10); src "e.pdf" 5 (5 # 10); src "f.pdf" 6 (9 # 10)].

(** Seven sources in descending order of relevance, one of them twice. *)
Definition sorted_sources : list App.Source :=
  [src "f.pdf" 6 (9 # 10); src "e.pdf" 5 (5 # 10); src "e.pdf" 5 (5 # 10);
   src "d.pdf" 4 (4 # 10); src "c.pdf" 3 (3 # 10); src "b.pdf" 2 (2 # 10);
   src "a.pdf" 1 (1 # 10)].

Definition answer (l : list App.Source) : App.Message :=
  {| App.id := Some "m1"; App.role := "assistant"; App.content := "resposta";
     App.metadata := Some {| App.sources := Some l; App.executionId := JUndefined |} |}.

(** A page with a client selected and a send under way. *)
Definition busy : App.World :=
  {| App.app :=
       {| App.clients := [];
          App.selectedClient := Some {| App.client_id := "c1"; App.client_name := "Acme" |};
          App.contracts := []; App.selectedContract := None; App.conversations := [];
          App.selectedConversation := None; App.currentMessages := [];
          App.isLoading := false; App.isSending := true |};
     App.dom :=
       {| App.chatInput_value := "Qual o reajuste?"; App.chatWelcome_display := "none";
          App.chatMessages_display := "flex"; App.chatMessages_html := [];
          App.typing_indicator := Some "Processando..."; App.btnSend_disabled := true;
          App.toasts := [] |};
     App.net := [] |}.

(** A page with a client selected and a question typed. *)
Definition ready : App.World :=
  {| App.app :=
       {| App.clients := [];
          App.selectedClient := Some {| App.client_id := "c1"; App.client_name := "Acme" |};
          App.contracts := []; App.selectedContract := None; App.conversations := [];
          App.selectedConversation :=
            Some {| App.conversation_id := "conv1"; App.conversation_title := None |};
          App.currentMessages := [];
          App.isLoading := false; App.isSending := false |};
     App.dom :=
       {| App.chatInput_value := "Qual o reajuste?"; App.chatWelcome_display := EmptyString;
          App.chatMessages_display := EmptyString; App.chatMessages_html := [];
          App.typing_indicator := None; App.btnSend_disabled := false;
          App.toasts := [] |};
     App.net := [] |}.

Definition completion : App.Completion :=
  {| App.response := "O reajuste anual e de 8%.";
     App.response_sources := None;
     App.response_conversation_id := Some "conv1";
     App.response_execution_id := JStr "e1" |}.

Definition stream_error : JValue :=
  JObj [("error", JStr "stream_error"); ("message", JStr "network error")].

(** A question is answered; a second question is sent; the stream of the
    first request then fails; a third question is sent. *)
Definition late_failure : list App.Action :=
  [App.Other ready; App.Submit; App.Complete 0 completion;
   App.Input "E a coparticipacao?"; App.Submit;
   App.Failure 0 stream_error;
   App.Input "E a carencia?"; App.Submit].

(** The same questions, each answered before the next is sent. *)
Definition one_at_a_time : list App.Action :=
  [App.Other ready; App.Submit; App.Submit; App.Status 0 (JStr "Buscando");
   App.Complete 0 completion;
   App.Input "E a coparticipacao?"; App.Submit; App.Failure 1 stream_error].

(** The same page with no send under way. *)
Definition idle : App.World := App.set_app (App.set_isSending false) busy.

(** An error response with a [detail], one whose [detail] is a list, and a
    response without content. *)
Definition error_422 : Api.Response :=
  {| Api.ok := false; Api.status := 422;
     Api.body_text := Json.JSON_stringify (JObj [("detail", JStr "client_id obrigatorio")]) |}.

Definition validation_422 : Api.Response :=
  {| Api.ok := false; Api.status := 422;
     Api.body_text :=
       Json.JSON_stringify (JObj [("detail", JArr [JObj [("msg", JStr "field required")]])]) |}.

Definition no_content : Api.Response :=
  {| Api.ok := true; Api.status := 204; Api.body_text := EmptyString |}.

End Reference.

(** ** api.js: the other endpoints *)

Module Web.
Import Js Api.

(** *** Query strings *)

(** The bytes that the [application/x-www-form-urlencoded] serializer leaves
    as they are: [*], [-], [.], [_], digits and letters. *)
Definition urlencode_safe (n : nat) : bool :=
  Nat.eqb n 42 || Nat.eqb n 45 || Nat.eqb n 46 || Nat.eqb n 95
  || (Nat.leb 48 n && Nat.leb n 57)
  || (Nat.leb 65 n && Nat.leb n 90)
  || (Nat.leb 97 n && Nat.leb n 122).

Definition upper_hex (n : nat) : ascii :=
  Ascii.ascii_of_nat (if Nat.ltb n 10 then 48 + n else 55 + n).

Definition percent : ascii := Ascii.ascii_of_nat 37.
Definition plus : ascii := Ascii.ascii_of_nat 43.
Definition space : ascii := Ascii.ascii_of_nat 32.
Definition ampersand : ascii := Ascii.ascii_of_nat 38.
Definition equals : ascii := Ascii.ascii_of_nat 61.

(** One byte of a name or value: a space is written [+], another byte that
    is not safe is written [%XX]. *)
Definition urlencode_byte (c : ascii) : string :=
  let n := Ascii.nat_of_ascii c in
  if Nat.eqb n 32 then String plus EmptyString
  else if urlencode_safe n then String c EmptyString
  else String percent
         (String (upper_hex (n / 16)) (String (upper_hex (n mod 16)) EmptyString)).

Fixpoint urlencode (s : string) : string :=
  match s with
  | EmptyString => EmptyString
  | String c r => urlencode_byte c +:+ urlencode r
  end.

(** [params.toString()] of a [URLSearchParams] with the given list of
    name-value pairs: the pairs, each written [name=value], joined by [&]. *)
Definition pair_text (kv : string * string) : string :=
  urlencode (fst kv) +:+ "=" +:+ urlencode (snd kv).

Definition URLSearchParams_toString (entries : list (string * string)) : string :=
  join "&" (map pair_text entries).

(** [new URLSearchParams(object)]: one pair for each own property of the
    object, in the order of its keys, with the value turned into a string. *)
Definition URLSearchParams_of (props : list (string * JValue)) : list (string * string) :=
  map (fun kv => (fst kv, to_string (snd kv))) props.

(** The reading of a query string by its receiver, as the URL standard gives
    it: the string is cut at every [&], empty pieces are skipped, a piece is
    cut at its first [=], [+] is a space and [%XX] is a byte. *)
Fixpoint urldecode (s : string) : string :=
  match s with
  | EmptyString => EmptyString
  | String c r =>
      if Ascii.eqb c plus then String space (urldecode r)
      else if Ascii.eqb c percent then
        match r with
        | String h1 (String h2 r') =>
            match Json.hex_of h1, Json.hex_of h2 with
            | Some a, Some b => String (Ascii.ascii_of_nat (16 * a + b)) (urldecode r')
            | _, _ => String c (urldecode r)
            end
        | _ => String c (urldecode r)
        end
      else String c (urldecode r)
  end.

(** Whether a character occurs in a string. *)
Fixpoint contains (c : ascii) (s : string) : bool :=
  match s with
  | EmptyString => false
  | String c' r => Ascii.eqb c' c || contains c r
  end.

(** The first value bound to a key. *)
Fixpoint lookup_key {V : Type} (k : string) (o : list (string * V)) : option V :=
  match o with
  | [] => None
  | (k', v) :: r => if String.eqb k k' then Some v else lookup_key k r
  end.

(** [s.split(sep)] for a separator of one character. *)
Fixpoint split_char (sep : ascii) (s : string) : list string :=
  match s with
  | EmptyString => [EmptyString]
  | String c r =>
      if Ascii.eqb c sep then EmptyString :: split_char sep r
      else match split_char sep r with
           | x :: xs => String c x :: xs
           | [] => [String c EmptyString]
           end
  end.

(** The piece before the first [sep] and the piece after it, if there is
    one. *)
Fixpoint break_at (sep : ascii) (s : string) : string * option string :=
  match s with
  | EmptyString => (EmptyString, None)
  | String c r =>
      if Ascii.eqb c sep then (EmptyString, Some r)
      else let '(a, b) := break_at sep r in (String c a, b)
  end.

Definition parse_pair (piece : string) : string * string :=
  let '(name, value) := break_at equals piece in
  (urldecode name, urldecode (default EmptyString value)).

Definition parse_query (query : string) : list (string * string) :=
  map parse_pair
    (filter (fun piece => piece <> EmptyString) (split_char ampersand query)).

(** The query part of a URL: what follows its first [?]. *)
Definition url_query (url : string) : option string :=
  snd (break_at (Ascii.ascii_of_nat 63) url).

(** *** Objects *)

(** The key of an array index: the decimal numeral, without leading zeros, of
    a number below [2^32 - 1]. *)
Fixpoint digits_value (acc : N) (s : string) : option N :=
  match s with
  | EmptyString => Some acc
  | String c r =>
      match Json.digit_of c with
      | Some d => digits_value (10 * acc + Z.to_N d)%N r
      | None => None
      end
  end.

Definition array_index (k : string) : option N :=
  match k with
  | EmptyString => None
  | _ =>
      match digits_value 0%N k with
      | Some n => if String.eqb (pretty n) k && (n <? 4294967295)%N then Some n else None
      | None => None
      end
  end.

(** Writing property [k] of an object whose own properties are [o], in the
    order of [Object.keys]: an existing property keeps its place; a new array
    index goes among the array indices, which come first in ascending order;
    another new key goes last. *)
Fixpoint put_index {V : Type} (n : N) (k : string) (v : V) (o : list (string * V)) :
    list (string * V) :=
  match o with
  | [] => [(k, v)]
  | (k', v') :: r =>
      match array_index k' with
      | Some m => if (m <? n)%N then (k', v') :: put_index n k v r else (k, v) :: o
      | None => (k, v) :: o
      end
  end.

Fixpoint has_key {V : Type} (k : string) (o : list (string * V)) : bool :=
  match o with
  | [] => false
  | (k', _) :: r => String.eqb k k' || has_key k r
  end.

Fixpoint replace_value {V : Type} (k : string) (v : V) (o : list (string * V)) :
    list (string * V) :=
  match o with
  | [] => []
  | (k', v') :: r => if String.eqb k k' then (k, v) :: r else (k', v') :: replace_value k v r
  end.

Definition put {V : Type} (k : string) (v : V) (o : list (string * V)) : list (string * V) :=
  if has_key k o then replace_value k v o
  else match array_index k with
       | Some n => put_index n k v o
       | None => o ++ [(k, v)]
       end.

(** [{ ...o, ...extra }] *)
Definition spread {V : Type} (o extra : list (string * V)) : list (string * V) :=
  fold_left (fun acc kv => put (fst kv) (snd kv) acc) extra o.

(** *** The endpoints *)

Definition get_request (endpoint : string) : Request :=
  apiRequest_fetch endpoint {| opt_method := None; opt_headers := None; opt_body := NoBody |}.

Definition with_query (path query : string) : string :=
  if String.eqb query EmptyString then path else path +:+ "?" +:+ query.

(** [ClientsAPI.list(params)] *)
Definition ClientsAPI_list (params : list (string * JValue)) : Request :=
  get_request
    (with_query "/clients/" (URLSearchParams_toString (URLSearchParams_of params))).

(** [ClientsAPI.getContracts(clientId, params)] *)
Definition ClientsAPI_getContracts (clientId : string) (params : list (string * JValue)) :
    Request :=
  get_request
    (with_query ("/clients/" +:+ clientId +:+ "/contracts")
       (URLSearchParams_toString (URLSearchParams_of params))).

(** The query of the calls that list what belongs to a client:
    [new URLSearchParams({ client_id: clientId, ...params }).toString()] *)
Definition client_query (clientId : string) (params : list (string * JValue)) : string :=
  URLSearchParams_toString
    (URLSearchParams_of (spread [("client_id", JStr clientId)] params)).

(** [ConversationsAPI.list(clientId, params)], [DocumentsAPI.list(clientId,
    params)] and [CostsAPI.getRecords(clientId, params)] *)
Definition ConversationsAPI_list (clientId : string) (params : list (string * JValue)) :
    Request :=
  get_request ("/conversations/?" +:+ client_query clientId params).

Definition DocumentsAPI_list (clientId : string) (params : list (string * JValue)) :
    Request :=
  get_request ("/documents/?" +:+ client_query clientId params).

Definition CostsAPI_getRecords (clientId : string) (params : list (string * JValue)) :
    Request :=
  get_request ("/costs/records?" +:+ client_query clientId params).

(** [ConversationsAPI.get(conversationId, clientId)] *)
Definition ConversationsAPI_get (conversationId clientId : string) : Request :=
  get_request ("/conversations/" +:+ conversationId +:+ "?client_id=" +:+ clientId).

(** [ConversationsAPI.deleteMessage(conversationId, messageId, clientId)] *)
Definition ConversationsAPI_deleteMessage (conversationId messageId clientId : string) :
    Request :=
  apiRequest_fetch
    ("/conversations/" +:+ conversationId +:+ "/messages/" +:+ messageId
     +:+ "?client_id=" +:+ clientId)
    {| opt_method := Some "DELETE"; opt_headers := None; opt_body := NoBody |}.

(** [ClientsAPI.create(data)] *)
Definition ClientsAPI_create (data : JValue) : Request :=
  apiRequest_fetch "/clients/"
    {| opt_method := Some "POST"; opt_headers := None;
       opt_body := TextBody (Json.JSON_stringify data) |}.

(** [ChatAPI.sendSimpleMessage(message, clientId, contractId)] *)
Definition simple_params (message clientId : string) (contractId : JValue) :
    list (string * string) :=
  URLSearchParams_of [("message", JStr message); ("client_id", JStr clientId)]
  ++ (if truthy contractId then [("contract_id", to_string contractId)] else []).

Definition ChatAPI_sendSimpleMessage (message clientId : string) (contractId : JValue) :
    Request :=
  apiRequest_fetch
    ("/chat/simple?" +:+ URLSearchParams_toString (simple_params message clientId contractId))
    {| opt_method := Some "POST"; opt_headers := None; opt_body := NoBody |}.

(** [CostsAPI.getSummary(clientId, contractId)] *)
Definition CostsAPI_getSummary (clientId : string) (contractId : JValue) : Request :=
  get_request
    ("/costs/summary?" +:+
     URLSearchParams_toString
       (URLSearchParams_of
          (if truthy contractId
           then put "contract_id" contractId [("client_id", JStr clientId)]
           else [("client_id", JStr clientId)]))).

(** [DocumentsAPI.process(documentId, clientId)] and
    [CostsAPI.process(documentId, clientId)] *)
Definition process_request (endpoint documentId clientId : string) : Request :=
  apiRequest_fetch endpoint
    {| opt_method := Some "POST"; opt_headers := None;
       opt_body := TextBody (Json.JSON_stringify
                     (JObj [("document_id", JStr documentId); ("client_id", JStr clientId)])) |}.

Definition DocumentsAPI_process : string -> string -> Request :=
  process_request "/documents/process".
Definition CostsAPI_process : string -> string -> Request :=
  process_request "/costs/process".

(** *** Uploads *)

(** The fields of the [FormData] of an upload; the file is stood for by its
    name. *)
Definition upload_form (file clientId : string) (contractId : JValue) :
    list (string * string) :=
  [("file", file); ("client_id", clientId)]
  ++ (if truthy contractId then [("contract_id", to_string contractId)] else []).

(** [UploadAPI.uploadContract(file, clientId, options)] and
    [UploadAPI.uploadCosts(file, clientId, options)] *)
Definition UploadAPI_uploadContract (file clientId : string) (contractId : JValue) : Request :=
  apiRequest_fetch "/upload/contract"
    {| opt_method := Some "POST"; opt_headers := None;
       opt_body := FormDataBody (upload_form file clientId contractId) |}.

Definition UploadAPI_uploadCosts (file clientId : string) (contractId : JValue) : Request :=
  apiRequest_fetch "/upload/costs"
    {| opt_method := Some "POST"; opt_headers := None;
       opt_body := FormDataBody (upload_form file clientId contractId) |}.

(** [UploadAPI.uploadWithProgress]: the request it opens and sends.  Any
    [type] other than ['contract'] goes to the costs endpoint. *)
Definition uploadWithProgress_open (file clientId type : string) (contractId : JValue) :
    Request :=
  {| req_url := API_BASE +:+ (if String.eqb type "contract" then "/upload/contract"
                              else "/upload/costs");
     req_method := Some "POST";
     req_headers := [];
     req_body := FormDataBody (upload_form file clientId contractId) |}.

(** How the request of [uploadWithProgress] ends: it loads with a status and
    a text, it fails on the network, or it is aborted. *)
Inductive XhrResult : Type :=
| XhrLoad (status : Z) (responseText : string)
| XhrError
| XhrAbort.

(** What the promise of [uploadWithProgress] settles to: the [onload],
    [onerror] and [onabort] handlers. *)
Definition uploadWithProgress `{Engine} (x : XhrResult) : Settled JValue :=
  match x with
  | XhrLoad status responseText =>
      if (200 <=? status) && (status <? 300) then
        match JSON_parse responseText with
        | Some response => Resolved response
        | None => Rejected (new_Error (JStr "Erro ao processar resposta"))
        end
      else
        match JSON_parse responseText with
        | Some error =>
            match get error "detail" with
            | Some detail => Rejected (new_Error (or_else detail (JStr "Erro no upload")))
            | None => Rejected (new_Error (JStr ("HTTP error " +:+ to_string (JNum status))))
            end
        | None => Rejected (new_Error (JStr ("HTTP error " +:+ to_string (JNum status))))
        end
  | XhrError => Rejected (new_Error (JStr "Erro de rede"))
  | XhrAbort => Rejected (new_Error (JStr "Upload cancelado"))
  end.

End Web.

(** ** The lines of a stream *)

Module Lines.
Import Js Api.

(** The text of some lines, each followed by a newline. *)
Fixpoint lines_text (ls : list string) : string :=
  match ls with
  | [] => EmptyString
  | l :: r => l +:+ String Json.newline (lines_text r)
  end.

(** A line holds no newline. *)
Definition is_line (l : string) : Prop := Web.contains Json.newline l = false.

(** A line that the loop of [sendMessageStream] takes for an event: it
    starts with [data: ] and what follows parses as JSON. *)
Definition is_event_line `{Engine} (line : string) : bool :=
  startsWith "data: " line
  && match JSON_parse (slice 6 line) with
     | Some _ => true
     | None => false
     end.

(** The handler that a callback invocation is an invocation of is present in
    the options. *)
Definition handler_present (options : ChatOptions) (c : Callback) : bool :=
  match c with
  | OnStatus _ _ _ => onStatus options
  | OnComplete _ => onComplete options
  | OnError _ => onError options
  end.

End Lines.

(** ** The events of the protocol *)

Module Protocol.
Import Js Api.

(** The events that the server sends: [status{step, message, agent}],
    [complete{...}] and [error{...}], the last two with their data. *)
Inductive ExecutionEvent : Type :=
| StatusEvent (step message agent : JValue)
| CompleteEvent (data : JValue)
| ErrorEvent (data : JValue).

(** The JSON value of an event: an object with the properties [event] and
    [data]. *)
Definition event_json (e : ExecutionEvent) : JValue :=
  match e with
  | StatusEvent step message agent =>
      JObj [("event", JStr "status");
            ("data", JObj [("step", step); ("message", message); ("agent", agent)])]
  | CompleteEvent data => JObj [("event", JStr "complete"); ("data", data)]
  | ErrorEvent data => JObj [("event", JStr "error"); ("data", data)]
  end.

(** The invocation that an event asks for. *)
Definition event_callback (e : ExecutionEvent) : Callback :=
  match e with
  | StatusEvent step message agent => OnStatus step message agent
  | CompleteEvent data => OnComplete data
  | ErrorEvent data => OnError data
  end.

Definition is_status (e : ExecutionEvent) : bool :=
  match e with
  | StatusEvent _ _ _ => true
  | _ => false
  end.

(** A JSON value is an event: an object whose [event] is the kind of the
    event and whose [data] holds what the event carries; it may have other
    properties beside these. *)
Definition represents (v : JValue) (e : ExecutionEvent) : Prop :=
  match e with
  | StatusEvent step message agent =>
      get v "event" = Some (JStr "status")
      /\ exists data, get v "data" = Some data
           /\ get data "step" = Some step /\ get data "message" = Some message
           /\ get data "agent" = Some agent
  | CompleteEvent data =>
      get v "event" = Some (JStr "complete") /\ get v "data" = Some data
  | ErrorEvent data =>
      get v "event" = Some (JStr "error") /\ get v "data" = Some data
  end.

(** A line frames an event: it is [data: ] followed by a text that parses
    to a JSON value of the event. *)
Definition frames `{Engine} (line : string) (e : ExecutionEvent) : Prop :=
  exists text v,
    line = "data: " +:+ text /\ JSON_parse text = Some v /\ represents v e.

(** The lines of a stream carry a sequence of events: every line is empty or
    frames the next event of the sequence. *)
Inductive carries `{Engine} : list string -> list ExecutionEvent -> Prop :=
| carries_nil : carries [] []
| carries_empty ls es : carries ls es -> carries (EmptyString :: ls) es
| carries_event line e ls es :
    frames line e -> carries ls es -> carries (line :: ls) (e :: es).

End Protocol.

(** ** The AbortController of a stream *)

Module Abort.
Import Js Api.

(** What the caller does with the [AbortController] that
    [sendMessageStream] returns at once.  [abort_in c] is the reason the
    signal gets when the handler of the invocation [c] calls [abort]: the
    argument of [abort(reason)], or for [abort()] the [AbortError] that the
    controller makes.  [abort_at] is a call of [abort] from elsewhere, with
    the reason the signal gets, while the fetch (number 0) or the read
    number [n] (number [S n]) is pending.  A reason is an error object, with
    a name and a message. *)
Record Caller : Type := {
  abort_in : Callback -> option Exn;
  abort_at : option (nat * Exn);
}.

(** A caller that never aborts. *)
Definition quiet : Caller := {| abort_in := fun _ => None; abort_at := None |}.

(** The abort that reaches the operation now pending, and the one still to
    come once that operation has settled. *)
Definition due (outside : option (nat * Exn)) : option Exn :=
  match outside with
  | Some (O, e) => Some e
  | _ => None
  end.

Definition later (outside : option (nat * Exn)) : option (nat * Exn) :=
  match outside with
  | Some (S n, e) => Some (n, e)
  | _ => None
  end.

(** The reason of the signal after the handlers of [cs] have run: that of
    the first call of [abort]. *)
Definition first_abort (abort_in : Callback -> option Exn) (cs : list Callback) :
    option Exn :=
  head (omap abort_in cs).

(** The loop of the reader under a signal.  Once the signal is aborted the
    body of the response is errored with the reason of the signal, and the
    read that is pending or comes next rejects with it; the lines of a chunk
    already read are dispatched to the end, since the loop does not look at
    the signal. *)
Fixpoint read_loop_signal `{Engine} `{TextDecoder} (options : ChatOptions)
    (abort_in : Callback -> option Exn) (signal : option Exn) (outside : option (nat * Exn))
    (d : decoder) (buffer : string) (reads : list ReadResult) : list Callback :=
  match (match signal with
         | Some e => Some e
         | None => due outside
         end) with
  | Some e => catch_handler options e
  | None =>
      match reads with
      | [] => []
      | ReadDone :: _ => []
      | ReadFailed e :: _ => catch_handler options e
      | ReadValue value :: rest =>
          let buffer := buffer +:+ snd (decode d value) in
          let lines := split_newline buffer in
          let cs := flat_map (dispatch_line options) (removelast lines) in
          cs ++ read_loop_signal options abort_in (first_abort abort_in cs) (later outside)
                  (fst (decode d value)) (pop_or_empty lines) rest
      end
  end.

(** [ChatAPI.sendMessageStream] with its controller: the callbacks it
    invokes when the caller uses the controller as [caller] says.  An abort
    while the fetch is pending rejects the fetch with the reason of the
    signal. *)
Definition sendMessageStream_signal `{Engine} `{TextDecoder} (options : ChatOptions)
    (caller : Caller) (f : StreamFetch) : list Callback :=
  match due (abort_at caller) with
  | Some e => catch_handler options e
  | None =>
      match f with
      | StreamFailed e => catch_handler options e
      | StreamResponse ok status reads =>
          if negb ok then
            catch_handler options
              (new_Error (JStr ("HTTP error! status: " +:+ to_string (JNum status))))
          else read_loop_signal options (abort_in caller) None (later (abort_at caller))
                 decoder_new EmptyString reads
      end
  end.

(** The decoder and the buffer of the loop after some chunks. *)
Fixpoint reader_after `{TextDecoder} (d : decoder) (buffer : string)
    (chunks : list (list Byte.byte)) : decoder * string :=
  match chunks with
  | [] => (d, buffer)
  | c :: r =>
      reader_after (fst (decode d c))
        (pop_or_empty (split_newline (buffer +:+ snd (decode d c)))) r
  end.

End Abort.

(** ** app.js: the other handlers *)

Module Handlers.
Import Js Api App.

Definition set_clients (cs : list Client) (a : AppState) : AppState :=
  {| clients := cs; selectedClient := selectedClient a;
     contracts := contracts a; selectedContract := selectedContract a;
     conversations := conversations a; selectedConversation := selectedConversation a;
     currentMessages := currentMessages a; isLoading := isLoading a;
     isSending := isSending a |}.
Definition set_selectedClient (c : option Client) (a : AppState) : AppState :=
  {| clients := clients a; selectedClient := c;
     contracts := contracts a; selectedContract := selectedContract a;
     conversations := conversations a; selectedConversation := selectedConversation a;
     currentMessages := currentMessages a; isLoading := isLoading a;
     isSending := isSending a |}.
Definition set_contracts (cs : list Contract) (a : AppState) : AppState :=
  {| clients := clients a; selectedClient := selectedClient a;
     contracts := cs; selectedContract := selectedContract a;
     conversations := conversations a; selectedConversation := selectedConversation a;
     currentMessages := currentMessages a; isLoading := isLoading a;
     isSending := isSending a |}.
Definition set_selectedContract (c : option Contract) (a : AppState) : AppState :=
  {| clients := clients a; selectedClient := selectedClient a;
     contracts := contracts a; selectedContract := c;
     conversations := conversations a; selectedConversation := selectedConversation a;
     currentMessages := currentMessages a; isLoading := isLoading a;
     isSending := isSending a |}.

(** The page with the requests of the handlers below that are no chat
    requests.  The side bar, the context line and the modals, which these
    handlers also redraw from the application state, are left out. *)
Record Page : Type := {
  page_world : World;
  page_fetches : list Request;
}.

Definition on_world (f : World -> World) (p : Page) : Page :=
  {| page_world := f (page_world p); page_fetches := page_fetches p |}.
Definition fetch (r : Request) (p : Page) : Page :=
  {| page_world := page_world p; page_fetches := page_fetches p ++ [r] |}.

Definition showChatWelcome (w : World) : World :=
  set_dom (set_displays "flex" "none") w.

(** [enableChatInput()]: the input is enabled and the send button set. *)
Definition enableChatInput `{Engine} (w : World) : World := updateSendButton w.

(** [loadClients()] up to its [await], and after it; [None] is a response
    without the property. *)
Definition loadClients (p : Page) : Page := fetch (Web.ClientsAPI_list []) p.

Definition loadClients_resume (r : Settled (option (list Client))) (p : Page) : Page :=
  match r with
  | Resolved response =>
      on_world (set_app (set_clients (default [] response))) p
  | Rejected error =>
      on_world (showToast "error" "Erro ao carregar clientes" (exn_message error)) p
  end.

(** [loadContracts(clientId)] and [loadConversations(clientId)] after their
    [await]: a failure leaves the list empty. *)
Definition loadContracts_resume (r : Settled (option (list Contract))) (p : Page) : Page :=
  match r with
  | Resolved response => on_world (set_app (set_contracts (default [] response))) p
  | Rejected _ => on_world (set_app (set_contracts [])) p
  end.

Definition loadConversations_resume (r : Settled (option (list Conversation))) (p : Page) :
    Page :=
  match r with
  | Resolved response => on_world (set_app (set_conversations (default [] response))) p
  | Rejected _ => on_world (set_app (set_conversations [])) p
  end.

(** [selectClient(client)] up to its [await]: both lists of the client are
    asked for. *)
Definition selectClient `{Engine} (client : option Client) (p : Page) : Page :=
  match client with
  | None => p
  | Some c =>
      let p := on_world
                 (set_app (fun a =>
                    set_currentMessages []
                      (set_selectedConversation None
                         (set_selectedContract None
                            (set_selectedClient (Some c) a))))) p in
      let p := on_world showChatWelcome p in
      let p := on_world enableChatInput p in
      let p := fetch (Web.ClientsAPI_getContracts (client_id c) []) p in
      on_world (call (ListConversations (client_id c))) p
  end.

(** [createClient(data)] up to its [await], and after it. *)
Definition createClient (data : JValue) (p : Page) : Page :=
  fetch (Web.ClientsAPI_create data) p.

Definition createClient_resume `{Engine} (r : Settled Client) (p : Page) : Page :=
  match r with
  | Resolved client =>
      let p := on_world (set_app (fun a => set_clients (client :: clients a) a)) p in
      let p := selectClient (Some client) p in
      on_world (showToast "success" "Cliente criado" (client_name client)) p
  | Rejected error =>
      on_world (showToast "error" "Erro ao criar cliente" (exn_message error)) p
  end.

(** [array.find(c => c.id === contractId)] *)
Fixpoint find_contract (contractId : string) (l : list Contract) : option Contract :=
  match l with
  | [] => None
  | c :: r => if String.eqb (contract_id c) contractId then Some c else find_contract contractId r
  end.

(** The click handler of a contract of the side bar. *)
Definition clickContract (contractId : string) (w : World) : World :=
  let contract := find_contract contractId (contracts (app w)) in
  let same :=
    match selectedContract (app w) with
    | Some c => String.eqb (contract_id c) contractId
    | None => false
    end in
  if same then set_app (set_selectedContract None) w
  else set_app (set_selectedContract contract) w.

(** [selectConversation(conversation)] up to its [await]; the second
    component tells whether it waits.  With no client selected the read of
    its id throws inside the [try]. *)
Definition selectConversation `{Engine} (conversation : option Conversation) (p : Page) :
    Page * bool :=
  match conversation with
  | None => (p, false)
  | Some c =>
      let p := on_world (set_app (set_selectedConversation (Some c))) p in
      match selectedClient (app (page_world p)) with
      | Some client =>
          (fetch (Web.ConversationsAPI_get (conversation_id c) (client_id client)) p, true)
      | None =>
          (on_world (showToast "error" "Erro ao carregar conversa" (type_error_message "id")) p,
           false)
      end
  end.

Definition selectConversation_resume (r : Settled (option (list Message))) (p : Page) : Page :=
  match r with
  | Resolved detail =>
      let p := on_world (set_app (set_currentMessages (default [] detail))) p in
      let p := on_world renderMessages p in
      on_world showChatMessages p
  | Rejected error =>
      on_world (showToast "error" "Erro ao carregar conversa" (exn_message error)) p
  end.

(** [startNewConversation()] *)
Definition startNewConversation (w : World) : World :=
  showChatWelcome
    (set_app (fun a => set_currentMessages [] (set_selectedConversation None a)) w).

(** The click handler of a hint card. *)
Definition clickHint `{Engine} (hint : string) (w : World) : World :=
  match selectedClient (app w) with
  | None => showToast "info" "Selecione um cliente" "Escolha um cliente primeiro" w
  | Some _ => updateSendButton (set_dom (set_chatInput_value hint) w)
  end.

(** The [input] handler of the chat input, after the user has made its
    value [text]. *)
Definition inputChanged `{Engine} (text : string) (w : World) : World :=
  updateSendButton (set_dom (set_chatInput_value text) w).

(** The handlers of the page other than [sendMessage] and the callbacks it
    gives to the stream. *)
Inductive Handler : Type :=
| LoadClients
| ClientsLoaded (r : Settled (option (list Client)))
| SelectClient (client : option Client)
| ContractsLoaded (r : Settled (option (list Contract)))
| ConversationsLoaded (r : Settled (option (list Conversation)))
| CreateClient (data : JValue)
| ClientCreated (r : Settled Client)
| ClickContract (contractId : string)
| SelectConversation (conversation : option Conversation)
| ConversationLoaded (r : Settled (option (list Message)))
| NewConversation
| ClickHint (hint : string)
| InputChanged (text : string)
| DeleteClicked (messageId : string) (index : nat) (confirmed : bool)
| DeleteSettled (index : nat) (r : Settled JValue).

Definition handle `{Engine} (h : Handler) (p : Page) : Page :=
  match h with
  | LoadClients => loadClients p
  | ClientsLoaded r => loadClients_resume r p
  | SelectClient client => selectClient client p
  | ContractsLoaded r => loadContracts_resume r p
  | ConversationsLoaded r => loadConversations_resume r p
  | CreateClient data => createClient data p
  | ClientCreated r => createClient_resume r p
  | ClickContract contractId => on_world (clickContract contractId) p
  | SelectConversation conversation => fst (selectConversation conversation p)
  | ConversationLoaded r => selectConversation_resume r p
  | NewConversation => on_world startNewConversation p
  | ClickHint hint => on_world (clickHint hint) p
  | InputChanged text => on_world (inputChanged text) p
  | DeleteClicked messageId index confirmed =>
      on_world (fun w => fst (deleteMessage messageId index confirmed w)) p
  | DeleteSettled index r => on_world (deleteMessage_resume index r) p
  end.

(** The request that a call of the API client sends. *)
Definition request_of (c : NetCall) : Request :=
  match c with
  | ChatStream request => request
  | DeleteMessage conversationId messageId clientId =>
      Web.ConversationsAPI_deleteMessage conversationId messageId clientId
  | ListConversations clientId => Web.ConversationsAPI_list clientId []
  end.

(** The message that [addMessage(role, content, metadata)] appends. *)
Definition added (role content : string) (metadata : Metadata) : Message :=
  {| id := None; role := role; content := content; metadata := Some metadata |}.

(** The options that [sendMessage] gives to [sendMessageStream] for a
    contract and a conversation. *)
Definition chat_options (contractId conversationId : JValue) : ChatOptions :=
  {| contractId := contractId; conversationId := conversationId;
     includeSources := JBool true; includeDebug := JUndefined;
     onStatus := true; onComplete := true; onError := true |}.

(** A whole [onComplete]: the handler and, when it waits for
    [loadConversations], what follows the wait. *)
Definition onComplete_whole `{Engine} (r : Completion) (loaded : list Conversation)
    (w : World) : World :=
  let '(w', waits) := onComplete_handler r w in
  if waits then onComplete_resume loaded w' else w'.

End Handlers.

(** ** Grouping the conversations *)

(** The names of the properties that every object inherits ([constructor],
    [toString], [__proto__] and so on). *)
Class ObjectPrototype : Type := inherited : string -> bool.

Module Grouping.
Import Js App Web.

(** [groupConversationsByDate(conversations)], each conversation given with
    the label that [formatDate] makes of its date.  The result is the object
    [groups] as the list of its own properties in the order of its keys;
    [None] is the [TypeError] of calling [push] on an inherited property. *)
Fixpoint group_loop `{ObjectPrototype} (labelled : list (string * Conversation))
    (groups : list (string * list Conversation)) :
    option (list (string * list Conversation)) :=
  match labelled with
  | [] => Some groups
  | (date, conv) :: r =>
      match lookup_key date groups with
      | Some g => group_loop r (put date (g ++ [conv]) groups)
      | None =>
          if inherited date then None
          else group_loop r (put date [conv] groups)
      end
  end.

Definition groupConversationsByDate `{ObjectPrototype}
    (labelled : list (string * Conversation)) : option (list (string * list Conversation)) :=
  group_loop labelled [].

(** The conversations of a label, in the order of the list. *)
Definition members (date : string) (labelled : list (string * Conversation)) :
    list Conversation :=
  snd <$> filter (fun lc => fst lc = date) labelled.

(** What holds of [groups] when the loop has been through [seen]. *)
Definition grouped (seen : list (string * Conversation))
    (groups : list (string * list Conversation)) : Prop :=
  NoDup (fst <$> groups)
  /\ (forall date, lookup_key date groups
                   = match members date seen with
                     | [] => None
                     | g => Some g
                     end)
  /\ concat (snd <$> groups) ≡ₚ snd <$> seen.

End Grouping.

(** ** Sample data *)

Module Samples.
Import Js.

(** A stream that ends inside its second event line: the line of a status
    event, the empty line after it, and the text of a complete event that no
    newline follows. *)
Definition status_line : string :=
  "data: " +:+ Json.JSON_stringify (Reference.status_event "Buscando").
Definition complete_line : string :=
  "data: " +:+ Json.JSON_stringify (Reference.complete_event "Pronto").
Definition cut_short : list (list Byte.byte) :=
  [Reference.bytes (Reference.sse (Reference.status_event "Buscando"));
   Reference.bytes complete_line].

(** A stream with a comment line and a line that is no JSON between its two
    events. *)
Definition noisy_lines : list string :=
  [": keep-alive"; status_line; EmptyString; "data: {"; complete_line; EmptyString].
Definition noisy : list (list Byte.byte) := [Reference.bytes (Lines.lines_text noisy_lines)].

Definition network_error : Exn := MkExn "TypeError" "network error".

Definition created : Api.Response :=
  {| Api.ok := true; Api.status := 201;
     Api.body_text := Json.JSON_stringify (JObj [("document_id", JStr "d1")]) |}.

(** A conversation of three stored messages, drawn on a page with its client
    and conversation selected. *)
Definition stored (messageId role content : string) : App.Message :=
  {| App.id := Some messageId; App.role := role; App.content := content;
     App.metadata := None |}.
Definition history : list App.Message :=
  [stored "m1" "user" "Qual o reajuste?"; stored "m2" "assistant" "8% ao ano.";
   stored "m3" "user" "E a carencia?"].
Definition open_page : App.World :=
  App.renderMessages (App.set_app (App.set_currentMessages history) Reference.ready).

Definition beta : App.Client := {| App.client_id := "c2"; App.client_name := "Beta" |}.
Definition plan : App.Contract :=
  {| App.contract_id := "k1"; App.contract_filename := Some "plano.pdf" |}.
Definition with_contracts : App.World :=
  App.set_app (Handlers.set_contracts [plan]) Reference.ready.
Definition start_page : Handlers.Page :=
  {| Handlers.page_world := Reference.ready; Handlers.page_fetches := [] |}.

(** The names that an object literal inherits from [Object.prototype]. *)
Definition object_prototype : ObjectPrototype :=
  fun k =>
    bool_decide
      (k ∈ ["constructor"; "hasOwnProperty"; "isPrototypeOf"; "propertyIsEnumerable";
            "toLocaleString"; "toString"; "valueOf"; "__proto__"; "__defineGetter__";
            "__defineSetter__"; "__lookupGetter__"; "__lookupSetter__"]).

Definition conv (conversationId : string) : App.Conversation :=
  {| App.conversation_id := conversationId; App.conversation_title := None |}.

(** Conversations with their labels, newest first, one of an earlier day
    between two of today. *)
Definition labelled : list (string * App.Conversation) :=
  [("Hoje", conv "v1"); ("Ontem", conv "v2"); ("Hoje", conv "v3");
   ("3 dias atras", conv "v4")].

(** The events of [Reference.two_chunks], and one chunk that holds both. *)
Definition searching : Protocol.ExecutionEvent :=
  Protocol.StatusEvent (JStr "retrieval") (JStr "Buscando") (JStr "retrieval").
Definition done : Protocol.ExecutionEvent :=
  Protocol.CompleteEvent
    (JObj [("response", JStr "Pronto"); ("sources", JArr []);
           ("conversation_id", JStr "c1"); ("execution_id", JStr "e1")]).
Definition one_chunk : list Byte.byte :=
  Reference.bytes (Reference.sse (Reference.status_event "Buscando")
                   +:+ Reference.sse (Reference.complete_event "Pronto")).

(** A caller that aborts, without a reason, when the first status arrives,
    and the reason of a caller that gives up waiting. *)
Definition abort_on_status (c : Api.Callback) : option Exn :=
  match c with
  | Api.OnStatus _ _ _ => Some Reference.abort_error
  | _ => None
  end.
Definition timeout : Exn := MkExn "Error" "timeout".

End Samples.

(** ** The model at work *)

Module Examples.
Import Js Api App.

Example json_roundtrip :
  Json.json_parse (Json.JSON_stringify (Reference.complete_event "Pronto"))
  = Some (Reference.complete_event "Pronto").
Proof. reflexivity. Qed.

Example json_last_binding_wins :
  Json.json_parse
    ("{" +:+ Json.member "a" (JNum 1) +:+ "," +:+ Json.member "a" (JNum 2) +:+ "}")
  = Some (JObj [("a", JNum 2)]).
Proof. reflexivity. Qed.

Example split_newline_keeps_tail :
  split_newline ("a" +:+ String Json.newline (String Json.newline "b")) = ["a"; EmptyString; "b"].
Proof. reflexivity. Qed.

Example stream_of_two_chunks :
  @sendMessageStream Reference.engine Reference.text_decoder Reference.all_callbacks
    (StreamResponse true 200 (map ReadValue Reference.two_chunks ++ [ReadDone]))
  = [OnStatus (JStr "retrieval") (JStr "Buscando") (JStr "retrieval");
     OnComplete (JObj [("response", JStr "Pronto"); ("sources", JArr []);
                       ("conversation_id", JStr "c1"); ("execution_id", JStr "e1")])].
Proof. reflexivity. Qed.

Example stream_http_error :
  @sendMessageStream Reference.engine Reference.text_decoder Reference.all_callbacks
    (StreamResponse false 503 [])
  = [OnError (JObj [("error", JStr "stream_error");
                    ("message", JStr "HTTP error! status: 503")])].
Proof. reflexivity. Qed.

Example stream_fails_after_complete :
  @sendMessageStream Reference.engine Reference.text_decoder Reference.all_callbacks
    (StreamResponse true 200
       [ReadValue (Reference.bytes (Reference.sse (Reference.complete_event "Pronto")));
        ReadFailed (MkExn "TypeError" "network error")])
  = [OnComplete (JObj [("response", JStr "Pronto"); ("sources", JArr []);
                       ("conversation_id", JStr "c1"); ("execution_id", JStr "e1")]);
     OnError Reference.stream_error].
Proof. reflexivity. Qed.

Example sendMessage_idle :
  net (@sendMessage Reference.engine Reference.idle)
  = [ChatStream (ChatAPI_sendMessageStream_fetch "Qual o reajuste?" "c1"
                   Reference.all_callbacks)]
  /\ isSending (app (@sendMessage Reference.engine Reference.idle)) = true
  /\ role <$> currentMessages (app (@sendMessage Reference.engine Reference.idle)) = ["user"].
Proof. repeat split. Qed.

Example dedup_keys :
  sourceKey <$> uniqueSources Reference.sorted_sources
  = ["f.pdf||6"; "e.pdf||5"; "d.pdf||4"; "c.pdf||3"; "b.pdf||2"; "a.pdf||1"].
Proof. vm_compute. reflexivity. Qed.

Example splice_in_range : splice 1 1 [10; 20; 30] = ([10; 30], [20]).
Proof. reflexivity. Qed.

Example splice_out_of_range : splice 5 1 [10; 20; 30] = ([10; 20; 30], []).
Proof. reflexivity. Qed.

End Examples.

(** ** Properties of the event stream *)

Module StreamProps.
Import Js Api.

Lemma split_newline_nonempty s : split_newline s <> [].
Proof.
  destruct s as [|c r]; simpl; [done|].
  destruct (Ascii.eqb c Json.newline); [done|].
  destruct (split_newline r); done.
Qed.

Lemma split_newline_app a b :
  split_newline (a +:+ b) =
  removelast (split_newline a) ++ split_newline (pop_or_empty (split_newline a) +:+ b).
Proof.
  induction a as [|c r IH]; [reflexivity|].
  change (String c r +:+ b) with (String c (r +:+ b)). simpl.
  pose proof (split_newline_nonempty r) as Hne.
  destruct (Ascii.eqb c Json.newline) eqn:Hc.
  - rewrite IH.
    destruct (split_newline r) as [|y ys] eqn:Hr; [done|]. reflexivity.
  - destruct (split_newline r) as [|y ys] eqn:Hr; [done|].
    rewrite IH.
    destruct ys as [|y' ys']; [|reflexivity].
    simpl. unfold pop_or_empty. simpl. by rewrite Hc.
Qed.

(** What stays in [buffer] holds no newline. *)
Lemma split_newline_pop s :
  split_newline (pop_or_empty (split_newline s)) = [pop_or_empty (split_newline s)].
Proof.
  induction s as [|c r IH]; [done|].
  simpl. pose proof (split_newline_nonempty r) as Hne.
  destruct (Ascii.eqb c Json.newline) eqn:Hc.
  - destruct (split_newline r) as [|y ys] eqn:Hr; [done|]. exact IH.
  - destruct (split_newline r) as [|y ys] eqn:Hr; [done|].
    destruct ys as [|y' ys']; [|exact IH].
    unfold pop_or_empty in *. simpl in *. by rewrite Hc, IH.
Qed.

Lemma pop_or_empty_app (l k : list string) :
  k <> [] -> pop_or_empty (l ++ k) = pop_or_empty k.
Proof.
  intros Hk. unfold pop_or_empty.
  destruct k as [|x k] using rev_ind; [done|].
  by rewrite app_assoc, !last_snoc.
Qed.

Lemma removelast_app_ne (l k : list string) :
  k <> [] -> removelast (l ++ k) = l ++ removelast k.
Proof. intros Hk. by apply removelast_app. Qed.

Lemma append_cons (c : ascii) (a b : string) : String c a +:+ b = String c (a +:+ b).
Proof. reflexivity. Qed.

Lemma append_empty_r (s : string) : s +:+ EmptyString = s.
Proof. induction s as [|c r IH]; [done|]. by rewrite append_cons, IH. Qed.

Lemma append_assoc (a b c : string) : (a +:+ b) +:+ c = a +:+ (b +:+ c).
Proof. induction a as [|x a IH]; [done|]. by rewrite !append_cons, IH. Qed.

Section Stream.
Context `{Engine} `{TextDecoder}.
Variable options : ChatOptions.

(** Two chunks read one after the other cause the callbacks of the one chunk
    they make together. *)
Lemma read_loop_two d buffer a b rest :
  read_loop options d buffer (ReadValue a :: ReadValue b :: rest) =
  read_loop options d buffer (ReadValue (a ++ b) :: rest).
Proof.
  simpl. rewrite decode_app. simpl.
  set (ta := snd (decode d a)). set (tb := snd (decode (fst (decode d a)) b)).
  rewrite <- (append_assoc buffer ta tb), (split_newline_app (buffer +:+ ta) tb).
  set (k := split_newline (_ +:+ tb)).
  assert (k <> []) as Hk by apply split_newline_nonempty.
  rewrite removelast_app_ne, pop_or_empty_app by done.
  by rewrite flat_map_app, app_assoc.
Qed.

Lemma read_loop_value d buffer value rest :
  read_loop options d buffer (ReadValue value :: rest) =
  flat_map (dispatch_line options)
    (removelast (split_newline (buffer +:+ snd (decode d value)))) ++
  read_loop options (fst (decode d value))
    (pop_or_empty (split_newline (buffer +:+ snd (decode d value)))) rest.
Proof. reflexivity. Qed.

Lemma read_loop_chunks chunks : forall d buffer tail,
  split_newline buffer = [buffer] ->
  read_loop options d buffer (map ReadValue chunks ++ tail) =
  read_loop options d buffer (ReadValue (concat chunks) :: tail).
Proof.
  induction chunks as [|c chunks IH]; intros d buffer tail Hb.
  - simpl. rewrite decode_nil. simpl. rewrite append_empty_r, Hb. reflexivity.
  - change (concat (c :: chunks)) with (c ++ concat chunks).
    rewrite <- read_loop_two.
    change (map ReadValue (c :: chunks) ++ tail)
      with (ReadValue c :: (map ReadValue chunks ++ tail)).
    rewrite (read_loop_value d buffer c (map ReadValue chunks ++ tail)).
    rewrite (read_loop_value d buffer c (ReadValue (concat chunks) :: tail)).
    f_equal. apply IH, split_newline_pop.
Qed.

(** A failed read ends the loop in the [catch] handler, whatever else the
    reader would have delivered. *)
Lemma read_loop_failed chunks e rest : forall d buffer,
  read_loop options d buffer (map ReadValue chunks ++ ReadFailed e :: rest) =
  read_loop options d buffer (map ReadValue chunks) ++ catch_handler options e.
Proof.
  induction chunks as [|c chunks IH]; intros d buffer; [by simpl|].
  change (map ReadValue (c :: chunks) ++ ReadFailed e :: rest)
    with (ReadValue c :: (map ReadValue chunks ++ ReadFailed e :: rest)).
  change (map ReadValue (c :: chunks)) with (ReadValue c :: map ReadValue chunks).
  by rewrite !read_loop_value, IH, app_assoc.
Qed.

(** A stream that is read to its end causes the events of its text. *)
Lemma read_loop_done chunks status :
  sendMessageStream options (StreamResponse true status (map ReadValue chunks ++ [ReadDone])) =
  stream_events options (decoded (concat chunks)).
Proof.
  unfold sendMessageStream, stream_events, decoded. simpl negb. cbv iota.
  rewrite read_loop_chunks by done.
  rewrite read_loop_value. simpl. by rewrite app_nil_r.
Qed.

End Stream.

Lemma status_then_terminal_discipline tr :
  status_then_terminal tr -> terminal_discipline tr.
Proof.
  intros (statuses & t & -> & Hst & Ht). repeat split.
  - rewrite filter_app. simpl.
    assert (filter (fun c => is_terminal c = true) statuses = []) as ->.
    { clear Ht. induction Hst as [|x l Hx _ IH]; [done|].
      rewrite filter_cons. case_decide; [congruence|done]. }
    rewrite filter_cons. case_decide; done.
  - exists t. by rewrite last_snoc.
  - intros i j s t' Hi Hj Hs Ht'.
    assert (j = length statuses) as ->.
    { destruct (decide (j < length statuses)%nat) as [Hlt|Hge].
      - rewrite lookup_app_l in Hj by done.
        rewrite Forall_lookup in Hst. specialize (Hst _ _ Hj). congruence.
      - apply lookup_lt_Some in Hj. rewrite length_app in Hj. simpl in Hj. lia. }
    destruct (decide (i < length statuses)%nat) as [Hlt|Hge]; [done|].
    assert (i = length statuses) as ->.
    { apply lookup_lt_Some in Hi. rewrite length_app in Hi. simpl in Hi. lia. }
    rewrite list_lookup_middle in Hi by done. congruence.
Qed.

End StreamProps.

(** ** Properties of the source list *)

Module SourceProps.
Import Js App.

Lemma unique_loop_acc l : forall seen acc,
  unique_loop seen acc l = acc ++ unique_loop seen [] l.
Proof.
  induction l as [|s l IH]; intros seen acc; simpl.
  - by rewrite app_nil_r.
  - case_decide; [apply IH|].
    rewrite (IH _ (acc ++ [s])), (IH _ [s]). by rewrite <- app_assoc.
Qed.

(** The loop as a recursion on the list: a source whose key was seen is
    skipped, another one is kept and its key is seen from then on. *)
Lemma unique_loop_cons seen s l :
  unique_loop seen [] (s :: l) =
  if decide (sourceKey s ∈ seen) then unique_loop seen [] l
  else s :: unique_loop ({[sourceKey s]} ∪ seen) [] l.
Proof. simpl. case_decide; [done|]. by rewrite unique_loop_acc. Qed.

Lemma unique_loop_sublist l : forall seen, unique_loop seen [] l `sublist_of` l.
Proof.
  induction l as [|s l IH]; intros seen; [done|].
  rewrite unique_loop_cons. case_decide.
  - by apply sublist_cons.
  - by apply sublist_skip.
Qed.

Lemma unique_loop_fresh l : forall seen s,
  s ∈ unique_loop seen [] l -> sourceKey s ∉ seen.
Proof.
  induction l as [|x l IH]; intros seen s Hs.
  - by apply elem_of_nil in Hs.
  - rewrite unique_loop_cons in Hs. case_decide as Hx.
    + by apply IH in Hs.
    + apply elem_of_cons in Hs as [->|Hs]; [done|].
      apply IH in Hs. set_solver.
Qed.

Lemma unique_loop_NoDup l : forall seen, NoDup (sourceKey <$> unique_loop seen [] l).
Proof.
  induction l as [|x l IH]; intros seen; [constructor|].
  rewrite unique_loop_cons. case_decide as Hx; [apply IH|].
  rewrite fmap_cons. constructor; [|apply IH].
  intros Hin. apply list_elem_of_fmap in Hin as (y & Hk & Hy).
  apply unique_loop_fresh in Hy. set_solver.
Qed.

Lemma unique_loop_complete l : forall seen s,
  s ∈ l -> sourceKey s ∉ seen -> sourceKey s ∈ sourceKey <$> unique_loop seen [] l.
Proof.
  induction l as [|x l IH]; intros seen s Hs Hk.
  - by apply elem_of_nil in Hs.
  - rewrite unique_loop_cons.
    apply elem_of_cons in Hs as [->|Hs].
    + case_decide; [done|]. rewrite fmap_cons. apply elem_of_cons. by left.
    + case_decide as Hx; [by apply IH|].
      rewrite fmap_cons. apply elem_of_cons.
      destruct (decide (sourceKey s = sourceKey x)) as [Heq|Hne]; [by left|].
      right. apply IH; [done|].
      rewrite elem_of_union, elem_of_singleton. tauto.
Qed.

Lemma filter_key_absent (l : list Source) (k : string) :
  k ∉ sourceKey <$> l -> filter (fun d => sourceKey d = k) l = [].
Proof.
  induction l as [|x l IH]; intros Hk; [done|].
  rewrite fmap_cons in Hk. apply not_elem_of_cons in Hk as [Hx Hk].
  rewrite filter_cons. case_decide; [congruence|by apply IH].
Qed.

(** In a list without two entries of the same key, a key that occurs has one
    entry. *)
Lemma count_key_NoDup (l : list Source) (k : string) :
  NoDup (sourceKey <$> l) -> k ∈ sourceKey <$> l ->
  length (filter (fun d => sourceKey d = k) l) = 1%nat.
Proof.
  induction l as [|x l IH]; intros Hnd Hk.
  - by apply elem_of_nil in Hk.
  - rewrite fmap_cons in Hnd, Hk. apply NoDup_cons in Hnd as [Hx Hnd].
    rewrite filter_cons. case_decide as Hxk.
    + subst k. by rewrite filter_key_absent.
    + apply elem_of_cons in Hk as [Hk|Hk]; [congruence|]. by apply IH.
Qed.

Lemma NoDup_key_lookup (l : list Source) i j a b :
  NoDup (sourceKey <$> l) -> l !! i = Some a -> l !! j = Some b ->
  sourceKey a = sourceKey b -> i = j.
Proof.
  intros Hnd Hi Hj Hk.
  apply (NoDup_lookup (sourceKey <$> l) i j (sourceKey a)); [done| |].
  - by rewrite list_lookup_fmap, Hi.
  - by rewrite list_lookup_fmap, Hj, Hk.
Qed.

(** Sources of the same (document, section, page) have the same key. *)
Lemma source_tuple_key a b : source_tuple a = source_tuple b -> sourceKey a = sourceKey b.
Proof. unfold source_tuple, sourceKey. intros [= -> -> ->]. reflexivity. Qed.

Lemma uniqueSources_NoDup l : NoDup (sourceKey <$> uniqueSources l).
Proof. apply unique_loop_NoDup. Qed.

Lemma uniqueSources_once l s :
  s ∈ l -> length (filter (fun d => sourceKey d = sourceKey s) (uniqueSources l)) = 1%nat.
Proof.
  intros Hs. apply count_key_NoDup; [apply uniqueSources_NoDup|].
  apply unique_loop_complete; [done|set_solver].
Qed.

Lemma displaySources_NoDup l : NoDup (sourceKey <$> displaySources l).
Proof.
  unfold displaySources. rewrite fmap_take.
  eapply sublist_NoDup; [apply uniqueSources_NoDup|apply sublist_take].
Qed.

Lemma displaySources_sublist l : displaySources l `sublist_of` l.
Proof.
  unfold displaySources, uniqueSources.
  etrans; [apply sublist_take|apply unique_loop_sublist].
Qed.

Lemma StronglySorted_sublist {A} (R : relation A) (l k : list A) :
  k `sublist_of` l -> StronglySorted R l -> StronglySorted R k.
Proof.
  induction 1 as [|x k l Hsub IH|x k l Hsub IH]; intros Hs.
  - constructor.
  - apply StronglySorted_inv in Hs as [Hs Hx]. constructor; [by apply IH|].
    rewrite Forall_forall in Hx |- *. intros y Hy. apply Hx.
    by eapply elem_of_sublist.
  - apply StronglySorted_inv in Hs as [Hs _]. by apply IH.
Qed.

(** The loop computes the first occurrences. *)
Lemma unique_loop_first_occurrences l : forall seen,
  unique_loop seen [] l = filter (fun x => sourceKey x ∉ seen) (first_occurrences l).
Proof.
  induction l as [|s l IH]; intros seen; [done|].
  rewrite unique_loop_cons. simpl. rewrite filter_cons.
  case_decide as Hs.
  - rewrite decide_False by tauto. rewrite IH, list_filter_filter.
    apply list_filter_iff. intros x. split; [|tauto].
    intros Hx. split; [done|]. intros Heq. apply Hx. by rewrite Heq.
  - rewrite decide_True by done. f_equal.
    rewrite IH, list_filter_filter. apply list_filter_iff. intros x.
    rewrite elem_of_union, elem_of_singleton. tauto.
Qed.

Lemma uniqueSources_first_occurrences l : uniqueSources l = first_occurrences l.
Proof.
  unfold uniqueSources. rewrite unique_loop_first_occurrences.
  induction (first_occurrences l) as [|x k IH]; [done|].
  rewrite filter_cons_True by set_solver. by rewrite IH.
Qed.

(** An entry of the deduplicated list is the first source of its key. *)
Lemma first_occurrences_head l u :
  u ∈ first_occurrences l ->
  head (filter (fun x => sourceKey x = sourceKey u) l) = Some u.
Proof.
  induction l as [|s l IH]; [by intros ?%elem_of_nil|].
  simpl. intros [->|Hu]%elem_of_cons.
  - by rewrite filter_cons_True.
  - apply list_elem_of_filter in Hu as [Hne Hu].
    rewrite filter_cons_False by congruence. by apply IH.
Qed.

End SourceProps.

(** ** Properties of the request data and of the chat *)

Module ChatProps.
Import Js Api App.

Lemma or_else_defined a b : b <> JUndefined -> or_else a b <> JUndefined.
Proof.
  unfold or_else. destruct a as [| |[]| | | |]; simpl; try done.
  all: by destruct (negb _).
Qed.

(** The text of the request body, property by property. *)
Lemma chat_data_text message clientId options :
  Json.JSON_stringify (chat_data message clientId options) =
  "{" +:+ join ","
    [Json.member "message" (JStr message);
     Json.member "client_id" (JStr clientId);
     Json.member "contract_id" (or_else (contractId options) JNull);
     Json.member "conversation_id" (or_else (conversationId options) JNull);
     Json.member "include_sources" (JBool (not_false (includeSources options)));
     Json.member "include_debug" (or_else (includeDebug options) (JBool false))] +:+ "}".
Proof.
  unfold chat_data.
  pose proof (or_else_defined (contractId options) JNull) as H1.
  pose proof (or_else_defined (conversationId options) JNull) as H2.
  pose proof (or_else_defined (includeDebug options) (JBool false)) as H3.
  destruct (or_else (contractId options) JNull); [by destruct H1|..];
  destruct (or_else (conversationId options) JNull); try (by destruct H2);
  destruct (or_else (includeDebug options) (JBool false)); try (by destruct H3);
  reflexivity.
Qed.

Section Chat.
Context `{Engine}.

Lemma sendMessage_blocked w : blocked w = true -> sendMessage w = w.
Proof. unfold sendMessage. by intros ->. Qed.

Lemma chat_calls_call_chat r w : chat_calls (call (ChatStream r) w) = S (chat_calls w).
Proof.
  unfold chat_calls, call. simpl. rewrite filter_app, length_app. simpl. lia.
Qed.

Lemma chat_calls_call_other c w : is_chat c = false -> chat_calls (call c w) = chat_calls w.
Proof.
  intros Hc. unfold chat_calls, call. simpl. rewrite filter_app, length_app.
  rewrite filter_cons. case_decide; [congruence|]. simpl. lia.
Qed.

(** A send that is not blocked issues one chat request and sets
    [isSending]. *)
Lemma sendMessage_dispatches w :
  blocked w = false ->
  chat_calls (sendMessage w) = S (chat_calls w)
  /\ isSending (app (sendMessage w)) = true.
Proof.
  unfold sendMessage. intros Hb. rewrite Hb.
  assert (exists client, selectedClient (app w) = Some client) as [client Hc].
  { unfold blocked in Hb. destruct (selectedClient (app w)); [eauto|].
    simpl in Hb. by rewrite orb_true_r in Hb. }
  destruct (negb (String.eqb (chatWelcome_display _) "none")); simpl;
    rewrite Hc, chat_calls_call_chat; split; reflexivity.
Qed.

Lemma onStatus_frame m w :
  app (onStatus_handler m w) = app w /\ net (onStatus_handler m w) = net w.
Proof.
  unfold onStatus_handler, updateTypingStatus.
  by destruct (typing_indicator (dom w)).
Qed.

(** [onComplete] issues no chat request; it ends with [isSending] cleared or,
    when it waits, with [isSending] as it was. *)
Lemma onComplete_frame r w :
  chat_calls (fst (onComplete_handler r w)) = chat_calls w
  /\ (snd (onComplete_handler r w) = true ->
      isSending (app (fst (onComplete_handler r w))) = isSending (app w)).
Proof.
  unfold onComplete_handler. simpl.
  destruct (selectedConversation (app w)) as [conv|];
    [|destruct (response_conversation_id r) as [cid|];
      [destruct (String.eqb cid EmptyString)|]]; simpl; try done.
  destruct (selectedClient (app w)); simpl; [|done].
  by rewrite chat_calls_call_other.
Qed.

Lemma onError_frame e w : chat_calls (onError_handler e w) = chat_calls w.
Proof. unfold onError_handler. by destruct (get e "message"). Qed.

Lemma in_flight_issue ts k :
  length (filter (fun n => n = 0%nat) (ts ++ replicate k 0%nat))
  = (length (filter (fun n => n = 0%nat) ts) + k)%nat.
Proof.
  rewrite filter_app, length_app. f_equal.
  induction k as [|k IH]; [done|].
  change (replicate (S k) 0%nat) with (0%nat :: replicate k 0%nat).
  rewrite filter_cons_True by done. simpl. by rewrite IH.
Qed.

(** The first terminal callback of a request takes it out of flight. *)
Lemma in_flight_terminal ts i :
  ts !! i = Some 0%nat ->
  length (filter (fun n => n = 0%nat) ts)
  = S (length (filter (fun n => n = 0%nat) (<[i := 1%nat]> ts))).
Proof.
  intros Hi. pose proof (lookup_lt_Some _ _ _ Hi) as Hlt.
  rewrite insert_take_drop by done.
  rewrite <- (take_drop_middle ts i 0%nat Hi) at 1.
  rewrite !filter_app, !length_app.
  rewrite filter_cons_True, filter_cons_False by done. simpl. lia.
Qed.

Lemma invariant_exec s a : invariant s -> first_terminal s a -> invariant (exec a s).
Proof.
  intros (Hle & Hsending & Hcalls) Hfirst. unfold invariant, in_flight in *.
  destruct a as [|text|i m|i r|i e|loaded|w']; simpl in *.
  - rewrite in_flight_issue, length_app, length_replicate.
    destruct (blocked (world s)) eqn:Hb.
    + rewrite (sendMessage_blocked _ Hb). rewrite Nat.sub_diag, !Nat.add_0_r. done.
    + destruct (sendMessage_dispatches _ Hb) as [-> ->].
      assert (isSending (app (world s)) = false) as Hfalse.
      { unfold blocked in Hb. apply orb_false_elim in Hb as [_ Hb]. exact Hb. }
      split; [|split; [done|lia]].
      destruct (length (filter (fun n => n = 0%nat) (terminals s)) + completing s)%nat
        eqn:Hn; [lia|].
      rewrite Hsending in Hfalse by lia. done.
  - done.
  - destruct (terminals s !! i); [|done]. simpl.
    destruct (onStatus_frame m (world s)) as [Happ Hnet].
    unfold chat_calls in *. rewrite Happ, Hnet. done.
  - destruct (terminals s !! i) as [n|] eqn:Hi; [|done]. simpl.
    rewrite (Hfirst n eq_refl) in *.
    pose proof (in_flight_terminal _ _ Hi) as Hone.
    destruct (onComplete_frame r (world s)) as [-> Hwait].
    rewrite length_insert.
    split; [|split; [|done]].
    + destruct (snd (onComplete_handler r (world s))); lia.
    + destruct (snd (onComplete_handler r (world s))); [|lia].
      intros _. rewrite Hwait by done. apply Hsending. lia.
  - destruct (terminals s !! i) as [n|] eqn:Hi; [|done]. simpl.
    rewrite (Hfirst n eq_refl) in *.
    pose proof (in_flight_terminal _ _ Hi) as Hone.
    rewrite onError_frame, length_insert.
    split; [lia|split; [lia|done]].
  - destruct (completing s) as [|c] eqn:Hc; simpl; [by rewrite Hc|].
    split; [lia|split; [lia|done]].
  - destruct (Bool.eqb _ _ && Nat.eqb _ _) eqn:Hsame; [|done]. simpl.
    apply andb_prop in Hsame as [Hs Hc].
    apply Bool.eqb_prop in Hs. apply Nat.eqb_eq in Hc. rewrite Hs, Hc. done.
Qed.

Lemma invariant_initial : invariant initial.
Proof. unfold invariant, in_flight. simpl. split; [lia|split; [lia|done]]. Qed.

Lemma invariant_run l : forall s,
  invariant s -> one_terminal_each s l -> invariant (run l s).
Proof.
  induction l as [|a l IH]; intros s Hinv Hrun; [done|].
  destruct Hrun as [Hfirst Hrest]. simpl. apply IH; [|done].
  by apply invariant_exec.
Qed.

Lemma one_terminal_each_prefix l k : forall s,
  one_terminal_each s (l ++ k) -> one_terminal_each s l.
Proof.
  induction l as [|a l IH]; intros s Hrun; [done|].
  destruct Hrun as [Hfirst Hrest]. split; [done|]. by apply IH.
Qed.

End Chat.
End ChatProps.

(** ** Properties of the query strings and of the uploads *)

Module WebProps.
Import Js Api Web StreamProps.

Lemma contains_append c a b : contains c (a +:+ b) = contains c a || contains c b.
Proof.
  induction a as [|x a IH]; [done|].
  rewrite append_cons. simpl. by rewrite IH, orb_assoc.
Qed.

Lemma urlencode_byte_clean x :
  contains ampersand (urlencode_byte x) = false
  /\ contains equals (urlencode_byte x) = false.
Proof. destruct x as [[] [] [] [] [] [] [] []]; split; reflexivity. Qed.

(** A serialized name or value holds no [&] and no [=]. *)
Lemma urlencode_clean s :
  contains ampersand (urlencode s) = false /\ contains equals (urlencode s) = false.
Proof.
  induction s as [|x s [IH1 IH2]]; [done|].
  simpl. rewrite !contains_append, IH1, IH2.
  destruct (urlencode_byte_clean x) as [-> ->]. done.
Qed.

Lemma urldecode_byte x rest :
  urldecode (urlencode_byte x +:+ rest) = String x (urldecode rest).
Proof. destruct x as [[] [] [] [] [] [] [] []]; reflexivity. Qed.

Lemma urldecode_urlencode s : urldecode (urlencode s) = s.
Proof.
  induction s as [|x s IH]; [done|].
  simpl. by rewrite urldecode_byte, IH.
Qed.

Lemma split_char_absent sep a : contains sep a = false -> split_char sep a = [a].
Proof.
  induction a as [|x a IH]; [done|]. simpl.
  intros [Hx Ha]%orb_false_elim. rewrite Hx, IH by done. done.
Qed.

Lemma split_char_nonempty sep s : split_char sep s <> [].
Proof.
  destruct s as [|c r]; simpl; [done|].
  destruct (Ascii.eqb c sep); [done|]. by destruct (split_char sep r).
Qed.

Lemma split_char_cut sep a b :
  contains sep a = false ->
  split_char sep (a +:+ String sep b) = a :: split_char sep b.
Proof.
  induction a as [|x a IH].
  - intros _. change (EmptyString +:+ String sep b) with (String sep b).
    simpl. by rewrite Ascii.eqb_refl.
  - rewrite append_cons. simpl.
    intros [Hx Ha]%orb_false_elim. rewrite Hx, IH by done. done.
Qed.

Lemma break_at_cut sep a b :
  contains sep a = false -> break_at sep (a +:+ String sep b) = (a, Some b).
Proof.
  induction a as [|x a IH].
  - intros _. change (EmptyString +:+ String sep b) with (String sep b).
    simpl. by rewrite Ascii.eqb_refl.
  - rewrite append_cons. simpl.
    intros [Hx Ha]%orb_false_elim. rewrite Hx, IH by done. done.
Qed.

Lemma pair_text_clean kv : contains ampersand (pair_text kv) = false.
Proof.
  unfold pair_text. rewrite !contains_append.
  destruct (urlencode_clean (fst kv)) as [-> _].
  destruct (urlencode_clean (snd kv)) as [-> _]. done.
Qed.

Lemma pair_text_nonempty kv : pair_text kv <> EmptyString.
Proof. unfold pair_text. destruct (urlencode (fst kv)); done. Qed.

Lemma parse_pair_text kv : parse_pair (pair_text kv) = kv.
Proof.
  unfold parse_pair, pair_text.
  change ("=" +:+ urlencode (snd kv)) with (String equals (urlencode (snd kv))).
  rewrite break_at_cut by apply urlencode_clean.
  simpl. rewrite !urldecode_urlencode. by destruct kv.
Qed.

(** The receiver of a query string reads the pairs that were written. *)
Lemma parse_query_toString entries :
  parse_query (URLSearchParams_toString entries) = entries.
Proof.
  unfold parse_query, URLSearchParams_toString.
  induction entries as [|kv [|kv' r] IH].
  - done.
  - simpl. rewrite split_char_absent by apply pair_text_clean.
    rewrite filter_cons_True by apply pair_text_nonempty.
    simpl. by rewrite parse_pair_text.
  - change (join "&" (map pair_text (kv :: kv' :: r)))
      with (pair_text kv +:+ String ampersand (join "&" (map pair_text (kv' :: r)))).
    rewrite split_char_cut by apply pair_text_clean.
    rewrite filter_cons_True by apply pair_text_nonempty.
    rewrite map_cons, parse_pair_text. by rewrite IH.
Qed.

Lemma toString_nonempty kv entries :
  URLSearchParams_toString (kv :: entries) <> EmptyString.
Proof.
  unfold URLSearchParams_toString. pose proof (pair_text_nonempty kv) as Hne.
  destruct entries as [|kv' r]; simpl; [done|].
  destruct (pair_text kv); done.
Qed.

(** *** Objects *)

Lemma lookup_key_replace {V} (k k' : string) (v : V) o :
  has_key k o = true ->
  lookup_key k' (replace_value k v o) = if String.eqb k' k then Some v else lookup_key k' o.
Proof.
  induction o as [|[k0 v0] o IH]; [done|]. simpl.
  destruct (String.eqb k k0) eqn:Hk.
  - intros _. apply String.eqb_eq in Hk as <-. simpl.
    by destruct (String.eqb k' k).
  - simpl. intros Ho. destruct (String.eqb k' k0) eqn:Hk0.
    + apply String.eqb_eq in Hk0 as ->. by rewrite String.eqb_sym, Hk.
    + by apply IH.
Qed.

Lemma lookup_key_absent {V} (k : string) (o : list (string * V)) :
  has_key k o = false -> lookup_key k o = None.
Proof.
  induction o as [|[k0 v0] o IH]; [done|]. simpl.
  intros [-> Ho]%orb_false_elim. by apply IH.
Qed.

Lemma lookup_key_put_index {V} n (k k' : string) (v : V) o :
  has_key k o = false ->
  lookup_key k' (put_index n k v o) = if String.eqb k' k then Some v else lookup_key k' o.
Proof.
  induction o as [|[k0 v0] o IH]; [done|]. simpl.
  intros [Hk Ho]%orb_false_elim.
  destruct (array_index k0) as [m|]; [destruct (m <? n)%N|]; simpl;
    try by destruct (String.eqb k' k).
  destruct (String.eqb k' k0) eqn:Hk0; [|by apply IH].
  apply String.eqb_eq in Hk0 as ->. by rewrite String.eqb_sym, Hk.
Qed.

Lemma lookup_key_app {V} (k : string) (o o' : list (string * V)) :
  lookup_key k (o ++ o') = match lookup_key k o with
                           | Some v => Some v
                           | None => lookup_key k o'
                           end.
Proof.
  induction o as [|[k0 v0] o IH]; [done|]. simpl. by destruct (String.eqb k k0).
Qed.

(** Reading a property after writing one. *)
Lemma lookup_key_put {V} (k k' : string) (v : V) o :
  lookup_key k' (put k v o) = if String.eqb k' k then Some v else lookup_key k' o.
Proof.
  unfold put. destruct (has_key k o) eqn:Hk.
  - by apply lookup_key_replace.
  - destruct (array_index k) as [n|]; [by apply lookup_key_put_index|].
    rewrite lookup_key_app. simpl.
    destruct (String.eqb k' k) eqn:Hk'.
    + apply String.eqb_eq in Hk' as ->. by rewrite lookup_key_absent.
    + by destruct (lookup_key k' o).
Qed.

Lemma lookup_key_spread {V} (k : string) (extra : list (string * V)) : forall o,
  has_key k extra = false -> lookup_key k (spread o extra) = lookup_key k o.
Proof.
  unfold spread. induction extra as [|[k0 v0] extra IH]; intros o; [done|]. simpl.
  intros [Hk He]%orb_false_elim. rewrite IH by done.
  by rewrite lookup_key_put, Hk.
Qed.

Lemma lookup_key_of k props :
  lookup_key k (URLSearchParams_of props) = to_string <$> lookup_key k props.
Proof.
  induction props as [|[k0 v0] props IH]; [done|]. simpl.
  by destruct (String.eqb k k0).
Qed.

(** In a spread the last property of a name wins. *)
Lemma spread_snoc {V} (o extra : list (string * V)) kv :
  spread o (extra ++ [kv]) = put (fst kv) (snd kv) (spread o extra).
Proof. unfold spread. by rewrite fold_left_app. Qed.

Lemma lookup_key_spread_last {V} (k : string) (extra : list (string * V)) : forall o,
  lookup_key k (spread o extra) = match lookup_key k (rev extra) with
                                  | Some v => Some v
                                  | None => lookup_key k o
                                  end.
Proof.
  induction extra as [|[k0 v0] extra IH] using rev_ind; intros o; [done|].
  rewrite spread_snoc, lookup_key_put, rev_unit. simpl.
  destruct (String.eqb k k0); [done|]. apply IH.
Qed.

Lemma lookup_key_filter (k : string) (h : list (string * string)) :
  lookup_key k (filter (fun kv => fst kv <> k) h) = None.
Proof.
  induction h as [|[k0 v0] h IH]; [done|].
  rewrite filter_cons. case_decide as Hk; simpl in *; [|done].
  destruct (String.eqb k k0) eqn:He; [|done].
  apply String.eqb_eq in He. congruence.
Qed.

Lemma or_else_truthy a b : truthy a = true -> or_else a b = a.
Proof. unfold or_else. by intros ->. Qed.

End WebProps.

(** ** Further properties of the event stream *)

Module LineProps.
Import Js Api Web Lines StreamProps WebProps.

Lemma split_newline_split_char s : split_newline s = split_char Json.newline s.
Proof. induction s as [|c r IH]; [done|]. simpl. by rewrite IH. Qed.

(** Cutting the text of some lines and an unfinished line gives the lines and
    the unfinished line. *)
Lemma split_lines_text ls tail :
  Forall is_line ls -> is_line tail ->
  split_newline (lines_text ls +:+ tail) = ls ++ [tail].
Proof.
  intros Hls Htail. rewrite split_newline_split_char.
  induction Hls as [|l ls Hl _ IH]; simpl.
  - by apply split_char_absent.
  - rewrite append_assoc, append_cons, split_char_cut by done. by rewrite IH.
Qed.

Section Lines.
Context `{Engine} `{TextDecoder}.
Variable options : ChatOptions.

Lemma stream_events_lines ls tail :
  Forall is_line ls -> is_line tail ->
  stream_events options (lines_text ls +:+ tail) = flat_map (dispatch_line options) ls.
Proof.
  intros Hls Htail. unfold stream_events.
  rewrite split_lines_text by done. by rewrite removelast_last.
Qed.

Lemma dispatch_line_event line :
  is_event_line line = false -> dispatch_line options line = [].
Proof.
  unfold is_event_line, dispatch_line.
  destruct (startsWith "data: " line); [|done]. cbn [andb].
  destruct (JSON_parse (slice 6 line)); [discriminate|done].
Qed.

Lemma dispatch_line_one line : (length (dispatch_line options line) <= 1)%nat.
Proof.
  unfold dispatch_line.
  repeat (match goal with
          | |- context [match ?x with _ => _ end] => destruct x
          end; simpl; try lia).
Qed.

Lemma dispatch_line_present line c :
  c ∈ dispatch_line options line -> handler_present options c = true.
Proof.
  unfold dispatch_line.
  repeat (match goal with
          | |- context [match ?x with _ => _ end] => destruct x eqn:?
          end; simpl; try (by intros ?%elem_of_nil)).
  all: intros ->%list_elem_of_singleton; done.
Qed.

Lemma flat_map_events ls :
  flat_map (dispatch_line options) ls
  = flat_map (dispatch_line options) (filter (fun l => is_event_line l = true) ls).
Proof.
  induction ls as [|l ls IH]; [done|].
  rewrite filter_cons. case_decide as Hl; simpl; rewrite IH; [done|].
  rewrite dispatch_line_event; [done|]. by destruct (is_event_line l).
Qed.

Lemma flat_map_length ls :
  (length (flat_map (dispatch_line options) ls) <= length ls)%nat.
Proof.
  induction ls as [|l ls IH]; [done|]. simpl. rewrite length_app.
  pose proof (dispatch_line_one l). lia.
Qed.

Lemma catch_handler_present e c :
  c ∈ catch_handler options e -> handler_present options c = true.
Proof.
  unfold catch_handler. destruct (negb _); [|by intros ?%elem_of_nil].
  destruct (onError options) eqn:Hon; [|by intros ?%elem_of_nil].
  by intros ->%list_elem_of_singleton.
Qed.

Lemma read_loop_present reads : forall d buffer c,
  c ∈ read_loop options d buffer reads -> handler_present options c = true.
Proof.
  induction reads as [|[value| |e] reads IH]; intros d buffer c; simpl.
  - by intros ?%elem_of_nil.
  - rewrite elem_of_app. intros [Hc|Hc]; [|by eapply IH].
    apply list_elem_of_In, in_flat_map in Hc as (line & _ & Hc).
    eapply dispatch_line_present, list_elem_of_In, Hc.
  - by intros ?%elem_of_nil.
  - apply catch_handler_present.
Qed.

(** The callbacks of the chunks read so far are the events of their text. *)
Lemma read_loop_pending chunks :
  read_loop options decoder_new EmptyString (map ReadValue chunks)
  = stream_events options (decoded (concat chunks)).
Proof.
  rewrite <- (app_nil_r (map ReadValue chunks)).
  rewrite read_loop_chunks by done.
  rewrite read_loop_value. simpl. by rewrite app_nil_r.
Qed.

(** A line that frames an event causes its callback, when the handler is
    there. *)
Lemma dispatch_line_frames line e :
  onStatus options = true -> onComplete options = true -> onError options = true ->
  Protocol.frames line e -> dispatch_line options line = [Protocol.event_callback e].
Proof.
  intros Hs Hc He (text & v & -> & Hp & Hv). unfold dispatch_line.
  change (startsWith "data: " ("data: " +:+ text)) with (String.prefix EmptyString text).
  change (slice 6 ("data: " +:+ text)) with text.
  replace (String.prefix EmptyString text) with true by (by destruct text).
  rewrite Hp. destruct e as [step message agent|data|data]; simpl in Hv.
  - destruct Hv as (-> & data & -> & -> & -> & ->). simpl. by rewrite Hs.
  - destruct Hv as (-> & ->). simpl. by rewrite Hc.
  - destruct Hv as (-> & ->). simpl. by rewrite He.
Qed.

Lemma carries_dispatch ls es :
  onStatus options = true -> onComplete options = true -> onError options = true ->
  Protocol.carries ls es ->
  flat_map (dispatch_line options) ls = map Protocol.event_callback es.
Proof.
  intros Hs Hc He. induction 1 as [|ls es _ IH|line e ls es Hf _ IH]; [done| |].
  - simpl. exact IH.
  - simpl. by rewrite (dispatch_line_frames line e), IH.
Qed.

End Lines.
End LineProps.

(** ** Lemmas on the handlers *)

Module HandlerProps.
Import Js Api App Handlers ChatProps.

Section Handlers.
Context `{Engine}.

Lemma blocked_false w :
  blocked w = false ->
  String_trim (chatInput_value (dom w)) <> EmptyString
  /\ (exists client, selectedClient (app w) = Some client)
  /\ isSending (app w) = false.
Proof.
  unfold blocked. intros Hb.
  apply orb_false_elim in Hb as [Hb Hs]. apply orb_false_elim in Hb as [Ht Hc].
  split; [|split; [|done]].
  - intros Hempty. rewrite Hempty in Ht. done.
  - destruct (selectedClient (app w)); [eauto|done].
Qed.

Lemma blocked_ready w client :
  String_trim (chatInput_value (dom w)) <> EmptyString ->
  selectedClient (app w) = Some client -> isSending (app w) = false ->
  blocked w = false.
Proof.
  intros Ht Hc Hs. unfold blocked. rewrite Hc, Hs. simpl.
  destruct (String.eqb _ EmptyString) eqn:He; [|done].
  by apply String.eqb_eq in He.
Qed.

(** What a send that passes the guard leaves. *)
Lemma sendMessage_sent w client :
  blocked w = false -> selectedClient (app w) = Some client ->
  let message := String_trim (chatInput_value (dom w)) in
  let user := added "user" message {| sources := None; executionId := JUndefined |} in
  app (sendMessage w)
  = set_currentMessages (currentMessages (app w) ++ [user]) (set_isSending true (app w))
  /\ net (sendMessage w)
     = net w ++ [ChatStream
                   (ChatAPI_sendMessageStream_fetch message (client_id client)
                      (chat_options (optional_id contract_id (selectedContract (app w)))
                         (optional_id conversation_id (selectedConversation (app w)))))]
  /\ chatMessages_html (dom (sendMessage w)) = imap render (currentMessages (app w) ++ [user])
  /\ typing_indicator (dom (sendMessage w)) = Some "Processando..."
  /\ chatInput_value (dom (sendMessage w)) = EmptyString
  /\ chatWelcome_display (dom (sendMessage w)) = "none"
  /\ toasts (dom (sendMessage w)) = toasts (dom w)
  /\ btnSend_disabled (dom (sendMessage w)) = true.
Proof.
  intros Hb Hc message user. unfold sendMessage. rewrite Hb.
  destruct (negb (String.eqb (chatWelcome_display _) "none")) eqn:Hw; simpl;
    rewrite Hc; simpl; rewrite ?orb_true_r; repeat (split; [done|]); try done.
  simpl in Hw. apply negb_false_iff, String.eqb_eq in Hw.
  repeat (split; [done|]). done.
Qed.

Lemma chat_calls_set_app f w : chat_calls (set_app f w) = chat_calls w.
Proof. done. Qed.
Lemma chat_calls_set_dom f w : chat_calls (set_dom f w) = chat_calls w.
Proof. done. Qed.

(** Statuses touch nothing but the text of the typing indicator. *)
Lemma statuses_frame (statuses : list JValue) : forall w,
  let w' := fold_left (fun w m => onStatus_handler m w) statuses w in
  app w' = app w /\ net w' = net w
  /\ chatMessages_html (dom w') = chatMessages_html (dom w)
  /\ chatInput_value (dom w') = chatInput_value (dom w)
  /\ chatWelcome_display (dom w') = chatWelcome_display (dom w)
  /\ toasts (dom w') = toasts (dom w)
  /\ btnSend_disabled (dom w') = btnSend_disabled (dom w)
  /\ (typing_indicator (dom w) = None -> typing_indicator (dom w') = None).
Proof.
  induction statuses as [|m statuses IH]; intros w; [done|].
  simpl. destruct (IH (onStatus_handler m w)) as (-> & -> & -> & -> & -> & -> & -> & Ht).
  unfold onStatus_handler, updateTypingStatus in *.
  destruct (typing_indicator (dom w)) eqn:Hti; simpl in *.
  - repeat (split; [done|]). done.
  - rewrite Hti in Ht. repeat (split; [done|]). done.
Qed.

(** What [onComplete] leaves, up to its wait. *)
Lemma onComplete_done r w :
  let w' := fst (onComplete_handler r w) in
  currentMessages (app w')
  = currentMessages (app w)
    ++ [added "assistant" (response r)
          {| sources := response_sources r; executionId := response_execution_id r |}]
  /\ chatMessages_html (dom w') = imap render (currentMessages (app w'))
  /\ typing_indicator (dom w') = None
  /\ chatInput_value (dom w') = chatInput_value (dom w)
  /\ chatWelcome_display (dom w') = chatWelcome_display (dom w)
  /\ toasts (dom w') = toasts (dom w).
Proof.
  unfold onComplete_handler. simpl.
  destruct (selectedConversation (app w));
    [|destruct (response_conversation_id r) as [cid|];
      [destruct (String.eqb cid EmptyString)|]]; simpl; try done.
  by destruct (selectedClient (app w)).
Qed.

(** What a whole [onComplete] leaves of the selection. *)
Lemma onComplete_whole_selection r loaded w client :
  selectedClient (app w) = Some client ->
  let w' := onComplete_whole r loaded w in
  selectedClient (app w') = Some client
  /\ selectedContract (app w') = selectedContract (app w)
  /\ isSending (app w') = false
  /\ selectedConversation (app w')
     = match selectedConversation (app w), response_conversation_id r with
       | Some c, _ => Some c
       | None, Some cid =>
           if String.eqb cid EmptyString then None
           else Some {| conversation_id := cid; conversation_title := None |}
       | None, None => None
       end.
Proof.
  intros Hc. unfold onComplete_whole, onComplete_handler. simpl.
  destruct (selectedConversation (app w)) eqn:Hv;
    [|destruct (response_conversation_id r) as [cid|];
      [destruct (String.eqb cid EmptyString)|]]; simpl; rewrite ?Hc; simpl;
    rewrite ?Hv; done.
Qed.

(** A handler of the page leaves [isSending] and the chat requests as they
    are. *)
Lemma handle_frame (h : Handler) (p : Page) :
  isSending (app (page_world (handle h p))) = isSending (app (page_world p))
  /\ chat_calls (page_world (handle h p)) = chat_calls (page_world p).
Proof.
  destruct p as [w fs].
  destruct h as [|r|client|r|r|data|r|contractId|conversation|r| |hint|text
                |messageId index confirmed|index r]; simpl.
  - done.
  - by destruct r.
  - destruct client; [|done]. split; [done|].
    unfold chat_calls. simpl. rewrite filter_app, length_app. simpl. lia.
  - by destruct r.
  - by destruct r.
  - done.
  - destruct r; [|done]. split; [done|].
    unfold chat_calls. simpl. rewrite filter_app, length_app. simpl. lia.
  - unfold clickContract.
    by destruct (selectedContract (app w)) as [c|]; [destruct (String.eqb _ _)|].
  - destruct conversation; [|done]. simpl. by destruct (selectedClient (app w)).
  - by destruct r as [[?|]|].
  - done.
  - unfold clickHint. by destruct (selectedClient (app w)).
  - done.
  - unfold deleteMessage.
    destruct (selectedConversation (app w)), (selectedClient (app w)); try done.
    destruct confirmed; simpl; [|done]. split; [done|].
    unfold chat_calls. simpl. rewrite filter_app, length_app. simpl. lia.
  - by destruct r.
Qed.

Lemma handles_frame (hs : list Handler) : forall p,
  isSending (app (page_world (fold_left (fun p h => handle h p) hs p)))
  = isSending (app (page_world p)).
Proof.
  induction hs as [|h hs IH]; intros p; [done|].
  simpl. rewrite IH. apply handle_frame.
Qed.

(** With no typing indicator a status changes nothing. *)
Lemma statuses_idle (statuses : list JValue) w :
  typing_indicator (dom w) = None ->
  fold_left (fun w m => onStatus_handler m w) statuses w = w.
Proof.
  intros Ht. induction statuses as [|m statuses IH]; [done|].
  simpl. unfold onStatus_handler at 2, updateTypingStatus. by rewrite Ht.
Qed.

End Handlers.
End HandlerProps.

(** ** Lemmas on objects and on the grouping *)

Module GroupProps.
Import Js App Web WebProps Grouping.

Lemma has_key_lookup {V} (k : string) (o : list (string * V)) :
  has_key k o = false <-> lookup_key k o = None.
Proof.
  induction o as [|[k0 v0] o IH]; [done|]. simpl.
  destruct (String.eqb k k0); simpl; [done|]. exact IH.
Qed.

Lemma lookup_key_elem {V} (k : string) (v : V) o :
  lookup_key k o = Some v -> (k, v) ∈ o.
Proof.
  induction o as [|[k0 v0] o IH]; [done|]. simpl.
  destruct (String.eqb k k0) eqn:Hk.
  - apply String.eqb_eq in Hk as ->. intros [= ->]. left.
  - intros Hl. right. by apply IH.
Qed.

Lemma elem_lookup_key {V} (k : string) (v : V) o :
  NoDup (fst <$> o) -> (k, v) ∈ o -> lookup_key k o = Some v.
Proof.
  induction o as [|[k0 v0] o IH]; [by intros _ ?%elem_of_nil|].
  rewrite fmap_cons, NoDup_cons. simpl. intros [Hnot Hnd] Hin.
  apply elem_of_cons in Hin as [[= <- <-]|Hin].
  - by rewrite String.eqb_refl.
  - destruct (String.eqb k k0) eqn:Hk; [|by apply IH].
    apply String.eqb_eq in Hk as ->. destruct Hnot.
    apply list_elem_of_fmap. by exists (k0, v).
Qed.

Lemma replace_value_keys {V} (k : string) (v : V) o :
  fst <$> replace_value k v o = fst <$> o.
Proof.
  induction o as [|[k0 v0] o IH]; [done|]. simpl.
  destruct (String.eqb k k0) eqn:Hk.
  - apply String.eqb_eq in Hk as ->. done.
  - by rewrite !fmap_cons, IH.
Qed.

Lemma put_index_perm {V} n (k : string) (v : V) o : put_index n k v o ≡ₚ (k, v) :: o.
Proof.
  induction o as [|[k0 v0] o IH]; [done|]. simpl.
  destruct (array_index k0) as [m|]; [|done].
  destruct (m <? n)%N; [|done].
  rewrite IH. apply Permutation_swap.
Qed.

(** Writing a new property adds its key; writing an existing one leaves the
    keys as they are. *)
Lemma put_new {V} (k : string) (v : V) o :
  has_key k o = false -> put k v o ≡ₚ (k, v) :: o.
Proof.
  intros Hk. unfold put. rewrite Hk.
  destruct (array_index k); [apply put_index_perm|].
  by rewrite Permutation_app_comm.
Qed.

Lemma elem_has_key {V} (k : string) (v : V) o : (k, v) ∈ o -> has_key k o = true.
Proof.
  induction o as [|[k0 v0] o IH]; [by intros ?%elem_of_nil|].
  intros [[= <- <-]|Hin]%elem_of_cons; simpl.
  - by rewrite String.eqb_refl.
  - rewrite IH by done. apply orb_true_r.
Qed.

Lemma put_keys {V} (k : string) (v : V) o :
  NoDup (fst <$> o) -> NoDup (fst <$> put k v o).
Proof.
  intros Hnd. destruct (has_key k o) eqn:Hk.
  - unfold put. rewrite Hk. by rewrite replace_value_keys.
  - rewrite (put_new k v o Hk), fmap_cons. simpl. apply NoDup_cons. split; [|done].
    intros Hin. apply list_elem_of_fmap in Hin as ([k' v'] & Heq & Hin).
    simpl in Heq. subst k'. apply elem_has_key in Hin. congruence.
Qed.

Lemma concat_replace {A} (k : string) (g : list A) (x : A) o :
  lookup_key k o = Some g ->
  concat (snd <$> replace_value k (g ++ [x]) o) ≡ₚ concat (snd <$> o) ++ [x].
Proof.
  induction o as [|[k0 v0] o IH]; [done|]. simpl.
  destruct (String.eqb k k0) eqn:Hk.
  - intros [= ->]. rewrite fmap_cons. simpl.
    rewrite <- !app_assoc. apply Permutation_app_head, Permutation_app_comm.
  - intros Hl. rewrite fmap_cons. simpl. rewrite IH by done. by rewrite app_assoc.
Qed.

Lemma members_snoc date labelled d conv :
  members date (labelled ++ [(d, conv)])
  = members date labelled ++ (if String.eqb date d then [conv] else []).
Proof.
  unfold members. rewrite filter_app, fmap_app. f_equal.
  rewrite filter_cons. simpl.
  destruct (String.eqb date d) eqn:Hd.
  - apply String.eqb_eq in Hd as ->. by rewrite decide_True.
  - apply String.eqb_neq in Hd. by rewrite decide_False by congruence.
Qed.

Lemma grouped_nil : grouped [] [].
Proof. split; [constructor|]. split; [done|]. done. Qed.

Section Loop.
Context `{ObjectPrototype}.

Lemma grouped_step seen groups date conv :
  grouped seen groups ->
  grouped (seen ++ [(date, conv)])
    (match lookup_key date groups with
     | Some g => put date (g ++ [conv]) groups
     | None => put date [conv] groups
     end).
Proof.
  intros (Hnd & Hl & Hp).
  assert (forall g k,
            lookup_key date groups = (match members date seen with [] => None | l => Some l end) ->
            g = members date seen ++ [conv] ->
            lookup_key k (put date g groups)
            = match members k (seen ++ [(date, conv)]) with
              | [] => None
              | l => Some l
              end) as Hlook.
  { intros g k Hd ->. rewrite lookup_key_put, members_snoc.
    destruct (String.eqb k date) eqn:Hk.
    - apply String.eqb_eq in Hk as ->. by destruct (members date seen).
    - rewrite app_nil_r. apply Hl. }
  destruct (lookup_key date groups) as [g|] eqn:Hg.
  - assert (g = members date seen) as ->.
    { rewrite Hl in Hg. destruct (members date seen); [done|]. by injection Hg. }
    split; [by apply put_keys|]. split.
    + intros k. apply Hlook; [by rewrite <- Hl|done].
    + unfold put. replace (has_key date groups) with true.
      * rewrite concat_replace by done. rewrite fmap_app. simpl. by rewrite Hp.
      * symmetry. destruct (has_key date groups) eqn:Hk; [done|].
        apply has_key_lookup in Hk. congruence.
  - assert (members date seen = []) as Hm.
    { rewrite Hl in Hg. by destruct (members date seen). }
    split; [by apply put_keys|]. split.
    + intros k. apply Hlook; [by rewrite <- Hl|by rewrite Hm].
    + rewrite put_new by (by apply has_key_lookup).
      rewrite fmap_cons, fmap_app. simpl. rewrite Hp. apply Permutation_cons_append.
Qed.

Lemma group_loop_grouped labelled : forall seen groups result,
  grouped seen groups -> group_loop labelled groups = Some result ->
  grouped (seen ++ labelled) result.
Proof.
  induction labelled as [|[date conv] labelled IH]; intros seen groups result Hg.
  - simpl. intros [= <-]. by rewrite app_nil_r.
  - simpl. pose proof (grouped_step seen groups date conv Hg) as Hstep.
    rewrite (cons_middle _ seen labelled), app_assoc.
    destruct (lookup_key date groups) as [g|].
    + by apply IH.
    + destruct (inherited date); [done|]. by apply IH.
Qed.

End Loop.
End GroupProps.

(** ** Lemmas on the delete button *)

Module ClickProps.
Import Js App StreamProps.

Lemma strip_prefix_append p s : strip_prefix p (p +:+ s) = Some s.
Proof.
  induction p as [|c p IH]; [done|].
  rewrite append_cons. simpl. by rewrite Ascii.eqb_refl.
Qed.

(** A plain text is read whole when a character that is not plain follows. *)
Lemma span_plain s c rest :
  plain s = true -> plain_char c = false ->
  span plain_char (s +:+ String c rest) = (s, String c rest).
Proof.
  intros Hs Hc. induction s as [|x s IH].
  - simpl. by rewrite Hc.
  - simpl in Hs. apply andb_prop in Hs as [Hx Hs].
    rewrite append_cons. simpl. rewrite Hx. by rewrite IH.
Qed.

Lemma digit_of_pretty_N_char d :
  (d < 10)%N -> Json.digit_of (pretty_N_char d) = Some (Z.of_N d).
Proof.
  intros Hd.
  assert (d = 0 \/ d = 1 \/ d = 2 \/ d = 3 \/ d = 4 \/ d = 5 \/ d = 6 \/ d = 7
          \/ d = 8 \/ d = 9)%N as Hcases by lia.
  destruct Hcases as [->|[->|[->|[->|[->|[->|[->|[->|[->| ->]]]]]]]]]; reflexivity.
Qed.

(** Reading the digits that [pretty] wrote. *)
Lemma leading_number_pretty_go x : exists k, forall acc s,
  leading_number acc (pretty_N_go x s) = leading_number (acc * 10 ^ k + x)%N s.
Proof.
  induction (N.lt_wf_0 x) as [x _ IH].
  destruct (decide (x = 0)%N) as [->|Hx].
  - exists 0%N. intros acc s. rewrite pretty_N_go_0. f_equal. lia.
  - destruct (IH (x `div` 10)%N) as [k Hk]; [apply N.div_lt; lia|].
    exists (N.succ k). intros acc s.
    rewrite pretty_N_go_step by lia. rewrite Hk. simpl.
    rewrite digit_of_pretty_N_char by (apply N.mod_lt; lia).
    f_equal. rewrite N2Z.id, N.pow_succ_r'.
    pose proof (N.div_mod x 10). lia.
Qed.

Lemma pretty_N_go_append x : forall s t, pretty_N_go x s +:+ t = pretty_N_go x (s +:+ t).
Proof.
  induction (N.lt_wf_0 x) as [x _ IH]. intros s t.
  destruct (decide (x = 0)%N) as [->|Hx]; [by rewrite !pretty_N_go_0|].
  rewrite (pretty_N_go_step x s), (pretty_N_go_step x (s +:+ t)) by lia.
  rewrite IH by (apply N.div_lt; lia). by rewrite append_cons.
Qed.

Lemma leading_number_pretty (n : nat) :
  leading_number 0 (pretty n +:+ ")") = N.of_nat n.
Proof.
  unfold pretty, pretty_nat, pretty, pretty_N.
  case_decide as Hn; [by rewrite Hn|].
  rewrite pretty_N_go_append.
  destruct (leading_number_pretty_go (N.of_nat n)) as [k Hk].
  rewrite Hk. simpl. lia.
Qed.

(** The text of a delete button with a plain id calls [deleteMessage] with
    the id and the index that were pasted into it. *)
Lemma onclick_call_delete messageId index :
  plain messageId = true ->
  onclick_call (delete_onclick messageId index) = Some (messageId, index).
Proof.
  intros Hp. unfold onclick_call, delete_onclick.
  rewrite strip_prefix_append.
  change ("', " +:+ pretty index +:+ ")")
    with (String (Ascii.ascii_of_nat 39) (", " +:+ pretty index +:+ ")")).
  rewrite span_plain by done.
  change (strip_prefix "', " (String (Ascii.ascii_of_nat 39) (", " +:+ pretty index +:+ ")")))
    with (Some (pretty index +:+ ")")).
  cbv iota beta. rewrite leading_number_pretty, Nat2N.id. by rewrite String.eqb_refl.
Qed.

End ClickProps.

(** ** Lemmas on the AbortController *)

Module AbortProps.
Import Js Api Abort StreamProps LineProps.

Lemma later_iter n e : Nat.iter n later (Some (n, e)) = Some (O, e).
Proof.
  assert (forall k, Nat.iter n later (Some (n + k, e)%nat) = Some (k, e)) as Hk.
  { induction n as [|n IH]; intros k; [done|].
    rewrite Nat.iter_succ_r. simpl. apply IH. }
  specialize (Hk O). by rewrite Nat.add_0_r in Hk.
Qed.

Lemma first_abort_none (cs : list Callback) : first_abort (fun _ => None) cs = None.
Proof. unfold first_abort. by induction cs. Qed.

Section Abort.
Context `{Engine} `{TextDecoder}.
Variable options : ChatOptions.

Lemma read_loop_app chunks : forall d buffer rest,
  read_loop options d buffer (map ReadValue chunks ++ rest)
  = read_loop options d buffer (map ReadValue chunks)
    ++ read_loop options (fst (reader_after d buffer chunks))
         (snd (reader_after d buffer chunks)) rest.
Proof.
  induction chunks as [|c chunks IH]; intros d buffer rest; [done|].
  change (map ReadValue (c :: chunks) ++ rest)
    with (ReadValue c :: (map ReadValue chunks ++ rest)).
  change (map ReadValue (c :: chunks)) with (ReadValue c :: map ReadValue chunks).
  rewrite !read_loop_value, IH. simpl. by rewrite app_assoc.
Qed.

Lemma read_loop_signal_value abort_in outside d buffer value rest :
  due outside = None ->
  read_loop_signal options abort_in None outside d buffer (ReadValue value :: rest)
  = flat_map (dispatch_line options)
      (removelast (split_newline (buffer +:+ snd (decode d value))))
    ++ read_loop_signal options abort_in
         (first_abort abort_in
            (flat_map (dispatch_line options)
               (removelast (split_newline (buffer +:+ snd (decode d value))))))
         (later outside) (fst (decode d value))
         (pop_or_empty (split_newline (buffer +:+ snd (decode d value)))) rest.
Proof. intros Hdue. simpl. by rewrite Hdue. Qed.

(** With the signal aborted the next read rejects with its reason. *)
Lemma read_loop_signal_aborted abort_in e outside d buffer reads :
  read_loop_signal options abort_in (Some e) outside d buffer reads
  = catch_handler options e.
Proof. by destruct reads as [|[]]. Qed.

Lemma read_loop_signal_due abort_in e d buffer reads :
  read_loop_signal options abort_in None (Some (O, e)) d buffer reads
  = catch_handler options e.
Proof. by destruct reads as [|[]]. Qed.

(** As long as nobody aborts, the loop under a signal is the loop. *)
Lemma read_loop_signal_prefix abort_in chunks : forall d buffer outside rest,
  omap abort_in (read_loop options d buffer (map ReadValue chunks)) = [] ->
  (forall k e, outside = Some (k, e) -> (length chunks <= k)%nat) ->
  read_loop_signal options abort_in None outside d buffer (map ReadValue chunks ++ rest)
  = read_loop options d buffer (map ReadValue chunks)
    ++ read_loop_signal options abort_in None (Nat.iter (length chunks) later outside)
         (fst (reader_after d buffer chunks)) (snd (reader_after d buffer chunks)) rest.
Proof.
  induction chunks as [|c chunks IH]; intros d buffer outside rest Hq Hout; [done|].
  change (map ReadValue (c :: chunks) ++ rest)
    with (ReadValue c :: (map ReadValue chunks ++ rest)).
  change (map ReadValue (c :: chunks)) with (ReadValue c :: map ReadValue chunks) in *.
  rewrite read_loop_value in Hq |- *.
  rewrite omap_app in Hq. apply app_eq_nil in Hq as [Hcs Hrest].
  assert (due outside = None) as Hdue.
  { destruct outside as [[[|k] e]|]; try done.
    specialize (Hout O e eq_refl). simpl in Hout. lia. }
  rewrite read_loop_signal_value by done.
  unfold first_abort at 1. rewrite Hcs. simpl head.
  rewrite IH; [|done|].
  - rewrite <- app_assoc. simpl length. rewrite Nat.iter_succ_r. done.
  - intros k e Hk. destruct outside as [[[|k'] e']|]; try done.
    injection Hk as <- <-. specialize (Hout (S k') e' eq_refl). simpl in Hout. lia.
Qed.

Lemma read_loop_signal_quiet reads : forall d buffer,
  read_loop_signal options (fun _ => None) None None d buffer reads
  = read_loop options d buffer reads.
Proof.
  induction reads as [|[value| |e] reads IH]; intros d buffer; try done.
  rewrite read_loop_signal_value, read_loop_value by done.
  by rewrite first_abort_none, IH.
Qed.

(** A caller that never aborts gets the callbacks of [sendMessageStream]. *)
Lemma signal_quiet f :
  sendMessageStream_signal options quiet f = sendMessageStream options f.
Proof.
  destruct f as [e|ok status reads]; [done|].
  unfold sendMessageStream_signal, sendMessageStream. simpl.
  destruct ok; [|done]. apply read_loop_signal_quiet.
Qed.

(** An abort while a read is pending. *)
Lemma signal_abort_pending e status chunks rest :
  sendMessageStream_signal options
    {| abort_in := fun _ => None; abort_at := Some (S (length chunks), e) |}
    (StreamResponse true status (map ReadValue chunks ++ rest))
  = stream_events options (decoded (concat chunks)) ++ catch_handler options e.
Proof.
  unfold sendMessageStream_signal. simpl.
  rewrite read_loop_signal_prefix.
  - by rewrite later_iter, read_loop_signal_due, read_loop_pending.
  - generalize (read_loop options decoder_new EmptyString (map ReadValue chunks)).
    intros l. by induction l.
  - by intros k e' [= <- <-].
Qed.

(** An abort from inside a callback of the chunk [chunk]. *)
Lemma signal_abort_in_callback abort_in e status chunks chunk rest :
  omap abort_in (stream_events options (decoded (concat chunks))) = [] ->
  head (omap abort_in (stream_events options (decoded (concat (chunks ++ [chunk])))))
  = Some e ->
  sendMessageStream_signal options {| abort_in := abort_in; abort_at := None |}
    (StreamResponse true status (map ReadValue (chunks ++ [chunk]) ++ rest))
  = stream_events options (decoded (concat (chunks ++ [chunk])))
    ++ catch_handler options e.
Proof.
  intros Hq Hfirst. rewrite <- !read_loop_pending in *.
  unfold sendMessageStream_signal. simpl.
  rewrite map_app, <- app_assoc. simpl.
  rewrite map_app in Hfirst. simpl in Hfirst.
  rewrite read_loop_app in Hfirst |- *.
  rewrite read_loop_signal_prefix by done.
  set (d := fst (reader_after decoder_new EmptyString chunks)) in *.
  set (b := snd (reader_after decoder_new EmptyString chunks)) in *.
  assert (Nat.iter (length chunks) later None = None) as ->.
  { by induction (length chunks) as [|n IH]; [|rewrite Nat.iter_succ_r]. }
  rewrite read_loop_signal_value by done.
  rewrite read_loop_value in Hfirst |- *. simpl in Hfirst |- *.
  rewrite app_nil_r in Hfirst |- *.
  rewrite omap_app, Hq in Hfirst. simpl in Hfirst.
  unfold first_abort. rewrite Hfirst, read_loop_signal_aborted.
  by rewrite app_assoc.
Qed.

End Abort.
End AbortProps.

(** ** The claims *)

Import Js Api App Lines Protocol Abort.
Import StreamProps SourceProps ChatProps LineProps AbortProps.

(** C1, as amended.  Take a stream that is read to its end and whose
    complete lines are empty lines and [data:] lines that carry, in this
    order, [status] events and then one [complete] or [error] event, and a
    caller that gives the three handlers.  Then, however the bytes are cut
    into chunks, [onStatus] is invoked once for each [status] event, in
    their order and with their step, message and agent, then [onComplete] or
    [onError] is invoked once, with the data of the last event, and no
    callback is invoked after it. *)
Theorem sendMessageStream_terminal_callback `{Engine} `{TextDecoder}
    (options : ChatOptions) (status : Z) (chunks : list (list Byte.byte))
    (ls : list string) (tail : string) (statuses : list ExecutionEvent)
    (t : ExecutionEvent) :
  onStatus options = true -> onComplete options = true -> onError options = true ->
  decoded (concat chunks) = lines_text ls +:+ tail ->
  Forall is_line ls -> is_line tail ->
  carries ls (statuses ++ [t]) ->
  Forall (fun e => is_status e = true) statuses -> is_status t = false ->
  sendMessageStream options (StreamResponse true status (map ReadValue chunks ++ [ReadDone]))
  = map event_callback statuses ++ [event_callback t]
  /\ terminal_discipline
       (sendMessageStream options
          (StreamResponse true status (map ReadValue chunks ++ [ReadDone]))).
Proof.
  intros Hs Hc He Htext Hls Htail Hcarries Hstatuses Ht.
  assert (sendMessageStream options
            (StreamResponse true status (map ReadValue chunks ++ [ReadDone]))
          = map event_callback statuses ++ [event_callback t]) as ->.
  { rewrite read_loop_done, Htext, stream_events_lines by done.
    rewrite (carries_dispatch options ls (statuses ++ [t])) by done.
    by rewrite map_app. }
  split; [done|]. apply status_then_terminal_discipline.
  exists (map event_callback statuses), (event_callback t).
  split; [done|]. split; [|by destruct t].
  apply Forall_forall. intros c Hc'.
  apply list_elem_of_fmap in Hc' as (e & -> & Hin).
  rewrite Forall_forall in Hstatuses. specialize (Hstatuses e Hin). by destruct e.
Qed.

Lemma sendMessageStream_terminal_callback_witness :
  @sendMessageStream Reference.engine Reference.text_decoder Reference.all_callbacks
    (StreamResponse true 200 (map ReadValue Reference.two_chunks ++ [ReadDone]))
  = [event_callback Samples.searching; event_callback Samples.done]
  /\ terminal_discipline
       (@sendMessageStream Reference.engine Reference.text_decoder Reference.all_callbacks
          (StreamResponse true 200 (map ReadValue Reference.two_chunks ++ [ReadDone]))).
Proof.
  apply (@sendMessageStream_terminal_callback Reference.engine Reference.text_decoder
           Reference.all_callbacks 200 Reference.two_chunks
           [Samples.status_line; EmptyString; Samples.complete_line] EmptyString
           [Samples.searching] Samples.done).
  - reflexivity.
  - reflexivity.
  - reflexivity.
  - vm_compute. reflexivity.
  - repeat constructor.
  - reflexivity.
  - apply carries_event.
    { eexists _, (event_json Samples.searching).
      split; [reflexivity|]. split; [vm_compute; reflexivity|].
      split; [reflexivity|]. eexists. repeat split. }
    apply carries_empty, carries_event; [|apply carries_nil].
    eexists _, (event_json Samples.done).
    split; [reflexivity|]. split; [vm_compute; reflexivity|]. by split.
  - repeat constructor.
  - reflexivity.
Defined.

(** C1 as stated fails: the terminal callback is invoked for no event when
    the stream is aborted or ends after a [status] event, and twice when the
    stream carries two [complete] events. *)
Lemma sendMessageStream_terminal_callback_counterexample :
  ~ terminal_discipline
      (@sendMessageStream Reference.engine Reference.text_decoder Reference.all_callbacks
         (StreamResponse true 200
            [ReadValue (Reference.bytes (Reference.sse (Reference.status_event "Buscando")));
             ReadFailed Reference.abort_error]))
  /\ ~ terminal_discipline
      (@sendMessageStream Reference.engine Reference.text_decoder Reference.all_callbacks
         (StreamResponse true 200
            [ReadValue (Reference.bytes (Reference.sse (Reference.status_event "Buscando")));
             ReadDone]))
  /\ ~ terminal_discipline
      (@sendMessageStream Reference.engine Reference.text_decoder Reference.all_callbacks
         (StreamResponse true 200
            [ReadValue (Reference.bytes (Reference.sse (Reference.complete_event "Pronto")));
             ReadValue (Reference.bytes (Reference.sse (Reference.complete_event "Pronto")));
             ReadDone])).
Proof.
  repeat split; intros [Hcount _]; vm_compute in Hcount; discriminate.
Qed.

(** C2, as amended.  The sources shown under a message are deduplicated by
    the key string document|section|page: the deduplicated list has one entry
    for the key of every source of the message, the list shown is its first
    five entries in the order of the source list, and so no key and no
    (document, section, page) is shown twice; every key is shown once when
    there are at most five distinct keys. *)
Theorem displayed_sources_deduplicated (msg : Message) (shown : list Source) :
  message_sources msg = Some shown ->
  exists md l,
    metadata msg = Some md /\ sources md = Some l
    /\ shown = take 5 (uniqueSources l)
    /\ shown `sublist_of` l
    /\ NoDup (sourceKey <$> shown)
    /\ (forall i j a b, shown !! i = Some a -> shown !! j = Some b ->
          source_tuple a = source_tuple b -> i = j)
    /\ (forall s, s ∈ l ->
          length (filter (fun d => sourceKey d = sourceKey s) (uniqueSources l)) = 1%nat)
    /\ ((length (uniqueSources l) <= 5)%nat ->
        forall s, s ∈ l ->
          length (filter (fun d => sourceKey d = sourceKey s) shown) = 1%nat).
Proof.
  unfold message_sources. intros Hm.
  destruct (isUser msg); [done|].
  destruct (metadata msg) as [md|]; [|done].
  destruct (sources md) as [[|s l]|] eqn:Hs; [done| |done].
  injection Hm as <-. exists md, (s :: l).
  split; [done|]. split; [done|]. split; [done|].
  split; [apply displaySources_sublist|].
  split; [apply displaySources_NoDup|].
  split; [|split].
  - intros i j a b Hi Hj Ht.
    eapply NoDup_key_lookup; eauto using displaySources_NoDup, source_tuple_key.
  - intros x Hx. by apply uniqueSources_once.
  - intros Hlen x Hx. unfold displaySources. rewrite take_ge by done.
    by apply uniqueSources_once.
Qed.

Lemma displayed_sources_deduplicated_witness :
  NoDup (sourceKey <$>
           displaySources (Reference.six_sources ++ [Reference.src "a.pdf" 1 (1 # 10)])).
Proof.
  destruct (displayed_sources_deduplicated
              (Reference.answer (Reference.six_sources ++ [Reference.src "a.pdf" 1 (1 # 10)]))
              (displaySources (Reference.six_sources ++ [Reference.src "a.pdf" 1 (1 # 10)]))
              eq_refl)
    as (md & l & Hmd & Hl & Hshown & _ & Hnd & _).
  exact Hnd.
Defined.

(** C2 as stated fails: of seven sources whose last two have the same
    (document, section, page), the sixth distinct one, that one is not shown
    at all. *)
Lemma displayed_sources_deduplicated_counterexample :
  let f := Reference.src "f.pdf" 6 (9 # 10) in
  let l := Reference.six_sources ++ [f] in
  l !! 5%nat = Some f /\ l !! 6%nat = Some f
  /\ exists shown, message_sources (Reference.answer l) = Some shown
       /\ Forall (fun d => source_tuple d <> source_tuple f) shown.
Proof.
  repeat split. eexists. split; [vm_compute; reflexivity|].
  repeat constructor; discriminate.
Qed.

(** C3, as amended.  At most five sources are shown: the first five of the
    deduplicated list.  The deduplicated list holds, for every key of the
    source list, the first source of that key and no other, in the order of
    the source list, which the script does not sort.  So the sources shown
    are the deduplicated sources of the highest relevance scores when the
    source list arrives in descending order of relevance. *)
Theorem displayed_sources_first_five (l : list Source) :
  displaySources l = take 5 (first_occurrences l)
  /\ (length (displaySources l) <= 5)%nat
  /\ uniqueSources l = first_occurrences l
  /\ NoDup (sourceKey <$> uniqueSources l)
  /\ (forall s, s ∈ l -> exists u, u ∈ uniqueSources l /\ sourceKey u = sourceKey s)
  /\ (forall u, u ∈ uniqueSources l ->
        head (filter (fun x => sourceKey x = sourceKey u) l) = Some u)
  /\ uniqueSources l `sublist_of` l
  /\ displaySources l ++ drop 5 (uniqueSources l) = uniqueSources l
  /\ (StronglySorted (fun a b => (relevance_score b <= relevance_score a)%Q) l ->
      forall a b, a ∈ displaySources l -> b ∈ drop 5 (uniqueSources l) ->
        (relevance_score b <= relevance_score a)%Q).
Proof.
  unfold displaySources.
  split; [by rewrite uniqueSources_first_occurrences|].
  split; [rewrite length_take; lia|].
  split; [apply uniqueSources_first_occurrences|].
  split; [apply uniqueSources_NoDup|].
  split; [|split; [|split; [apply unique_loop_sublist|split; [apply take_drop|]]]].
  - intros s Hs.
    assert (sourceKey s ∈ sourceKey <$> uniqueSources l) as Hk.
    { apply unique_loop_complete; [done|set_solver]. }
    apply list_elem_of_fmap in Hk as (u & Hk & Hu). by exists u.
  - intros u Hu. rewrite uniqueSources_first_occurrences in Hu.
    by apply first_occurrences_head.
  - intros Hsorted a b Ha Hb.
    set (R := fun a b : Source => (relevance_score b <= relevance_score a)%Q) in *.
    change (R a b).
    eapply StronglySorted_app_1_elem_of; [|exact Ha|exact Hb].
    rewrite take_drop. eapply StronglySorted_sublist; [|exact Hsorted].
    apply unique_loop_sublist.
Qed.

Lemma displayed_sources_first_five_witness :
  Forall (fun a => (relevance_score (Reference.src "a.pdf" 1 (1 # 10)) <= relevance_score a)%Q)
    (displaySources Reference.sorted_sources).
Proof.
  destruct (displayed_sources_first_five Reference.sorted_sources)
    as (_ & _ & _ & _ & _ & _ & _ & _ & Htop).
  apply Forall_forall. intros a Ha. apply Htop; [|done|].
  - unfold Reference.sorted_sources.
    repeat (constructor; [|repeat constructor; vm_compute; discriminate]).
    constructor.
  - vm_compute. apply list_elem_of_singleton. reflexivity.
Defined.

(** C3 as stated fails: of six sources of six documents the five shown are
    the first five, and the sixth, which has the highest relevance score of
    all, is not among them. *)
Lemma displayed_sources_first_five_counterexample :
  let f := Reference.src "f.pdf" 6 (9 # 10) in
  uniqueSources Reference.six_sources = Reference.six_sources
  /\ f ∈ uniqueSources Reference.six_sources
  /\ displaySources Reference.six_sources = take 5 Reference.six_sources
  /\ Forall (fun d => (relevance_score d < relevance_score f)%Q /\ d <> f)
       (displaySources Reference.six_sources).
Proof.
  repeat split; try (vm_compute; reflexivity).
  - set_solver.
  - repeat constructor; discriminate.
Qed.




(** C5, as amended.  The caller cancels through the [AbortController] that
    [sendMessageStream] returns.  An abort takes effect when the fetch or
    the read that is pending, or the next read, rejects with the reason of
    the signal; until then the stream goes on, so the lines of a chunk
    during whose dispatch [abort] was called are all delivered.  Once it has
    taken effect no event is delivered to any callback: the callbacks are
    those of the chunks read until then.  An abort whose reason is an
    [AbortError], as is that of [abort()], is not surfaced through
    [onError]; an abort with another reason is surfaced, once, as a
    [stream_error] with the message of the reason; [onError] is invoked for
    a rejection only when that is no [AbortError].  A caller that does not
    abort gets the callbacks of the stream. *)
Theorem sendMessageStream_abort `{Engine} `{TextDecoder} (options : ChatOptions) (e : Exn)
    (status : Z) (chunks : list (list Byte.byte)) (rest : list ReadResult) :
  (forall f,
     sendMessageStream_signal options
       {| abort_in := fun _ => None; abort_at := Some (O, e) |} f
     = catch_handler options e)
  /\ sendMessageStream_signal options
       {| abort_in := fun _ => None; abort_at := Some (S (length chunks), e) |}
       (StreamResponse true status (map ReadValue chunks ++ rest))
     = stream_events options (decoded (concat chunks)) ++ catch_handler options e
  /\ (forall abort_in chunk,
        omap abort_in (stream_events options (decoded (concat chunks))) = [] ->
        head (omap abort_in
                (stream_events options (decoded (concat (chunks ++ [chunk]))))) = Some e ->
        sendMessageStream_signal options {| abort_in := abort_in; abort_at := None |}
          (StreamResponse true status (map ReadValue (chunks ++ [chunk]) ++ rest))
        = stream_events options (decoded (concat (chunks ++ [chunk])))
          ++ catch_handler options e)
  /\ (exn_name e = "AbortError" -> catch_handler options e = [])
  /\ (exn_name e <> "AbortError" -> onError options = true ->
      catch_handler options e
      = [OnError (JObj [("error", JStr "stream_error"); ("message", JStr (exn_message e))])])
  /\ (forall c, c ∈ catch_handler options e -> exn_name e <> "AbortError")
  /\ (forall f, sendMessageStream_signal options quiet f = sendMessageStream options f).
Proof.
  split; [done|]. split; [apply signal_abort_pending|].
  split; [intros abort_in chunk; apply signal_abort_in_callback|].
  split; [|split; [|split]].
  - intros He. unfold catch_handler. by rewrite He.
  - intros Hname Hon. unfold catch_handler. rewrite Hon.
    destruct (String.eqb (exn_name e) "AbortError") eqn:Heq; [|done].
    by apply String.eqb_eq in Heq.
  - intros c Hc Hname. unfold catch_handler in Hc. rewrite Hname in Hc.
    simpl in Hc. by apply elem_of_nil in Hc.
  - apply signal_quiet.
Qed.

Lemma sendMessageStream_abort_witness :
  @sendMessageStream_signal Reference.engine Reference.text_decoder Reference.all_callbacks
    {| abort_in := fun _ => None;
       abort_at := Some (S (length Reference.two_chunks), Reference.abort_error) |}
    (StreamResponse true 200 (map ReadValue Reference.two_chunks ++ [ReadDone]))
  = [event_callback Samples.searching; event_callback Samples.done]
  /\ @catch_handler Reference.all_callbacks Reference.abort_error = [].
Proof.
  destruct (@sendMessageStream_abort Reference.engine Reference.text_decoder
              Reference.all_callbacks Reference.abort_error 200 Reference.two_chunks
              [ReadDone])
    as (_ & Hpending & _ & Hname & _).
  split; [|by apply Hname]. rewrite Hpending. reflexivity.
Defined.

(** C5 as stated fails: an abort with a reason that is no [AbortError] is
    surfaced through [onError]; and when [abort()] is called by the handler
    of a status event, the [complete] event of the same chunk is still
    delivered. *)
Lemma sendMessageStream_abort_counterexample :
  @sendMessageStream_signal Reference.engine Reference.text_decoder Reference.all_callbacks
    {| abort_in := fun _ => None; abort_at := Some (1%nat, Samples.timeout) |}
    (StreamResponse true 200 [ReadValue Samples.one_chunk; ReadDone])
  = [OnError (JObj [("error", JStr "stream_error"); ("message", JStr "timeout")])]
  /\ @sendMessageStream_signal Reference.engine Reference.text_decoder
       Reference.all_callbacks
       {| abort_in := Samples.abort_on_status; abort_at := None |}
       (StreamResponse true 200 [ReadValue Samples.one_chunk; ReadDone])
     = [event_callback Samples.searching; event_callback Samples.done]
  /\ Samples.abort_on_status (event_callback Samples.searching)
     = Some Reference.abort_error.
Proof. repeat split. Qed.

(** C6.  [ChatAPI.sendMessage] and [ChatAPI.sendMessageStream] send the same
    body, the JSON text of an object with the properties [message],
    [client_id], [contract_id], [conversation_id] and [include_sources] (and
    [include_debug] after them).  [contract_id] and [conversation_id] are
    [null] when the option is not given and the option when it is given and
    truthy; [include_sources] is [false] when [includeSources] is [false] and
    [true] for every other value. *)
Theorem chat_request_body (message clientId : string) (options : ChatOptions) :
  let data := chat_data message clientId options in
  req_body (ChatAPI_sendMessage message clientId options) = TextBody (Json.JSON_stringify data)
  /\ req_body (ChatAPI_sendMessageStream_fetch message clientId options)
     = TextBody (Json.JSON_stringify data)
  /\ Json.JSON_stringify data =
     "{" +:+ join ","
       [Json.member "message" (JStr message);
        Json.member "client_id" (JStr clientId);
        Json.member "contract_id" (or_else (contractId options) JNull);
        Json.member "conversation_id" (or_else (conversationId options) JNull);
        Json.member "include_sources" (JBool (not_false (includeSources options)));
        Json.member "include_debug" (or_else (includeDebug options) (JBool false))] +:+ "}"
  /\ get data "message" = Some (JStr message)
  /\ get data "client_id" = Some (JStr clientId)
  /\ (contractId options = JUndefined -> get data "contract_id" = Some JNull)
  /\ (conversationId options = JUndefined -> get data "conversation_id" = Some JNull)
  /\ (truthy (contractId options) = true ->
      get data "contract_id" = Some (contractId options))
  /\ (truthy (conversationId options) = true ->
      get data "conversation_id" = Some (conversationId options))
  /\ (includeSources options = JBool false -> get data "include_sources" = Some (JBool false))
  /\ (includeSources options <> JBool false -> get data "include_sources" = Some (JBool true)).
Proof.
  intros data.
  split; [reflexivity|]. split; [reflexivity|]. split; [apply chat_data_text|].
  unfold data, chat_data. simpl. repeat split.
  - intros ->. reflexivity.
  - intros ->. reflexivity.
  - unfold or_else. by intros ->.
  - unfold or_else. by intros ->.
  - intros ->. reflexivity.
  - intros Hne. destruct (includeSources options) as [| |[]| | | |]; done.
Qed.

Lemma chat_request_body_witness :
  get (chat_data "Qual o reajuste?" "c1" Reference.all_callbacks) "contract_id" = Some JNull
  /\ get (chat_data "Qual o reajuste?" "c1" Reference.all_callbacks) "include_sources"
     = Some (JBool true).
Proof.
  destruct (chat_request_body "Qual o reajuste?" "c1" Reference.all_callbacks)
    as (_ & _ & _ & _ & _ & Hc & _ & _ & _ & _ & Hs).
  split; [apply Hc; reflexivity|apply Hs; discriminate].
Defined.

(** C8, as amended.  [apiRequest] resolves only for a response whose status
    is ok, and then with the parsed body, provided the body parses as JSON;
    when the body of an ok response does not parse it rejects with the
    [SyntaxError] of the parse.  For every response that is not ok it
    rejects; the message of the error is the [detail] of the JSON error body
    when that is a non-empty string, and [HTTP error <status>] when the body
    does not parse. *)
Theorem apiRequest_settles `{Engine} (response : Response) :
  (forall v, apiRequest (FetchResponse response) = Resolved v <->
             ok response = true /\ JSON_parse (body_text response) = Some v)
  /\ (ok response = true -> JSON_parse (body_text response) = None ->
      apiRequest (FetchResponse response)
      = Rejected (MkExn "SyntaxError" (syntax_error_message (body_text response))))
  /\ (ok response = false -> exists e, apiRequest (FetchResponse response) = Rejected e)
  /\ (ok response = false ->
      forall props detail,
        JSON_parse (body_text response) = Some (JObj props) ->
        assoc "detail" props = JStr detail -> detail <> EmptyString ->
        apiRequest (FetchResponse response) = Rejected (MkExn "Error" detail))
  /\ (ok response = false -> JSON_parse (body_text response) = None ->
      apiRequest (FetchResponse response)
      = Rejected (MkExn "Error" ("HTTP error " +:+ pretty (status response)))).
Proof.
  unfold apiRequest. destruct (ok response) eqn:Hok; simpl.
  - split; [|split; [|split; [done|split; done]]].
    + intros v. split.
      * destruct (JSON_parse (body_text response)); [|done]. by intros [= ->].
      * by intros [_ ->].
    + by intros _ ->.
  - split; [|split; [done|split; [|split]]].
    + intros v. split; [|by intros [? _]].
      destruct (JSON_parse (body_text response)) as [e|]; simpl;
        [destruct (get e "detail")|]; done.
    + intros _. destruct (JSON_parse (body_text response)) as [e|]; simpl;
        [destruct (get e "detail")|]; eauto.
    + intros _ props detail -> Hd Hne. simpl. rewrite Hd.
      unfold or_else. simpl.
      destruct (String.eqb detail EmptyString) eqn:Heq; [|done].
      by apply String.eqb_eq in Heq.
    + by intros _ ->.
Qed.

Lemma apiRequest_settles_witness :
  @apiRequest Reference.engine (FetchResponse Reference.error_422)
  = Rejected (MkExn "Error" "client_id obrigatorio").
Proof.
  destruct (@apiRequest_settles Reference.engine Reference.error_422)
    as (_ & _ & _ & Hdetail & _).
  apply (Hdetail eq_refl [("detail", JStr "client_id obrigatorio")]);
    [reflexivity|reflexivity|done].
Defined.

(** C8 as stated fails: a response whose status is ok and whose body is
    empty is rejected, not resolved; and the message for an error body whose
    [detail] is a list is not that detail. *)
Lemma apiRequest_settles_counterexample :
  ok Reference.no_content = true
  /\ @apiRequest Reference.engine (FetchResponse Reference.no_content)
     = Rejected (MkExn "SyntaxError" "Unexpected end of JSON input")
  /\ @apiRequest Reference.engine (FetchResponse Reference.validation_422)
     = Rejected (MkExn "Error" "[object Object]").
Proof. repeat split. Qed.

(** C9.  The callbacks of [sendMessageStream] do not depend on how the byte
    sequence of the stream is cut into chunks: whatever the partition, they
    are, with their arguments and in their order, the callbacks of the whole
    sequence read as one chunk. *)
Theorem sendMessageStream_rechunk `{Engine} `{TextDecoder} (options : ChatOptions)
    (status : Z) (stream : list Byte.byte) (chunks : list (list Byte.byte))
    (tail : list ReadResult) :
  concat chunks = stream ->
  sendMessageStream options (StreamResponse true status (map ReadValue chunks ++ tail))
  = sendMessageStream options (StreamResponse true status (ReadValue stream :: tail)).
Proof.
  intros <-. simpl. by apply read_loop_chunks.
Qed.

Lemma sendMessageStream_rechunk_witness :
  @sendMessageStream Reference.engine Reference.text_decoder Reference.all_callbacks
    (StreamResponse true 200 (map ReadValue Reference.two_chunks ++ [ReadDone]))
  = @sendMessageStream Reference.engine Reference.text_decoder Reference.all_callbacks
      (StreamResponse true 200 (ReadValue (concat Reference.two_chunks) :: [ReadDone])).
Proof.
  apply (@sendMessageStream_rechunk Reference.engine Reference.text_decoder).
  reflexivity.
Defined.

(** C10.  The guard is as the claim says: when the trimmed input is empty,
    no client is selected or a send is under way, [sendMessage] leaves the
    application state, the page and the list of requests as they are.  But
    [isSending] is one flag, and the callbacks do not say which request they
    belong to.  A stream whose [complete] event is followed by a read that
    fails invokes [onComplete] and then [onError]; when that [onError] comes
    after the next question was sent, it clears [isSending] with the second
    request in flight, and the guard lets a third request out beside it. *)
Theorem sendMessage_guard `{Engine} :
  (forall w,
     String_trim (chatInput_value (dom w)) = EmptyString
     \/ selectedClient (app w) = None
     \/ isSending (app w) = true ->
     sendMessage w = w)
  /\ @sendMessageStream Reference.engine Reference.text_decoder Reference.all_callbacks
       (StreamResponse true 200
          [ReadValue (Reference.bytes (Reference.sse (Reference.complete_event "Pronto")));
           ReadFailed Samples.network_error])
     = [event_callback Samples.done; OnError Reference.stream_error]
  /\ (let s := @run Reference.engine (take 6 Reference.late_failure) initial in
      terminals s = [2; 0]%nat /\ in_flight s = 1%nat
      /\ isSending (app (world s)) = false)
  /\ (let s := @run Reference.engine Reference.late_failure initial in
      terminals s = [2; 0; 0]%nat /\ in_flight s = 2%nat
      /\ chat_calls (world s) = 3%nat).
Proof.
  split; [|by vm_compute].
  intros w Hg. apply sendMessage_blocked. unfold blocked.
  destruct Hg as [-> | [-> | ->]]; simpl; by rewrite ?orb_true_r.
Qed.

(** ** Beyond the claims *)

(** ** Further properties of the API client *)

Import Web Lines WebProps LineProps.

(** X1.  A stream that is read to its end, or that stays open, has invoked
    the callbacks of its complete lines and of nothing else: the text after
    the last newline is never dispatched, even if it is a whole event, and
    nothing the reader would deliver after [done] is looked at. *)
Theorem sendMessageStream_complete_lines `{Engine} `{TextDecoder} (options : ChatOptions)
    (status : Z) (chunks : list (list Byte.byte)) (ls : list string) (tail : string)
    (rest : list ReadResult) :
  decoded (concat chunks) = lines_text ls +:+ tail ->
  Forall is_line ls -> is_line tail ->
  sendMessageStream options
    (StreamResponse true status (map ReadValue chunks ++ ReadDone :: rest))
  = flat_map (dispatch_line options) ls
  /\ sendMessageStream options (StreamResponse true status (map ReadValue chunks))
     = flat_map (dispatch_line options) ls.
Proof.
  intros Htext Hls Htail. unfold sendMessageStream. simpl negb. cbv iota.
  split.
  - rewrite read_loop_chunks by done. rewrite read_loop_value. simpl.
    rewrite app_nil_r. fold (decoded (concat chunks)).
    rewrite Htext. by apply stream_events_lines.
  - rewrite read_loop_pending, Htext. by apply stream_events_lines.
Qed.

Lemma sendMessageStream_complete_lines_witness :
  @sendMessageStream Reference.engine Reference.text_decoder Reference.all_callbacks
    (StreamResponse true 200 (map ReadValue Samples.cut_short ++ [ReadDone]))
  = @flat_map _ _ (@dispatch_line Reference.engine Reference.all_callbacks)
      [Samples.status_line; EmptyString]
  /\ @sendMessageStream Reference.engine Reference.text_decoder Reference.all_callbacks
       (StreamResponse true 200 (map ReadValue Samples.cut_short))
     = @flat_map _ _ (@dispatch_line Reference.engine Reference.all_callbacks)
         [Samples.status_line; EmptyString].
Proof.
  apply (@sendMessageStream_complete_lines Reference.engine Reference.text_decoder
           Reference.all_callbacks 200 Samples.cut_short
           [Samples.status_line; EmptyString] Samples.complete_line []).
  - vm_compute. reflexivity.
  - repeat constructor.
  - vm_compute. reflexivity.
Defined.

(** X2.  Only the lines that start with [data: ] and hold JSON count: the
    callbacks of a stream are those of its event lines alone, so comment
    lines, empty lines and lines that do not parse change nothing, and
    there are never more callbacks than event lines. *)
Theorem sendMessageStream_event_lines `{Engine} `{TextDecoder} (options : ChatOptions)
    (status : Z) (chunks : list (list Byte.byte)) (ls : list string) (tail : string) :
  decoded (concat chunks) = lines_text ls +:+ tail ->
  Forall is_line ls -> is_line tail ->
  sendMessageStream options (StreamResponse true status (map ReadValue chunks ++ [ReadDone]))
  = flat_map (dispatch_line options) (filter (fun l => is_event_line l = true) ls)
  /\ (length (sendMessageStream options
                (StreamResponse true status (map ReadValue chunks ++ [ReadDone])))
      <= length (filter (fun l => is_event_line l = true) ls))%nat.
Proof.
  intros Htext Hls Htail.
  assert (sendMessageStream options
            (StreamResponse true status (map ReadValue chunks ++ [ReadDone]))
          = flat_map (dispatch_line options) ls) as ->.
  { rewrite read_loop_done, Htext. by apply stream_events_lines. }
  rewrite flat_map_events. split; [done|]. apply flat_map_length.
Qed.

Lemma sendMessageStream_event_lines_witness :
  @sendMessageStream Reference.engine Reference.text_decoder Reference.all_callbacks
    (StreamResponse true 200 (map ReadValue Samples.noisy ++ [ReadDone]))
  = @flat_map _ _ (@dispatch_line Reference.engine Reference.all_callbacks)
      (filter (fun l => @is_event_line Reference.engine l = true) Samples.noisy_lines)
  /\ (length (@sendMessageStream Reference.engine Reference.text_decoder
                Reference.all_callbacks
                (StreamResponse true 200 (map ReadValue Samples.noisy ++ [ReadDone])))
      <= length (filter (fun l => @is_event_line Reference.engine l = true)
                   Samples.noisy_lines))%nat.
Proof.
  apply (@sendMessageStream_event_lines Reference.engine Reference.text_decoder
           Reference.all_callbacks 200 Samples.noisy Samples.noisy_lines EmptyString).
  - vm_compute. reflexivity.
  - repeat constructor.
  - vm_compute. reflexivity.
Defined.

(** X3.  [sendMessageStream] invokes no handler that its caller left out:
    whatever the fetch and the reader deliver, every callback invoked is one
    of a handler present in the options. *)
Theorem sendMessageStream_handlers_present `{Engine} `{TextDecoder} (options : ChatOptions)
    (f : StreamFetch) :
  Forall (fun c => handler_present options c = true) (sendMessageStream options f).
Proof.
  apply Forall_forall. intros c Hc. unfold sendMessageStream in Hc.
  destruct f as [e|ok status reads].
  - by eapply catch_handler_present.
  - destruct (negb ok).
    + by eapply catch_handler_present.
    + by eapply read_loop_present.
Qed.

(** X4.  A failure that is no abort is reported once, after the events
    already read: a failed fetch and a response that is not ok give one
    [onError] with the code [stream_error] and nothing of the body is read;
    a read that fails gives the events of the chunks read before it and then
    the one [onError]. *)
Theorem sendMessageStream_failure_reported `{Engine} `{TextDecoder} (options : ChatOptions)
    (e : Exn) :
  exn_name e <> "AbortError" -> onError options = true ->
  let report message :=
    OnError (JObj [("error", JStr "stream_error"); ("message", JStr message)]) in
  sendMessageStream options (StreamFailed e) = [report (exn_message e)]
  /\ (forall status reads,
        sendMessageStream options (StreamResponse false status reads)
        = [report ("HTTP error! status: " +:+ to_string (JNum status))])
  /\ (forall status chunks rest,
        sendMessageStream options
          (StreamResponse true status (map ReadValue chunks ++ ReadFailed e :: rest))
        = stream_events options (decoded (concat chunks)) ++ [report (exn_message e)]).
Proof.
  intros Hname Hon report.
  assert (catch_handler options e = [report (exn_message e)]) as Hcatch.
  { unfold catch_handler. rewrite Hon.
    destruct (String.eqb (exn_name e) "AbortError") eqn:Heq; [|done].
    by apply String.eqb_eq in Heq. }
  split; [exact Hcatch|]. split.
  - intros status reads. unfold sendMessageStream, catch_handler. simpl. by rewrite Hon.
  - intros status chunks rest. unfold sendMessageStream. simpl negb. cbv iota.
    by rewrite read_loop_failed, Hcatch, read_loop_pending.
Qed.

Lemma sendMessageStream_failure_reported_witness :
  @sendMessageStream Reference.engine Reference.text_decoder Reference.all_callbacks
    (StreamFailed Samples.network_error)
  = [OnError (JObj [("error", JStr "stream_error"); ("message", JStr "network error")])].
Proof.
  pose proof (@sendMessageStream_failure_reported Reference.engine Reference.text_decoder
                Reference.all_callbacks Samples.network_error) as Hreport.
  cbv zeta in Hreport. apply Hreport.
  - discriminate.
  - reflexivity.
Defined.

(** X5.  The query of [sendSimpleMessage] reads back as what was given: the
    message and the client id, whatever characters they hold, and the
    contract id exactly when it is truthy.  The request is a POST without a
    body. *)
Theorem sendSimpleMessage_query (message clientId : string) (contractId : JValue) :
  parse_query <$> url_query (req_url (ChatAPI_sendSimpleMessage message clientId contractId))
  = Some ([("message", message); ("client_id", clientId)]
          ++ (if truthy contractId then [("contract_id", to_string contractId)] else []))
  /\ req_method (ChatAPI_sendSimpleMessage message clientId contractId) = Some "POST"
  /\ req_body (ChatAPI_sendSimpleMessage message clientId contractId) = NoBody.
Proof.
  split; [|done].
  unfold ChatAPI_sendSimpleMessage, apiRequest_fetch. cbn [req_url].
  change (url_query (API_BASE +:+ "/chat/simple?" +:+
            URLSearchParams_toString (simple_params message clientId contractId)))
    with (Some (URLSearchParams_toString (simple_params message clientId contractId))).
  cbn [fmap option_fmap option_map]. by rewrite parse_query_toString.
Qed.

(** X6.  The query of [CostsAPI.getSummary] reads back as the client id,
    followed by the contract id exactly when it is truthy. *)
Theorem getSummary_query (clientId : string) (contractId : JValue) :
  parse_query <$> url_query (req_url (CostsAPI_getSummary clientId contractId))
  = Some (("client_id", clientId)
          :: (if truthy contractId then [("contract_id", to_string contractId)] else [])).
Proof.
  unfold CostsAPI_getSummary, get_request, apiRequest_fetch. cbn [req_url].
  match goal with
  | |- context [URLSearchParams_toString ?e] =>
      change (url_query (API_BASE +:+ "/costs/summary?" +:+ URLSearchParams_toString e))
        with (Some (URLSearchParams_toString e))
  end.
  cbn [fmap option_fmap option_map]. rewrite parse_query_toString.
  by destruct (truthy contractId).
Qed.

(** X7.  [ClientsAPI.list] and [ClientsAPI.getContracts] ask with a query
    exactly when they are given a parameter: without one the URL has no
    question mark, with one the query reads back as the parameters, each
    value as a string. *)
Theorem ClientsAPI_query (clientId : string) (params : list (string * JValue)) :
  parse_query <$> url_query (req_url (ClientsAPI_list params))
  = match params with
    | [] => None
    | _ => Some (URLSearchParams_of params)
    end
  /\ exists query,
       req_url (ClientsAPI_getContracts clientId params)
       = API_BASE +:+ "/clients/" +:+ clientId +:+ "/contracts" +:+ query
       /\ match params with
          | [] => query = EmptyString
          | _ => exists q, query = "?" +:+ q /\ parse_query q = URLSearchParams_of params
          end.
Proof.
  unfold ClientsAPI_list, ClientsAPI_getContracts, get_request, apiRequest_fetch, with_query.
  cbn [req_url].
  destruct params as [|kv params].
  - split; [done|]. exists EmptyString. split; [|done].
    simpl. by rewrite !append_empty_r.
  - destruct (String.eqb _ EmptyString) eqn:Hq.
    { apply String.eqb_eq in Hq. by apply toString_nonempty in Hq. }
    split.
    + match goal with
      | |- context [URLSearchParams_toString ?e] =>
          change (url_query (API_BASE +:+ "/clients/" +:+ "?" +:+ URLSearchParams_toString e))
            with (Some (URLSearchParams_toString e))
      end.
      cbn [fmap option_fmap option_map]. by rewrite parse_query_toString.
    + exists ("?" +:+ URLSearchParams_toString (URLSearchParams_of (kv :: params))). split.
      * by rewrite !append_assoc.
      * eexists. split; [reflexivity|]. by rewrite parse_query_toString.
Qed.

(** X8.  In the query of [ConversationsAPI.list], [DocumentsAPI.list] and
    [CostsAPI.getRecords] every name is bound to the last value the caller's
    parameters give it, and [client_id] is bound to the client id unless the
    parameters have a [client_id] of their own, which then replaces it. *)
Theorem client_list_queries (clientId : string) (params : list (string * JValue))
    (k : string) :
  Forall
    (fun request =>
       exists entries,
         parse_query <$> url_query (req_url request) = Some entries
         /\ lookup_key k entries
            = match lookup_key k (rev params) with
              | Some v => Some (to_string v)
              | None => if String.eqb k "client_id" then Some clientId else None
              end)
    [ConversationsAPI_list clientId params; DocumentsAPI_list clientId params;
     CostsAPI_getRecords clientId params].
Proof.
  assert (lookup_key k (parse_query (client_query clientId params))
          = match lookup_key k (rev params) with
            | Some v => Some (to_string v)
            | None => if String.eqb k "client_id" then Some clientId else None
            end) as Hk.
  { unfold client_query.
    rewrite parse_query_toString, lookup_key_of, lookup_key_spread_last.
    destruct (lookup_key k (rev params)); [done|]. simpl.
    by destruct (String.eqb k "client_id"). }
  unfold ConversationsAPI_list, DocumentsAPI_list, CostsAPI_getRecords, get_request,
    apiRequest_fetch. cbn [req_url].
  repeat constructor; exists (parse_query (client_query clientId params)); (split; [|exact Hk]).
  - change (url_query (API_BASE +:+ "/conversations/?" +:+ client_query clientId params))
      with (Some (client_query clientId params)). done.
  - change (url_query (API_BASE +:+ "/documents/?" +:+ client_query clientId params))
      with (Some (client_query clientId params)). done.
  - change (url_query (API_BASE +:+ "/costs/records?" +:+ client_query clientId params))
      with (Some (client_query clientId params)). done.
Qed.

(** X9.  A request with a [FormData] body carries no header spelled
    [Content-Type], and every header of another spelling, [content-type]
    included, as the caller gave it; without headers from the caller it
    carries none.  A request with another body carries the caller's headers
    and no other when the caller gives headers, and [Content-Type:
    application/json] alone otherwise. *)
Theorem apiRequest_content_type (endpoint : string) (options : RequestOptions) :
  let given :=
    default [("Content-Type", "application/json")] (opt_headers options) in
  let sent := req_headers (apiRequest_fetch endpoint options) in
  (is_FormData (opt_body options) = true ->
     lookup_key "Content-Type" sent = None
     /\ (forall k, k <> "Content-Type" -> lookup_key k sent = lookup_key k given)
     /\ sent `sublist_of` given
     /\ (opt_headers options = None -> sent = []))
  /\ (is_FormData (opt_body options) = false -> sent = given).
Proof.
  intros given sent. subst given sent. unfold apiRequest_fetch. cbn [req_headers].
  destruct (is_FormData (opt_body options)).
  - split; [|done]. intros _.
    assert (match opt_headers options with
            | Some h => h
            | None => [("Content-Type", "application/json")]
            end = default [("Content-Type", "application/json")] (opt_headers options))
      as -> by (by destruct (opt_headers options)).
    split; [apply lookup_key_filter|]. split; [|split].
    + intros k Hk.
      induction (default _ (opt_headers options)) as [|[k0 v0] h IH]; [done|].
      rewrite filter_cons. case_decide as Hk0; simpl in *.
      * rewrite IH. done.
      * rewrite IH. destruct (String.eqb k k0) eqn:He; [|done].
        apply String.eqb_eq in He. subst k0. tauto.
    + apply sublist_filter.
    + intros ->. simpl. by rewrite filter_cons_False by (simpl; tauto).
  - split; [done|]. intros _. by destruct (opt_headers options).
Qed.

Lemma apiRequest_content_type_witness :
  lookup_key "Content-Type"
    (req_headers
       (apiRequest_fetch "/upload/contract"
          {| opt_method := Some "POST";
             opt_headers := Some [("Content-Type", "text/plain"); ("content-type", "x/y")];
             opt_body := FormDataBody [("file", "plano.pdf")] |})) = None
  /\ lookup_key "content-type"
       (req_headers
          (apiRequest_fetch "/upload/contract"
             {| opt_method := Some "POST";
                opt_headers := Some [("Content-Type", "text/plain"); ("content-type", "x/y")];
                opt_body := FormDataBody [("file", "plano.pdf")] |})) = Some "x/y".
Proof.
  destruct (apiRequest_content_type "/upload/contract"
              {| opt_method := Some "POST";
                 opt_headers := Some [("Content-Type", "text/plain"); ("content-type", "x/y")];
                 opt_body := FormDataBody [("file", "plano.pdf")] |})
    as [Hform _].
  destruct (Hform eq_refl) as (Hnone & Hother & _).
  split; [exact Hnone|]. rewrite Hother by discriminate. reflexivity.
Defined.

(** X10.  The two uploads go out as POSTs with the file, the client id and,
    when it is truthy, the contract id as form fields, and without a
    [Content-Type] header; [uploadWithProgress] sends the same form, to the
    contract endpoint for the type [contract] and to the costs endpoint for
    any other type. *)
Theorem upload_requests (file clientId type : string) (contractId : JValue) :
  let form :=
    FormDataBody ([("file", file); ("client_id", clientId)]
                  ++ (if truthy contractId then [("contract_id", to_string contractId)]
                      else [])) in
  UploadAPI_uploadContract file clientId contractId
  = {| req_url := API_BASE +:+ "/upload/contract"; req_method := Some "POST";
       req_headers := []; req_body := form |}
  /\ UploadAPI_uploadCosts file clientId contractId
     = {| req_url := API_BASE +:+ "/upload/costs"; req_method := Some "POST";
          req_headers := []; req_body := form |}
  /\ uploadWithProgress_open file clientId type contractId
     = if String.eqb type "contract" then UploadAPI_uploadContract file clientId contractId
       else UploadAPI_uploadCosts file clientId contractId.
Proof.
  simpl. split; [|split].
  - unfold UploadAPI_uploadContract, apiRequest_fetch. simpl.
    rewrite filter_cons_False by (simpl; tauto). done.
  - unfold UploadAPI_uploadCosts, apiRequest_fetch. simpl.
    rewrite filter_cons_False by (simpl; tauto). done.
  - unfold uploadWithProgress_open, UploadAPI_uploadContract, UploadAPI_uploadCosts,
      apiRequest_fetch. simpl.
    rewrite filter_cons_False by (simpl; tauto).
    by destruct (String.eqb type "contract").
Qed.

(** X11.  [uploadWithProgress] resolves exactly when the request loads with
    a status from 200 to 299 and a text that parses, and then with the
    parsed text; in every other case it rejects with a plain [Error]. *)
Theorem uploadWithProgress_settles `{Engine} (x : XhrResult) :
  (forall v, uploadWithProgress x = Resolved v <->
             exists status text, x = XhrLoad status text
                                 /\ 200 <= status < 300 /\ JSON_parse text = Some v)
  /\ (forall e, uploadWithProgress x = Rejected e -> exn_name e = "Error").
Proof.
  split.
  - intros v. split.
    + destruct x as [status text| |]; simpl; [|done|done].
      destruct ((200 <=? status) && (status <? 300)) eqn:Hs.
      * destruct (JSON_parse text) as [r|] eqn:Hp; [|done].
        intros [= ->]. exists status, text. split; [done|]. split; [lia|done].
      * destruct (JSON_parse text) as [r|]; [|done]. by destruct (get r "detail").
    + intros (status & text & -> & Hs & Hp). simpl.
      replace ((200 <=? status) && (status <? 300)) with true by lia.
      by rewrite Hp.
  - intros e. destruct x as [status text| |]; simpl.
    + destruct ((200 <=? status) && (status <? 300)).
      * destruct (JSON_parse text); [done|]. by intros [= <-].
      * destruct (JSON_parse text) as [r|]; [|by intros [= <-]].
        destruct (get r "detail"); by intros [= <-].
    + by intros [= <-].
    + by intros [= <-].
Qed.

(** X12.  For a response whose [ok] is that of its status,
    [uploadWithProgress] and [apiRequest] resolve in the same cases and with
    the same value, and they reject an error response that has a truthy
    [detail] with the same error. *)
Theorem uploadWithProgress_as_apiRequest `{Engine} (r : Response) :
  ok r = (200 <=? status r) && (status r <? 300) ->
  (forall v, apiRequest (FetchResponse r) = Resolved v <->
             uploadWithProgress (XhrLoad (status r) (body_text r)) = Resolved v)
  /\ (forall error detail,
        ok r = false -> JSON_parse (body_text r) = Some error ->
        get error "detail" = Some detail -> truthy detail = true ->
        apiRequest (FetchResponse r) = Rejected (new_Error detail)
        /\ uploadWithProgress (XhrLoad (status r) (body_text r))
           = Rejected (new_Error detail)).
Proof.
  intros Hok. split.
  - intros v. unfold apiRequest, uploadWithProgress. rewrite <- Hok.
    destruct (ok r); simpl.
    + by destruct (JSON_parse (body_text r)).
    + destruct (JSON_parse (body_text r)) as [error|]; simpl.
      * by destruct (get error "detail").
      * done.
  - intros error detail Hno Hp Hd Ht.
    unfold apiRequest, uploadWithProgress. rewrite <- Hok, Hno. simpl.
    by rewrite Hp, Hd, !or_else_truthy.
Qed.

Lemma uploadWithProgress_as_apiRequest_witness :
  @apiRequest Reference.engine (FetchResponse Samples.created)
  = Resolved (JObj [("document_id", JStr "d1")])
  <-> @uploadWithProgress Reference.engine
        (XhrLoad (status Samples.created) (body_text Samples.created))
      = Resolved (JObj [("document_id", JStr "d1")]).
Proof.
  apply (@uploadWithProgress_as_apiRequest Reference.engine Samples.created).
  reflexivity.
Defined.

(** ** Further properties of the page *)

Import Handlers HandlerProps.

(** X13.  No handler of the page other than [sendMessage] and the callbacks
    of its stream sets or clears [isSending] or issues a chat request; each
    of them is therefore a step that the chat, taken as a transition system,
    accepts as it stands. *)
Theorem handlers_keep_chat `{Engine} (h : Handler) (p : Page) :
  isSending (app (page_world (handle h p))) = isSending (app (page_world p))
  /\ chat_calls (page_world (handle h p)) = chat_calls (page_world p)
  /\ (forall s, world s = page_world p ->
        world (exec (Other (page_world (handle h p))) s) = page_world (handle h p)).
Proof.
  destruct (handle_frame h p) as [Hs Hc].
  split; [done|]. split; [done|].
  intros s Hw. simpl. rewrite <- Hw in Hs, Hc. rewrite Hs, Hc.
  by rewrite Bool.eqb_reflx, Nat.eqb_refl.
Qed.

(** X14.  An exchange adds two messages and nothing else to the
    conversation shown: after a send that passes the guard, any number of
    status events and the completion, the messages are the earlier ones, the
    question as it was sent and the answer; the chat area shows exactly
    these, the typing indicator is gone, the input is empty, and neither of
    the two new messages has a delete button. *)
Theorem exchange_appends `{Engine} (w : World) (statuses : list JValue) (r : Completion) :
  blocked w = false ->
  let question :=
    added "user" (String_trim (chatInput_value (dom w)))
      {| sources := None; executionId := JUndefined |} in
  let answer :=
    added "assistant" (response r)
      {| sources := response_sources r; executionId := response_execution_id r |} in
  let w' :=
    fst (onComplete_handler r
           (fold_left (fun w m => onStatus_handler m w) statuses (sendMessage w))) in
  currentMessages (app w') = currentMessages (app w) ++ [question; answer]
  /\ chatMessages_html (dom w') = imap render (currentMessages (app w'))
  /\ typing_indicator (dom w') = None
  /\ chatInput_value (dom w') = EmptyString
  /\ chatWelcome_display (dom w') = "none"
  /\ Forall (fun x => r_delete x = None)
       (drop (length (currentMessages (app w))) (chatMessages_html (dom w'))).
Proof.
  intros Hb question answer w'.
  destruct (blocked_false _ Hb) as (_ & [client Hc] & _).
  destruct (sendMessage_sent _ _ Hb Hc) as (Happ & _ & _ & _ & Hin & Hwel & _ & _).
  destruct (statuses_frame statuses (sendMessage w)) as (Ha & _ & _ & Hi & Hd & _ & _ & _).
  set (w1 := fold_left (fun w m => onStatus_handler m w) statuses (sendMessage w)) in *.
  destruct (onComplete_done r w1) as (Hm & Hh & Ht & Hi' & Hd' & _).
  fold w' in Hm, Hh, Ht, Hi', Hd'.
  rewrite Ha, Happ in Hm. simpl in Hm. rewrite <- app_assoc in Hm. simpl in Hm.
  split; [done|]. split; [done|]. split; [done|].
  split; [by rewrite Hi', Hi|]. split; [by rewrite Hd', Hd|].
  rewrite Hh, Hm, imap_app, drop_app_length'; [|by rewrite length_imap].
  repeat constructor.
Qed.

Lemma exchange_appends_witness :
  currentMessages
    (app (fst (@onComplete_handler Reference.engine Reference.completion
                 (fold_left (fun w m => onStatus_handler m w) [JStr "Buscando"]
                    (@sendMessage Reference.engine Samples.open_page)))))
  = Samples.history
    ++ [added "user" "Qual o reajuste?" {| sources := None; executionId := JUndefined |};
        added "assistant" (response Reference.completion)
          {| sources := None; executionId := JStr "e1" |}].
Proof.
  apply (@exchange_appends Reference.engine Samples.open_page [JStr "Buscando"]
           Reference.completion).
  reflexivity.
Defined.

(** X15.  A conversation goes on: after an exchange has completed, the next
    question is sent for the same client and contract and in the
    conversation that was selected when the first one was sent or, if none
    was, in the conversation that the answer named (a new one if it named
    none).  A conversation that is selected is never replaced by the one an
    answer names. *)
Theorem conversation_continues `{Engine} (w : World) (r : Completion)
    (loaded : list Conversation) (text : string) (client : Client) :
  blocked w = false -> selectedClient (app w) = Some client ->
  String_trim text <> EmptyString ->
  let w' := sendMessage (inputChanged text (onComplete_whole r loaded (sendMessage w))) in
  last (net w')
  = Some (ChatStream
            (ChatAPI_sendMessageStream_fetch (String_trim text) (client_id client)
               (chat_options
                  (optional_id contract_id (selectedContract (app w)))
                  (match selectedConversation (app w), response_conversation_id r with
                   | Some c, _ => JStr (conversation_id c)
                   | None, Some cid =>
                       if String.eqb cid EmptyString then JUndefined else JStr cid
                   | None, None => JUndefined
                   end)))).
Proof.
  intros Hb Hc Htext w'.
  destruct (sendMessage_sent _ _ Hb Hc) as (Happ & _).
  set (w1 := sendMessage w) in *.
  set (w2 := onComplete_whole r loaded w1) in *.
  destruct (onComplete_whole_selection r loaded w1 client) as (Hc2 & Hk2 & Hs2 & Hv2).
  { by rewrite Happ. }
  fold w2 in Hc2, Hk2, Hs2, Hv2. rewrite Happ in Hk2, Hv2. simpl in Hk2, Hv2.
  assert (blocked (inputChanged text w2) = false) as Hb3.
  { apply (blocked_ready _ client); simpl; done. }
  destruct (sendMessage_sent (inputChanged text w2) client Hb3) as (_ & Hnet & _); [done|].
  unfold w'. rewrite Hnet, last_snoc. simpl. rewrite Hk2, Hv2.
  do 3 f_equal.
  destruct (selectedConversation (app w));
    [|destruct (response_conversation_id r) as [cid|];
      [destruct (String.eqb cid EmptyString)|]]; done.
Qed.

Lemma conversation_continues_witness :
  last (net (@sendMessage Reference.engine
               (@inputChanged Reference.engine "E a carencia?"
                  (@onComplete_whole Reference.engine Reference.completion []
                     (@sendMessage Reference.engine Reference.idle)))))
  = Some (ChatStream
            (ChatAPI_sendMessageStream_fetch "E a carencia?" "c1"
               (chat_options JUndefined (JStr "conv1")))).
Proof.
  apply (@conversation_continues Reference.engine Reference.idle Reference.completion []
           "E a carencia?" {| client_id := "c1"; client_name := "Acme" |}).
  - reflexivity.
  - reflexivity.
  - discriminate.
Defined.



(** X17.  With no send under way, the new-chat button keeps the client and
    the contract and drops the conversation: the chat is emptied, the welcome
    screen is shown, and the next question goes out with no conversation
    id. *)
Theorem startNewConversation_next `{Engine} (w : World) (client : Client) (text : string) :
  selectedClient (app w) = Some client -> isSending (app w) = false ->
  String_trim text <> EmptyString ->
  let w1 := startNewConversation w in
  let w' := sendMessage (inputChanged text w1) in
  currentMessages (app w1) = []
  /\ (chatWelcome_display (dom w1), chatMessages_display (dom w1)) = ("flex", "none")
  /\ last (net w')
     = Some (ChatStream
               (ChatAPI_sendMessageStream_fetch (String_trim text) (client_id client)
                  (chat_options (optional_id contract_id (selectedContract (app w)))
                     JUndefined)))
  /\ (chatWelcome_display (dom w'), chatMessages_display (dom w')) = ("none", "flex").
Proof.
  intros Hc Hs Htext w1 w'.
  assert (blocked (inputChanged text w1) = false) as Hb.
  { apply (blocked_ready _ client); simpl; done. }
  destruct (sendMessage_sent _ client Hb) as (_ & Hnet & _); [done|].
  split; [done|]. split; [done|]. split.
  - unfold w'. rewrite Hnet, last_snoc. done.
  - unfold w', sendMessage. rewrite Hb. simpl. by rewrite Hc.
Qed.

Lemma startNewConversation_next_witness :
  currentMessages (app (startNewConversation Samples.open_page)) = []
  /\ (chatWelcome_display (dom (startNewConversation Samples.open_page)),
      chatMessages_display (dom (startNewConversation Samples.open_page))) = ("flex", "none")
  /\ last (net (@sendMessage Reference.engine
                  (@inputChanged Reference.engine "Outra pergunta"
                     (startNewConversation Samples.open_page))))
     = Some (ChatStream
               (ChatAPI_sendMessageStream_fetch "Outra pergunta" "c1"
                  (chat_options JUndefined JUndefined)))
  /\ (chatWelcome_display
        (dom (@sendMessage Reference.engine
                (@inputChanged Reference.engine "Outra pergunta"
                   (startNewConversation Samples.open_page)))),
      chatMessages_display
        (dom (@sendMessage Reference.engine
                (@inputChanged Reference.engine "Outra pergunta"
                   (startNewConversation Samples.open_page))))) = ("none", "flex").
Proof.
  apply (@startNewConversation_next Reference.engine Samples.open_page
           {| client_id := "c1"; client_name := "Acme" |} "Outra pergunta").
  - reflexivity.
  - reflexivity.
  - discriminate.
Defined.

(** X18.  A delete button is drawn for the message it is on: on a page
    whose chat area shows the current messages, the [onclick] text of the
    button at position [i] is the call of [deleteMessage] with the id of
    the message at [i], pasted as it is, and the index [i].  When that id is
    made of letters, digits, [-] and [_], pressing the button calls
    [deleteMessage] with that id and that index; confirmed, with a
    conversation and a client selected, this asks the server to delete that
    message of the conversation, and when the call succeeds with the list
    unchanged the page shows the list without position [i].  Declining the
    confirmation does nothing. *)
Theorem delete_button_removes_its_message (w : World) (i : nat) (text : string)
    (conv : Conversation) (client : Client) (v : JValue) :
  chatMessages_html (dom w) = imap render (currentMessages (app w)) ->
  selectedConversation (app w) = Some conv -> selectedClient (app w) = Some client ->
  r_delete <$> (chatMessages_html (dom w) !! i) = Some (Some text) ->
  exists msg messageId,
    currentMessages (app w) !! i = Some msg /\ id msg = Some messageId
    /\ text = delete_onclick messageId i
    /\ (plain messageId = true ->
        let clicked := deleteMessage messageId i true w in
        let w' := deleteMessage_resume i (Resolved v) (fst clicked) in
        onclick_call text = Some (messageId, i)
        /\ snd clicked = true
        /\ request_of <$> last (net (fst clicked))
           = Some (Web.ConversationsAPI_deleteMessage (conversation_id conv) messageId
                     (client_id client))
        /\ currentMessages (app w') = delete i (currentMessages (app w))
        /\ chatMessages_html (dom w') = imap render (currentMessages (app w'))
        /\ deleteMessage messageId i false w = (w, false)).
Proof.
  intros Hsync Hv Hc Hbutton.
  rewrite Hsync, list_lookup_imap in Hbutton.
  destruct (currentMessages (app w) !! i) as [msg|] eqn:Hmsg; [|done].
  simpl in Hbutton. unfold render in Hbutton. simpl in Hbutton.
  destruct (id msg) as [mid|] eqn:Hid; [|done].
  destruct (String.eqb mid EmptyString); [done|].
  injection Hbutton as <-.
  exists msg, mid. split; [done|]. split; [done|]. split; [done|].
  intros Hplain clicked w'.
  split; [by apply ClickProps.onclick_call_delete|].
  subst clicked w'. unfold deleteMessage. rewrite Hv, Hc. simpl.
  split; [done|]. split; [by rewrite last_snoc|].
  unfold splice. simpl. rewrite Nat.add_1_r, <- delete_take_drop. done.
Qed.

Lemma delete_button_removes_its_message_witness :
  exists msg messageId,
    currentMessages (app Samples.open_page) !! 1%nat = Some msg
    /\ id msg = Some messageId
    /\ "deleteMessage('m2', 1)" = delete_onclick messageId 1
    /\ (plain messageId = true ->
        onclick_call "deleteMessage('m2', 1)" = Some (messageId, 1%nat)
        /\ snd (deleteMessage messageId 1 true Samples.open_page) = true
        /\ request_of <$> last (net (fst (deleteMessage messageId 1 true Samples.open_page)))
           = Some (Web.ConversationsAPI_deleteMessage "conv1" messageId "c1")
        /\ currentMessages
             (app (deleteMessage_resume 1 (Resolved JNull)
                     (fst (deleteMessage messageId 1 true Samples.open_page))))
           = delete 1%nat (currentMessages (app Samples.open_page))
        /\ chatMessages_html
             (dom (deleteMessage_resume 1 (Resolved JNull)
                     (fst (deleteMessage messageId 1 true Samples.open_page))))
           = imap render
               (currentMessages
                  (app (deleteMessage_resume 1 (Resolved JNull)
                          (fst (deleteMessage messageId 1 true Samples.open_page)))))
        /\ deleteMessage messageId 1 false Samples.open_page = (Samples.open_page, false)).
Proof.
  apply (delete_button_removes_its_message Samples.open_page 1 "deleteMessage('m2', 1)"
           {| conversation_id := "conv1"; conversation_title := None |}
           {| client_id := "c1"; client_name := "Acme" |} JNull);
    reflexivity.
Defined.

(** X19.  Two deletions under way at once can remove the wrong message: when
    the buttons at positions [i < j] are both pressed before either call
    returns, the server is asked to delete both messages.  If the call for
    [i] returns first, the page, once both calls have succeeded, still
    shows the message that was at [j] (one place up) and has dropped the one
    that followed it.  If the call for [j] returns first, the page has
    dropped the messages that were at [i] and at [j]. *)
Theorem overlapping_deletes (w : World) (i j : nat) (first second : string)
    (conv : Conversation) (client : Client) (v v' : JValue) (m : Message) :
  selectedConversation (app w) = Some conv -> selectedClient (app w) = Some client ->
  (i < j)%nat -> currentMessages (app w) !! j = Some m ->
  let w1 := fst (deleteMessage second j true (fst (deleteMessage first i true w))) in
  let w' := deleteMessage_resume j (Resolved v') (deleteMessage_resume i (Resolved v) w1) in
  let w'' := deleteMessage_resume i (Resolved v) (deleteMessage_resume j (Resolved v') w1) in
  net w1 = net w ++ [DeleteMessage (conversation_id conv) first (client_id client);
                     DeleteMessage (conversation_id conv) second (client_id client)]
  /\ currentMessages (app w') = delete j (delete i (currentMessages (app w)))
  /\ currentMessages (app w') !! (j - 1)%nat = Some m
  /\ currentMessages (app w') !! j = currentMessages (app w) !! (j + 2)%nat
  /\ currentMessages (app w'') = delete i (delete j (currentMessages (app w)))
  /\ (forall k, (k < i)%nat ->
        currentMessages (app w'') !! k = currentMessages (app w) !! k)
  /\ (forall k, (i <= k)%nat -> (S k < j)%nat ->
        currentMessages (app w'') !! k = currentMessages (app w) !! S k)
  /\ (forall k, (j <= S k)%nat ->
        currentMessages (app w'') !! k = currentMessages (app w) !! S (S k)).
Proof.
  intros Hv Hc Hij Hm w1 w' w''.
  assert (currentMessages (app w1) = currentMessages (app w)
          /\ net w1 = net w ++ [DeleteMessage (conversation_id conv) first (client_id client);
                                DeleteMessage (conversation_id conv) second (client_id client)])
    as [Hms Hnet].
  { subst w1. unfold deleteMessage. rewrite Hv, Hc. simpl. rewrite Hv, Hc. simpl.
    by rewrite <- app_assoc. }
  assert (forall a b now,
            currentMessages (app (deleteMessage_resume a (Resolved v')
                                    (deleteMessage_resume b (Resolved v) now)))
            = delete a (delete b (currentMessages (app now)))) as Htwo.
  { intros a b now. simpl. unfold splice. simpl.
    by rewrite !Nat.add_1_r, <- !delete_take_drop. }
  assert (currentMessages (app w') = delete j (delete i (currentMessages (app w)))) as Hd.
  { subst w'. by rewrite Htwo, Hms. }
  assert (currentMessages (app w'') = delete i (delete j (currentMessages (app w)))) as Hd'.
  { subst w''. simpl. unfold splice. simpl.
    by rewrite !Nat.add_1_r, <- !delete_take_drop, Hms. }
  split; [done|]. split; [done|]. split; [|split; [|split; [done|split; [|split]]]].
  - rewrite Hd, list_lookup_delete_lt by lia.
    rewrite list_lookup_delete_ge by lia.
    replace (S (j - 1)) with j by lia. done.
  - rewrite Hd, list_lookup_delete_ge by lia.
    rewrite list_lookup_delete_ge by lia.
    f_equal. lia.
  - intros k Hk. rewrite Hd', !list_lookup_delete_lt by lia. done.
  - intros k Hk Hkj. rewrite Hd', list_lookup_delete_ge by lia.
    by rewrite list_lookup_delete_lt by lia.
  - intros k Hk. rewrite Hd', list_lookup_delete_ge by lia.
    by rewrite list_lookup_delete_ge by lia.
Qed.

Lemma overlapping_deletes_witness :
  currentMessages
    (app (deleteMessage_resume 1 (Resolved JNull)
            (deleteMessage_resume 0 (Resolved JNull)
               (fst (deleteMessage "m2" 1 true
                       (fst (deleteMessage "m1" 0 true Samples.open_page)))))))
  = [Samples.stored "m2" "assistant" "8% ao ano."]
  /\ currentMessages
       (app (deleteMessage_resume 0 (Resolved JNull)
               (deleteMessage_resume 1 (Resolved JNull)
                  (fst (deleteMessage "m2" 1 true
                          (fst (deleteMessage "m1" 0 true Samples.open_page)))))))
     = [Samples.stored "m3" "user" "E a carencia?"].
Proof.
  destruct (overlapping_deletes Samples.open_page 0 1 "m1" "m2"
              {| conversation_id := "conv1"; conversation_title := None |}
              {| client_id := "c1"; client_name := "Acme" |} JNull JNull
              (Samples.stored "m2" "assistant" "8% ao ano."))
    as (_ & Hfirst & _ & _ & Hsecond & _); [reflexivity|reflexivity|lia|reflexivity|].
  split; [exact Hfirst|exact Hsecond].
Defined.

(** X20.  A contract of the side bar toggles: pressing a contract that is not
    the selected one selects it, and pressing the selected one clears the
    selection.  After two presses of one contract that contract is selected
    if it was selected before, and no contract is selected otherwise, so the
    selection of another contract is lost.  The next question after a press
    carries the id of the contract pressed exactly when the press selected
    it, and no contract id otherwise. *)
Theorem clickContract_toggles `{Engine} (w : World) (c : Contract) :
  find_contract (contract_id c) (contracts (app w)) = Some c ->
  let selected :=
    match selectedContract (app w) with
    | Some k => String.eqb (contract_id k) (contract_id c)
    | None => false
    end in
  let w1 := clickContract (contract_id c) w in
  selectedContract (app w1) = (if selected then None else Some c)
  /\ selectedContract (app (clickContract (contract_id c) w1))
     = (if selected then Some c else None)
  /\ (forall client text,
        selectedClient (app w) = Some client -> isSending (app w) = false ->
        String_trim text <> EmptyString ->
        last (net (sendMessage (inputChanged text w1)))
        = Some (ChatStream
                  (ChatAPI_sendMessageStream_fetch (String_trim text) (client_id client)
                     (chat_options
                        (if selected then JUndefined else JStr (contract_id c))
                        (optional_id conversation_id (selectedConversation (app w))))))).
Proof.
  intros Hfind selected w1.
  assert (selectedContract (app w1) = (if selected then None else Some c)
          /\ app w1 = set_selectedContract (if selected then None else Some c) (app w)
          /\ dom w1 = dom w /\ net w1 = net w) as (H1 & Happ & Hdom & Hnet).
  { unfold w1, clickContract. fold selected. rewrite Hfind. by destruct selected. }
  split; [done|]. split.
  - unfold clickContract. rewrite H1, Happ. simpl. rewrite Hfind.
    destruct selected; [done|]. by rewrite String.eqb_refl.
  - intros client text Hc Hs Htext.
    assert (blocked (inputChanged text w1) = false) as Hb.
    { apply (blocked_ready _ client); simpl; [done|by rewrite Happ|by rewrite Happ]. }
    destruct (sendMessage_sent _ client Hb) as (_ & Hn & _).
    { simpl. by rewrite Happ. }
    rewrite Hn, last_snoc. simpl. rewrite Happ. simpl. by destruct selected.
Qed.

Lemma clickContract_toggles_witness :
  selectedContract (app (clickContract "k1" Samples.with_contracts)) = Some Samples.plan
  /\ selectedContract
       (app (clickContract "k1" (clickContract "k1" Samples.with_contracts))) = None.
Proof.
  destruct (@clickContract_toggles Reference.engine Samples.with_contracts Samples.plan)
    as (H1 & H2 & _); [reflexivity|].
  split; [exact H1|exact H2].
Defined.

(** X21.  Redrawing the chat loses the typing indicator for good: after a
    deletion has succeeded or a conversation has been loaded there is no
    indicator, and the status events of a send still under way change
    nothing of the page. *)
Theorem rerender_drops_typing_indicator (w : World) (p : Page) (index : nat) (v : JValue)
    (detail : option (list Message)) (statuses : list JValue) :
  let after_delete := deleteMessage_resume index (Resolved v) w in
  let after_load := page_world (selectConversation_resume (Resolved detail) p) in
  typing_indicator (dom after_delete) = None
  /\ fold_left (fun w m => onStatus_handler m w) statuses after_delete = after_delete
  /\ typing_indicator (dom after_load) = None
  /\ fold_left (fun w m => onStatus_handler m w) statuses after_load = after_load.
Proof.
  intros after_delete after_load.
  split; [done|]. split; [by apply statuses_idle|].
  split; [done|]. by apply statuses_idle.
Qed.

(** X22.  A send that fails can be repeated: when [onError] receives an error
    with a [message] property, the send is over, the question stays in the
    chat, the typing indicator is gone, one error toast is added, the input
    stays empty, and a new question passes the guard. *)
Theorem failed_send_can_be_repeated `{Engine} (w : World) (error m : JValue)
    (text : string) :
  blocked w = false -> get error "message" = Some m ->
  String_trim text <> EmptyString ->
  let w' := onError_handler error (sendMessage w) in
  isSending (app w') = false
  /\ currentMessages (app w')
     = currentMessages (app w)
       ++ [added "user" (String_trim (chatInput_value (dom w)))
             {| sources := None; executionId := JUndefined |}]
  /\ typing_indicator (dom w') = None
  /\ toasts (dom w')
     = toasts (dom w)
       ++ [{| toast_type := "error"; toast_title := "Erro ao enviar mensagem";
              toast_message := to_string (or_else m (JStr "Erro desconhecido")) |}]
  /\ chatInput_value (dom w') = EmptyString
  /\ blocked (inputChanged text w') = false.
Proof.
  intros Hb Hm Htext w'.
  destruct (blocked_false _ Hb) as (_ & [client Hc] & _).
  destruct (sendMessage_sent _ _ Hb Hc) as (Happ & _ & _ & _ & Hin & _ & Ht & _).
  unfold w', onError_handler. rewrite Hm. simpl. rewrite Happ, Hin, Ht. simpl.
  repeat (split; [done|]).
  apply (blocked_ready _ client); simpl; [done|by rewrite Happ|done].
Qed.

Lemma failed_send_can_be_repeated_witness :
  isSending
    (app (@onError_handler Reference.engine Reference.stream_error
            (@sendMessage Reference.engine Reference.idle))) = false.
Proof.
  apply (@failed_send_can_be_repeated Reference.engine Reference.idle
           Reference.stream_error (JStr "network error") "De novo").
  - reflexivity.
  - reflexivity.
  - discriminate.
Defined.

(** X23.  An error event without data locks the chat: when [onError] is
    called with [null] or [undefined], reading its message throws before
    [isSending] is cleared, and from then on, whatever the other handlers of
    the page do and whatever is typed, [sendMessage] does nothing. *)
Theorem error_without_data_locks `{Engine} (w : World) (error : JValue) (p : Page)
    (hs : list Handler) (text : string) :
  blocked w = false -> get error "message" = None ->
  page_world p = onError_handler error (sendMessage w) ->
  let w' := inputChanged text (page_world (fold_left (fun p h => handle h p) hs p)) in
  isSending (app w') = true /\ sendMessage w' = w'.
Proof.
  intros Hb Hm Hp w'.
  destruct (blocked_false _ Hb) as (_ & [client Hc] & _).
  destruct (sendMessage_sent _ _ Hb Hc) as (Happ & _).
  assert (isSending (app w') = true) as Hs.
  { unfold w'. simpl. rewrite handles_frame, Hp.
    unfold onError_handler. rewrite Hm. simpl. by rewrite Happ. }
  split; [done|]. apply sendMessage_blocked.
  unfold blocked. rewrite Hs. by rewrite orb_true_r.
Qed.

Lemma error_without_data_locks_witness :
  @sendMessage Reference.engine
    (@inputChanged Reference.engine "De novo"
       (@onError_handler Reference.engine JNull (@sendMessage Reference.engine Reference.idle)))
  = @inputChanged Reference.engine "De novo"
      (@onError_handler Reference.engine JNull (@sendMessage Reference.engine Reference.idle)).
Proof.
  apply (@error_without_data_locks Reference.engine Reference.idle JNull
           {| page_world := @onError_handler Reference.engine JNull
                              (@sendMessage Reference.engine Reference.idle);
              page_fetches := [] |} [] "De novo").
  - reflexivity.
  - reflexivity.
  - reflexivity.
Defined.

(** X24.  Opening a conversation shows it and continues it: with a client
    selected, choosing a conversation asks for it; when it has loaded, the
    chat shows exactly its messages, and the next question is sent in that
    conversation.  When loading fails the conversation stays selected while
    the chat keeps the messages it showed before, and an error toast is
    added. *)
Theorem selectConversation_then_send `{Engine} (p : Page) (c : Conversation)
    (client : Client) (detail : option (list Message)) (text : string) :
  selectedClient (app (page_world p)) = Some client ->
  isSending (app (page_world p)) = false -> String_trim text <> EmptyString ->
  let clicked := selectConversation (Some c) p in
  let p' := selectConversation_resume (Resolved detail) (fst clicked) in
  let w' := sendMessage (inputChanged text (page_world p')) in
  snd clicked = true
  /\ page_fetches (fst clicked)
     = page_fetches p ++ [Web.ConversationsAPI_get (conversation_id c) (client_id client)]
  /\ currentMessages (app (page_world p')) = default [] detail
  /\ chatMessages_html (dom (page_world p')) = imap render (default [] detail)
  /\ (chatWelcome_display (dom (page_world p')), chatMessages_display (dom (page_world p')))
     = ("none", "flex")
  /\ last (net w')
     = Some (ChatStream
               (ChatAPI_sendMessageStream_fetch (String_trim text) (client_id client)
                  (chat_options
                     (optional_id contract_id (selectedContract (app (page_world p))))
                     (JStr (conversation_id c)))))
  /\ (forall e,
        let failed := page_world (selectConversation_resume (Rejected e) (fst clicked)) in
        selectedConversation (app failed) = Some c
        /\ currentMessages (app failed) = currentMessages (app (page_world p))
        /\ chatMessages_html (dom failed) = chatMessages_html (dom (page_world p))
        /\ toasts (dom failed)
           = toasts (dom (page_world p))
             ++ [{| toast_type := "error"; toast_title := "Erro ao carregar conversa";
                    toast_message := exn_message e |}]).
Proof.
  intros Hc Hs Htext clicked p' w'.
  assert (clicked
          = (fetch (Web.ConversationsAPI_get (conversation_id c) (client_id client))
               (on_world (set_app (set_selectedConversation (Some c))) p), true)) as Hclicked.
  { subst clicked. unfold selectConversation. simpl. by rewrite Hc. }
  subst p' w'. rewrite Hclicked. simpl.
  split; [done|]. split; [done|]. split; [done|]. split; [done|]. split; [done|].
  split; [|done].
  match goal with
  | |- last (net (sendMessage ?w)) = _ =>
      assert (blocked w = false) as Hb
        by (apply (blocked_ready _ client); simpl; done);
      destruct (sendMessage_sent w client Hb) as (_ & Hnet & _); [done|];
      rewrite Hnet, last_snoc
  end.
  done.
Qed.

Lemma selectConversation_then_send_witness :
  last (net (@sendMessage Reference.engine
               (@inputChanged Reference.engine "E a carencia?"
                  (page_world
                     (selectConversation_resume (Resolved (Some Samples.history))
                        (fst (@selectConversation Reference.engine
                                (Some (Samples.conv "conv7")) Samples.start_page)))))))
  = Some (ChatStream
            (ChatAPI_sendMessageStream_fetch "E a carencia?" "c1"
               (chat_options JUndefined (JStr "conv7")))).
Proof.
  apply (@selectConversation_then_send Reference.engine Samples.start_page
           (Samples.conv "conv7") {| client_id := "c1"; client_name := "Acme" |}
           (Some Samples.history) "E a carencia?").
  - reflexivity.
  - reflexivity.
  - discriminate.
Defined.

(** X25.  A hint card asks its question only for a client: with a client
    selected and no send under way, pressing a card and submitting sends the
    text of the card, trimmed, as the question; with no client selected the
    card leaves the input as it is, adds an information toast, and
    submitting does nothing. *)
Theorem hint_card_asks `{Engine} (w : World) (hint : string) :
  isSending (app w) = false -> String_trim hint <> EmptyString ->
  match selectedClient (app w) with
  | Some client =>
      last (net (sendMessage (clickHint hint w)))
      = Some (ChatStream
                (ChatAPI_sendMessageStream_fetch (String_trim hint) (client_id client)
                   (chat_options (optional_id contract_id (selectedContract (app w)))
                      (optional_id conversation_id (selectedConversation (app w))))))
      /\ btnSend_disabled (dom (clickHint hint w)) = false
  | None =>
      chatInput_value (dom (clickHint hint w)) = chatInput_value (dom w)
      /\ toasts (dom (clickHint hint w))
         = toasts (dom w)
           ++ [{| toast_type := "info"; toast_title := "Selecione um cliente";
                  toast_message := "Escolha um cliente primeiro" |}]
      /\ sendMessage (clickHint hint w) = clickHint hint w
  end.
Proof.
  intros Hs Hhint. unfold clickHint.
  destruct (selectedClient (app w)) as [client|] eqn:Hc.
  - assert (blocked (updateSendButton (set_dom (set_chatInput_value hint) w)) = false) as Hb.
    { apply (blocked_ready _ client); simpl; done. }
    destruct (sendMessage_sent _ client Hb) as (_ & Hnet & _); [done|].
    rewrite Hnet, last_snoc. split; [done|]. simpl. rewrite Hs, orb_false_r.
    destruct (String.eqb (String_trim hint) EmptyString) eqn:He; [|done].
    by apply String.eqb_eq in He.
  - split; [done|]. split; [done|]. apply sendMessage_blocked.
    unfold blocked. simpl. rewrite Hc. simpl. by rewrite orb_true_r.
Qed.

Lemma hint_card_asks_witness :
  last (net (@sendMessage Reference.engine
               (@clickHint Reference.engine " Qual o reajuste previsto? " Reference.idle)))
  = Some (ChatStream
            (ChatAPI_sendMessageStream_fetch "Qual o reajuste previsto?" "c1"
               (chat_options JUndefined JUndefined)))
  /\ btnSend_disabled (dom (@clickHint Reference.engine " Qual o reajuste previsto? "
                              Reference.idle)) = false.
Proof.
  apply (@hint_card_asks Reference.engine Reference.idle " Qual o reajuste previsto? ").
  - reflexivity.
  - discriminate.
Defined.

(** ** The grouping of the conversations *)

Import Grouping GroupProps.

(** X26.  [groupConversationsByDate] partitions the conversations by their
    labels: the object it returns has one property for each label, no label
    twice and no empty group; the group of a label holds exactly the
    conversations of that label in the order of the list; and the groups
    together hold every conversation once. *)
Theorem groupConversationsByDate_partition `{ObjectPrototype}
    (labelled : list (string * Conversation))
    (groups : list (string * list Conversation)) :
  groupConversationsByDate labelled = Some groups ->
  NoDup (fst <$> groups)
  /\ (forall date g, (date, g) ∈ groups ->
        g <> [] /\ g = snd <$> filter (fun lc => fst lc = date) labelled)
  /\ (forall date conv, (date, conv) ∈ labelled ->
        exists g, (date, g) ∈ groups /\ conv ∈ g)
  /\ concat (snd <$> groups) ≡ₚ snd <$> labelled.
Proof.
  intros Hrun. unfold groupConversationsByDate in Hrun.
  destruct (group_loop_grouped labelled [] [] groups grouped_nil Hrun) as (Hnd & Hl & Hp).
  simpl in Hl, Hp. split; [done|]. split; [|split; [|done]].
  - intros date g Hin. apply (elem_lookup_key _ _ _ Hnd) in Hin.
    rewrite Hl in Hin. fold (members date labelled).
    destruct (members date labelled); [done|]. by injection Hin as <-.
  - intros date conv Hin. pose proof (Hl date) as Hd.
    assert (conv ∈ members date labelled) as Hm.
    { unfold members. apply list_elem_of_fmap. exists (date, conv). split; [done|].
      by apply list_elem_of_filter. }
    destruct (members date labelled) as [|c g] eqn:Hg; [by apply elem_of_nil in Hm|].
    exists (c :: g). split; [|done]. by apply lookup_key_elem.
Qed.

Lemma groupConversationsByDate_partition_witness :
  concat (snd <$> [("Hoje", [Samples.conv "v1"; Samples.conv "v3"]);
                   ("Ontem", [Samples.conv "v2"]);
                   ("3 dias atras", [Samples.conv "v4"])])
  ≡ₚ snd <$> Samples.labelled.
Proof.
  apply (@groupConversationsByDate_partition Samples.object_prototype Samples.labelled).
  reflexivity.
Defined.
